(** * Verification of the website auditor (api/analyze handler)

    A shallow embedding of the resource extractor, the five dimension
    analyzers and the score aggregator, followed by the properties of the
    specification that were checked against it.

    Conventions.
    - A JavaScript string is the list of its UTF-16 code units ([jsstring]);
      [length] is then the [.length] of the source.
    - Regular expressions are kept as the pattern text of the source and
      read by [read_pattern] below; matching is the backtracking semantics of
      ECMAScript (priority order of alternatives, greedy and lazy
      quantifiers, capture groups, lookahead).
    - Text of the page that reaches [new RegExp] or [new URL] in a form
      this development does not interpret is handed to a [Platform], about
      which nothing is assumed.
    - In every literal of this file the backquote character stands for the
      double quote (code unit 34). *)

From Stdlib Require Import Strings.String Strings.Ascii Numbers.DecimalString.
From Stdlib Require Import Floats.SpecFloat.
From Stdlib Require Import FSets.FMapPositive.
From Stdlib Require Import NArith ZArith Bool Arith Lia List.
Import ListNotations.

Set Implicit Arguments.

(* ================================================================== *)
(** * JavaScript strings *)
(* ================================================================== *)

Definition char := N.
Definition jsstring := list char.

Definition jsstring_eqb (a b : jsstring) : bool :=
  if list_eq_dec N.eq_dec a b then true else false.

(** UTF-8 bytes of a source literal to UTF-16 code units. *)
Fixpoint utf8_units (bs : list N) : jsstring :=
  match bs with
  | [] => []
  | b :: t =>
    if (b <? 128)%N then b :: utf8_units t
    else if (b <? 224)%N then
      match t with
      | b2 :: t2 => ((b - 192) * 64 + (b2 - 128))%N :: utf8_units t2
      | _ => [65533%N]
      end
    else if (b <? 240)%N then
      match t with
      | b2 :: b3 :: t3 =>
        ((b - 224) * 4096 + (b2 - 128) * 64 + (b3 - 128))%N :: utf8_units t3
      | _ => [65533%N]
      end
    else
      match t with
      | b2 :: b3 :: b4 :: t4 =>
        let cp := ((b - 240) * 262144 + (b2 - 128) * 4096
                   + (b3 - 128) * 64 + (b4 - 128) - 65536)%N in
        (55296 + cp / 1024)%N :: (56320 + cp mod 1024)%N :: utf8_units t4
      | _ => [65533%N]
      end
  end.

Definition byte_unit (a : ascii) : N :=
  let n := N_of_ascii a in if (n =? 96)%N then 34%N else n.

(** [js "text"] is the JavaScript string written [text] in the source. *)
Definition js (s : string) : jsstring :=
  utf8_units (map byte_unit (list_ascii_of_string s)).
Arguments js s%_string.

Definition of_nat (n : nat) : jsstring :=
  map (fun a => N_of_ascii a)
      (list_ascii_of_string (NilEmpty.string_of_uint (Nat.to_uint n))).

Definition of_Z (z : Z) : jsstring :=
  match z with
  | Zneg p => 45%N :: of_nat (Pos.to_nat p)
  | _ => of_nat (Z.to_nat z)
  end.

Definition between (lo hi c : N) : bool := ((lo <=? c) && (c <=? hi))%N.

Definition is_digit (c : char) : bool := between 48 57 c.
Definition is_upper (c : char) : bool := between 65 90 c.
Definition is_lower (c : char) : bool := between 97 122 c.
Definition is_word (c : char) : bool :=
  is_digit c || is_upper c || is_lower c || (c =? 95)%N.

(** WhiteSpace and LineTerminator code units: the set of [\s] and of
    [String.prototype.trim]. *)
Definition is_space (c : char) : bool :=
  between 9 13 c || (c =? 32)%N || (c =? 160)%N || (c =? 5760)%N
  || between 8192 8202 c || (c =? 8232)%N || (c =? 8233)%N
  || (c =? 8239)%N || (c =? 8287)%N || (c =? 12288)%N || (c =? 65279)%N.

Definition is_line_terminator (c : char) : bool :=
  (c =? 10)%N || (c =? 13)%N || (c =? 8232)%N || (c =? 8233)%N.

Definition upper_ascii (c : char) : char := if is_lower c then (c - 32)%N else c.
Definition swap_case (c : char) : char :=
  if is_lower c then (c - 32)%N else if is_upper c then (c + 32)%N else c.

(** [toLowerCase]: exact on ASCII and on U+212A (KELVIN SIGN, the only
    other code unit whose lower case is an ASCII letter).  Its results are
    only ever compared with ASCII literals, for which no other mapping of
    the Unicode tables matters: the one mapping that produces an ASCII
    letter among other units, U+0130 to [i] followed by U+0307, cannot
    complete any of those literals, none of which ends in [i]. *)
Definition lower_unit (c : char) : char :=
  if is_upper c then (c + 32)%N else if (c =? 8490)%N then 107%N else c.
Definition toLowerCase (s : jsstring) : jsstring := map lower_unit s.

Fixpoint starts_with (p s : jsstring) : bool :=
  match p, s with
  | [], _ => true
  | a :: p', b :: s' => (a =? b)%N && starts_with p' s'
  | _ :: _, [] => false
  end.

Fixpoint includes (s p : jsstring) : bool :=
  starts_with p s || match s with [] => false | _ :: t => includes t p end.

Fixpoint trim_start (s : jsstring) : jsstring :=
  match s with
  | c :: t => if is_space c then trim_start t else s
  | [] => []
  end.

Definition trim (s : jsstring) : jsstring :=
  rev (trim_start (rev (trim_start s))).

(** [parseInt] of a run of decimal digits.  The source stores the result
    or compares it with a small constant; the comparison gives the same
    answer on the exact integer as on the nearest double.  The value kept
    here is the exact integer, which is the number of the source below
    2^53. *)
Definition parseInt (s : jsstring) : N :=
  fold_left (fun acc c => (acc * 10 + (c - 48))%N) s 0%N.

Fixpoint take_digits (s : jsstring) : jsstring :=
  match s with
  | c :: t => if is_digit c then c :: take_digits t else []
  | [] => []
  end.

Fixpoint drop_non_digits (s : jsstring) : jsstring :=
  match s with
  | c :: t => if is_digit c then s else drop_non_digits t
  | [] => []
  end.

(** [parseInt(f.match(/\d+/)[0])]: the first run of digits of [f]. *)
Definition first_number (s : jsstring) : N := parseInt (take_digits (drop_non_digits s)).

(* ================================================================== *)
(** * Regular expressions *)
(* ================================================================== *)

Inductive class_item :=
| CChar (c : char)
| CRange (lo hi : char)
| CDigit (neg : bool)
| CSpace (neg : bool)
| CWord (neg : bool).

Inductive regex :=
| REmpty
| RChar (c : char)
| RAny
| RClass (neg : bool) (items : list class_item)
| RSeq (a b : regex)
| RAlt (a b : regex)
| RRepeat (min : nat) (max : option nat) (greedy : bool) (a : regex)
| RGroup (n : nat) (a : regex)
| RLook (neg : bool) (a : regex)
| RBol
| REol
| RWordB (neg : bool).

(** ** Matching

    A matcher state is a position in the subject (the code unit before it
    and the text after it) with the captures made so far.  [rmatch]
    returns every way the pattern can match from a state, in the order in
    which the backtracking matcher of ECMAScript tries them: the head of
    the list is the match the engine reports. *)

Record mstate := MState {
  prev : option char;
  rest : jsstring;
  caps : list (nat * jsstring)
}.

Definition get_cap (n : nat) (cs : list (nat * jsstring)) : option jsstring :=
  match find (fun p => Nat.eqb (fst p) n) cs with
  | Some p => Some (snd p)
  | None => None
  end.

Definition drop_caps (gs : list nat) (cs : list (nat * jsstring)) :=
  filter (fun p => negb (existsb (Nat.eqb (fst p)) gs)) cs.

Definition set_cap (n : nat) (v : jsstring) (cs : list (nat * jsstring)) :=
  (n, v) :: drop_caps [n] cs.

Definition step (x : mstate) (ok : char -> bool) : list mstate :=
  match rest x with
  | c :: t => if ok c then [MState (Some c) t (caps x)] else []
  | [] => []
  end.

(** Canonicalize of the [i] flag, for an ASCII pattern character [p]. *)
Definition char_eq (i : bool) (p c : char) : bool :=
  if i then (upper_ascii p =? upper_ascii c)%N else (p =? c)%N.

Definition in_item (it : class_item) (c : char) : bool :=
  match it with
  | CChar a => (a =? c)%N
  | CRange lo hi => between lo hi c
  | CDigit neg => xorb neg (is_digit c)
  | CSpace neg => xorb neg (is_space c)
  | CWord neg => xorb neg (is_word c)
  end.

Definition class_mem (i : bool) (items : list class_item) (c : char) : bool :=
  existsb (fun it => in_item it c || (i && in_item it (swap_case c))) items.

Fixpoint groups_in (r : regex) : list nat :=
  match r with
  | RSeq a b | RAlt a b => groups_in a ++ groups_in b
  | RRepeat _ _ _ a | RLook _ a => groups_in a
  | RGroup n a => n :: groups_in a
  | _ => []
  end.

Definition consumed (x y : mstate) : jsstring :=
  firstn (length (rest x) - length (rest y)) (rest x).

Definition word_at (o : option char) : bool :=
  match o with Some c => is_word c | None => false end.

(** RepeatMatcher: an iteration that is not required ([min = 0]) and
    consumes nothing is rejected; the captures of the repeated atom are
    cleared when an iteration starts. *)
Fixpoint repeat_match (body : mstate -> list mstate) (gs : list nat)
    (greedy : bool) (fuel min : nat) (max : option nat) (x : mstate)
    : list mstate :=
  match fuel with
  | O => []
  | S f =>
    match max with
    | Some O => [x]
    | _ =>
      let xr := MState (prev x) (rest x) (drop_caps gs (caps x)) in
      let d := fun y =>
        if Nat.eqb min 0 && Nat.eqb (length (rest y)) (length (rest x))
        then []
        else repeat_match body gs greedy f (Nat.pred min)
                          (option_map Nat.pred max) y in
      let iter := flat_map d (body xr) in
      if Nat.eqb min 0
      then (if greedy then iter ++ [x] else x :: iter)
      else iter
    end
  end.

Fixpoint rmatch (i : bool) (r : regex) (x : mstate) : list mstate :=
  match r with
  | REmpty => [x]
  | RChar p => step x (char_eq i p)
  | RAny => step x (fun c => negb (is_line_terminator c))
  | RClass neg items => step x (fun c => xorb neg (class_mem i items c))
  | RSeq a b => flat_map (rmatch i b) (rmatch i a x)
  | RAlt a b => rmatch i a x ++ rmatch i b x
  | RRepeat min max greedy a =>
    repeat_match (rmatch i a) (groups_in a) greedy
                 (S (min + length (rest x))) min max x
  | RGroup n a =>
    map (fun y => MState (prev y) (rest y) (set_cap n (consumed x y) (caps y)))
        (rmatch i a x)
  | RLook neg a =>
    match rmatch i a x with
    | [] => if neg then [x] else []
    | y :: _ => if neg then [] else [MState (prev x) (rest x) (caps y)]
    end
  | RBol => match prev x with None => [x] | Some _ => [] end
  | REol => match rest x with [] => [x] | _ :: _ => [] end
  | RWordB neg =>
    if xorb neg (xorb (word_at (prev x)) (word_at (hd_error (rest x))))
    then [x] else []
  end.

(** ** The methods of [RegExp] and [String] that take a pattern *)

Record jsmatch := JSMatch {
  matched : jsstring;                (* match[0] *)
  captures : list (nat * jsstring)   (* match[n], absent when undefined *)
}.

Definition group (n : nat) (m : jsmatch) : option jsstring := get_cap n (captures m).

Definition exec_at (i : bool) (r : regex) (p : option char) (s : jsstring)
  : option jsmatch :=
  match rmatch i r (MState p s []) with
  | y :: _ => Some (JSMatch (firstn (length s - length (rest y)) s) (caps y))
  | [] => None
  end.

(** [s.match(r)] without the [g] flag: the leftmost match. *)
Fixpoint search_from (i : bool) (r : regex) (p : option char) (s : jsstring)
  : option jsmatch :=
  match exec_at i r p s with
  | Some m => Some m
  | None =>
    match s with
    | [] => None
    | c :: t => search_from i r (Some c) t
    end
  end.

Definition search (i : bool) (r : regex) (s : jsstring) : option jsmatch :=
  search_from i r None s.

(** [r.test(s)] on a fresh pattern object. *)
Definition test (i : bool) (r : regex) (s : jsstring) : bool :=
  match search i r s with Some _ => true | None => false end.

(** [s.matchAll(r)] and [s.match(r)] with the [g] flag: successive matches,
    each search resuming where the previous match ended, one unit further
    after an empty match.  [skip] counts the units still inside the
    previous match. *)
Fixpoint match_all_from (i : bool) (r : regex) (p : option char)
    (s : jsstring) (skip : nat) : list jsmatch :=
  match skip with
  | S k =>
    match s with
    | [] => []
    | c :: t => match_all_from i r (Some c) t k
    end
  | O =>
    match exec_at i r p s with
    | Some m =>
      m :: match s with
           | [] => []
           | c :: t => match_all_from i r (Some c) t (Nat.pred (length (matched m)))
           end
    | None =>
      match s with
      | [] => []
      | c :: t => match_all_from i r (Some c) t 0
      end
    end
  end.

Definition match_all (i : bool) (r : regex) (s : jsstring) : list jsmatch :=
  match_all_from i r None s 0.

(** [s.match(r)] with the [g] flag, [|| []] included: the matched texts. *)
Definition match_g (i : bool) (r : regex) (s : jsstring) : list jsstring :=
  map matched (match_all i r s).

(** [s.replace(r, '')] with the [g] flag. *)
Fixpoint remove_all_from (i : bool) (r : regex) (p : option char)
    (s : jsstring) (skip : nat) : jsstring :=
  match skip with
  | S k =>
    match s with
    | [] => []
    | c :: t => remove_all_from i r (Some c) t k
    end
  | O =>
    match exec_at i r p s with
    | Some m =>
      match length (matched m), s with
      | _, [] => []
      | O, c :: t => c :: remove_all_from i r (Some c) t 0
      | S k, c :: t => remove_all_from i r (Some c) t k
      end
    | None =>
      match s with
      | [] => []
      | c :: t => c :: remove_all_from i r (Some c) t 0
      end
    end
  end.

Definition remove_all (i : bool) (r : regex) (s : jsstring) : jsstring :=
  remove_all_from i r None s 0.

(** ** Outcomes

    A JavaScript computation returns a value or throws.  [Unmodelled]
    marks pattern syntax that [read_pattern] does not interpret, so that
    it is never mistaken for either; the constructor [RegExp] hands such
    text to the platform, and no analyzer ends in [Unmodelled]. *)

Inductive exn := SyntaxError | TypeError.

Inductive outcome (A : Type) :=
| Ok (a : A)
| Throw (e : exn)
| Unmodelled.
Arguments Throw {A} e.
Arguments Unmodelled {A}.

Definition bind {A B} (x : outcome A) (f : A -> outcome B) : outcome B :=
  match x with
  | Ok a => f a
  | Throw e => Throw e
  | Unmodelled => Unmodelled
  end.

Notation "x <- c1 ;; c2" := (bind c1 (fun x => c2))
  (at level 61, c1 at next level, right associativity).
Notation "' pat <- c1 ;; c2" :=
  (bind c1 (fun x => match x with pat => c2 end))
  (at level 61, pat pattern, c1 at next level, right associativity).

(** ** Compiling pattern text

    [read_pattern] reads the pattern syntax of ECMAScript without the [u]
    flag.  A pattern the constructor rejects throws [SyntaxError].  Syntax
    that this development does not interpret (back references, named
    groups, lookbehind, numeric, control, hexadecimal and Unicode escapes,
    repeated lookaheads, non-ASCII pattern characters) is [Unmodelled]; no
    pattern written in the source uses any of it, but the text of a page
    that is pasted into a pattern can. *)

Definition ch (a : ascii) : char := N_of_ascii a.
Arguments ch a%_char.

Definition is_ch (a : ascii) (c : char) : bool := (c =? N_of_ascii a)%N.
Arguments is_ch a%_char c.

Inductive escaped :=
| EChar (c : char)
| ESet (it : class_item)
| EBoundary (neg : bool).

Definition escape (in_class : bool) (e : char) : outcome escaped :=
  if is_ch "d" e then Ok (ESet (CDigit false))
  else if is_ch "D" e then Ok (ESet (CDigit true))
  else if is_ch "s" e then Ok (ESet (CSpace false))
  else if is_ch "S" e then Ok (ESet (CSpace true))
  else if is_ch "w" e then Ok (ESet (CWord false))
  else if is_ch "W" e then Ok (ESet (CWord true))
  else if is_ch "b" e then Ok (if in_class then EChar 8%N else EBoundary false)
  else if is_ch "B" e then (if in_class then Unmodelled else Ok (EBoundary true))
  else if is_ch "t" e then Ok (EChar 9%N)
  else if is_ch "n" e then Ok (EChar 10%N)
  else if is_ch "v" e then Ok (EChar 11%N)
  else if is_ch "f" e then Ok (EChar 12%N)
  else if is_ch "r" e then Ok (EChar 13%N)
  else if is_digit e || is_ch "c" e || is_ch "x" e || is_ch "u" e
          || is_ch "k" e || (128 <=? e)%N
  then Unmodelled
  else Ok (EChar e).

Definition class_atom (s : jsstring) : outcome (escaped * jsstring) :=
  match s with
  | [] => Throw SyntaxError
  | c :: t =>
    if is_ch "\" c then
      match t with
      | [] => Throw SyntaxError
      | e :: t' => a <- escape true e ;; Ok (a, t')
      end
    else if (128 <=? c)%N then Unmodelled
    else Ok (EChar c, t)
  end.

Definition atom_item (a : escaped) : class_item :=
  match a with
  | EChar c => CChar c
  | ESet it => it
  | EBoundary _ => CChar 8%N
  end.

(** The text after [[] or [[^], up to and including the closing bracket. *)
Fixpoint class_items (fuel : nat) (s : jsstring)
  : outcome (list class_item * jsstring) :=
  match fuel with
  | O => Unmodelled
  | S f =>
    match s with
    | [] => Throw SyntaxError
    | c :: t =>
      if is_ch "]" c then Ok ([], t)
      else
        '(a, s1) <- class_atom s ;;
        let single :=
          '(items, s') <- class_items f s1 ;; Ok (atom_item a :: items, s') in
        match s1 with
        | d :: s2 =>
          if is_ch "-" d && negb (starts_with [ch "]"] s2) then
            '(b, s3) <- class_atom s2 ;;
            match a, b with
            | EChar lo, EChar hi =>
              if (hi <? lo)%N then Throw SyntaxError
              else '(items, s') <- class_items f s3 ;;
                   Ok (CRange lo hi :: items, s')
            | _, _ => Unmodelled
            end
          else single
        | [] => single
        end
    end
  end.

(** The text after an opening brace, when it spells a quantifier. *)
Definition braced (s : jsstring) : option (nat * option nat * jsstring) :=
  let d1 := take_digits s in
  match d1 with
  | [] => None
  | _ =>
    let n := N.to_nat (parseInt d1) in
    match skipn (length d1) s with
    | c :: t =>
      if is_ch "}" c then Some (n, Some n, t)
      else if is_ch "," c then
        let d2 := take_digits t in
        match skipn (length d2) t with
        | c' :: t' =>
          if is_ch "}" c' then
            Some (n, match d2 with
                     | [] => None
                     | _ => Some (N.to_nat (parseInt d2))
                     end, t')
          else None
        | [] => None
        end
      else None
    | [] => None
    end
  end.

Definition lazy_mark (s : jsstring) : bool * jsstring :=
  match s with
  | c :: t => if is_ch "?" c then (false, t) else (true, s)
  | [] => (true, s)
  end.

Definition quantifier (s : jsstring)
  : outcome (option (nat * option nat * bool) * jsstring) :=
  match s with
  | c :: t =>
    if is_ch "*" c then
      let (g, t') := lazy_mark t in Ok (Some (0, None, g), t')
    else if is_ch "+" c then
      let (g, t') := lazy_mark t in Ok (Some (1, None, g), t')
    else if is_ch "?" c then
      let (g, t') := lazy_mark t in Ok (Some (0, Some 1, g), t')
    else if is_ch "{" c then
      match braced t with
      | Some (n, m, t') =>
        match m with
        | Some k => if k <? n then Throw SyntaxError
                    else let (g, t2) := lazy_mark t' in Ok (Some (n, m, g), t2)
        | None => let (g, t2) := lazy_mark t' in Ok (Some (n, m, g), t2)
        end
      | None => Ok (None, s)
      end
    else Ok (None, s)
  | [] => Ok (None, s)
  end.

Inductive atom_kind := Plain | Assertion | Lookahead.

Definition mk_seq (a b : regex) : regex :=
  match b with
  | REmpty => a
  | _ => RSeq a b
  end.

Definition apply_quantifier (k : atom_kind) (a : regex)
    (q : option (nat * option nat * bool)) : outcome regex :=
  match q, k with
  | None, _ => Ok a
  | Some (n, m, g), Plain => Ok (RRepeat n m g a)
  | Some _, Assertion => Throw SyntaxError
  | Some _, Lookahead => Unmodelled
  end.

(** A disjunction and a sequence of terms, each with the number of the
    next capture group and the text left over. *)
Fixpoint parse_disj (fuel : nat) (n : nat) (s : jsstring)
  : outcome (regex * nat * jsstring) :=
  match fuel with
  | O => Unmodelled
  | S f =>
    '(a, n1, s1) <- parse_seq f n s ;;
    match s1 with
    | c :: s2 =>
      if is_ch "|" c then
        '(b, n2, s3) <- parse_disj f n1 s2 ;; Ok (RAlt a b, n2, s3)
      else Ok (a, n1, s1)
    | [] => Ok (a, n1, s1)
    end
  end
with parse_seq (fuel : nat) (n : nat) (s : jsstring)
  : outcome (regex * nat * jsstring) :=
  match fuel with
  | O => Unmodelled
  | S f =>
    match s with
    | [] => Ok (REmpty, n, [])
    | c :: t =>
      if is_ch "|" c || is_ch ")" c then Ok (REmpty, n, s)
      else
        let closing (k : atom_kind) (wrap : regex -> regex) (n0 : nat)
                    (body : jsstring) :=
          '(r, n1, s1) <- parse_disj f n0 body ;;
          match s1 with
          | c1 :: s2 => if is_ch ")" c1 then Ok (k, wrap r, n1, s2)
                        else Throw SyntaxError
          | [] => Throw SyntaxError
          end in
        '(k, a, n1, s1) <-
          (if is_ch "." c then Ok (Plain, RAny, n, t)
           else if is_ch "^" c then Ok (Assertion, RBol, n, t)
           else if is_ch "$" c then Ok (Assertion, REol, n, t)
           else if is_ch "*" c || is_ch "+" c || is_ch "?" c then Throw SyntaxError
           else if is_ch "{" c then
             match braced t with
             | Some _ => Throw SyntaxError
             | None => Ok (Plain, RChar c, n, t)
             end
           else if is_ch "[" c then
             match t with
             | c1 :: t1 =>
               if is_ch "^" c1 then
                 '(items, s') <- class_items (S (length t1)) t1 ;;
                 Ok (Plain, RClass true items, n, s')
               else
                 '(items, s') <- class_items (S (length t)) t ;;
                 Ok (Plain, RClass false items, n, s')
             | [] => Throw SyntaxError
             end
           else if is_ch "\" c then
             match t with
             | [] => Throw SyntaxError
             | e :: t1 =>
               a <- escape false e ;;
               match a with
               | EChar c1 => Ok (Plain, RChar c1, n, t1)
               | ESet it => Ok (Plain, RClass false [it], n, t1)
               | EBoundary neg => Ok (Assertion, RWordB neg, n, t1)
               end
             end
           else if is_ch "(" c then
             match t with
             | q :: t1 =>
               if is_ch "?" q then
                 match t1 with
                 | m :: t2 =>
                   if is_ch ":" m then closing Plain (fun r => r) n t2
                   else if is_ch "=" m then closing Lookahead (RLook false) n t2
                   else if is_ch "!" m then closing Lookahead (RLook true) n t2
                   else if is_ch "<" m then Unmodelled
                   else Throw SyntaxError
                 | [] => Throw SyntaxError
                 end
               else closing Plain (RGroup n) (S n) t
             | [] => Throw SyntaxError
             end
           else if (128 <=? c)%N then Unmodelled
           else Ok (Plain, RChar c, n, t)) ;;
        '(q, s2) <- quantifier s1 ;;
        term <- apply_quantifier k a q ;;
        '(tl, n2, s3) <- parse_seq f n1 s2 ;;
        Ok (mk_seq term tl, n2, s3)
    end
  end.

(** The whole of a pattern text. *)
Definition read_pattern (src : jsstring) : outcome regex :=
  '(r, _, s) <- parse_disj (2 * length src + 3) 1 src ;;
  match s with
  | [] => Ok r
  | _ :: _ => Throw SyntaxError
  end.

(** A pattern literal of the source.  Every use below is evaluated where
    it is defined, so that the definition is the compiled pattern. *)
Definition rx (s : string) : regex :=
  match read_pattern (js s) with
  | Ok r => r
  | _ => RClass false []
  end.
Arguments rx s%_string.

(** ** The platform

    Two constructors are called on text that comes from the page:
    [new RegExp(text, 'i')] and [new URL(text)].  Where this development
    does not interpret the text, the platform decides.  Nothing is assumed
    about it: every property below holds whatever these functions are. *)
Record Platform := {
  (* [new RegExp(src, flags)] on pattern text that [read_pattern] does not
     interpret, by the [i] flag: [None] when the constructor throws
     [SyntaxError], otherwise what the [test] method of the pattern
     object computes. *)
  native_RegExp : jsstring -> bool -> option (jsstring -> bool);
  (* [new URL(input).hostname] on a text that begins with a scheme:
     [None] when the constructor throws [TypeError]. *)
  native_hostname : jsstring -> option jsstring
}.

(** A pattern object; the source calls its [test] method only. *)
Record RegExpObject := { pattern_test : jsstring -> bool }.

(** [new RegExp(src, flags)], where [flags] is empty or ['i']. *)
Definition RegExp (P : Platform) (src : jsstring) (ignoreCase : bool)
  : outcome RegExpObject :=
  match read_pattern src with
  | Ok r => Ok {| pattern_test := test ignoreCase r |}
  | Throw e => Throw e
  | Unmodelled =>
    match native_RegExp P src ignoreCase with
    | Some t => Ok {| pattern_test := t |}
    | None => Throw SyntaxError
    end
  end.

(** [new URL(input).hostname] without a base URL.  The parser starts by
    trimming C0 controls and spaces, dropping tabs and newlines, and
    reading a scheme: an ASCII letter, then letters, digits, [+], [-] or
    [.], then a colon.  Without one the constructor throws [TypeError].
    What follows a scheme is not interpreted here: the platform says
    whether the constructor throws, and which host name it reads. *)
Definition is_c0_or_space (c : char) : bool := (c <=? 32)%N.
Definition is_tab_or_newline (c : char) : bool :=
  (c =? 9)%N || (c =? 10)%N || (c =? 13)%N.
Definition is_alpha (c : char) : bool := is_upper c || is_lower c.

Fixpoint drop_while (p : char -> bool) (s : jsstring) : jsstring :=
  match s with
  | c :: t => if p c then drop_while p t else s
  | [] => []
  end.

Fixpoint scheme_tail (s : jsstring) : bool :=
  match s with
  | c :: t =>
    if is_ch ":" c then true
    else if is_alpha c || is_digit c || is_ch "+" c || is_ch "-" c || is_ch "." c
    then scheme_tail t
    else false
  | [] => false
  end.

Definition has_scheme (input : jsstring) : bool :=
  let s := filter (fun c => negb (is_tab_or_newline c))
                  (rev (drop_while is_c0_or_space
                          (rev (drop_while is_c0_or_space input)))) in
  match s with
  | c :: t => is_alpha c && scheme_tail t
  | [] => false
  end.

Definition URL_hostname (P : Platform) (input : jsstring) : outcome jsstring :=
  if has_scheme input then
    match native_hostname P input with
    | Some hostname => Ok hostname
    | None => Throw TypeError
    end
  else Throw TypeError.

Definition truthy (o : option jsstring) : bool :=
  match o with
  | Some (_ :: _) => true
  | _ => false
  end.

(** A capture group that takes part in every match of its pattern. *)
Definition the_group (n : nat) (m : jsmatch) : jsstring :=
  match group n m with
  | Some v => v
  | None => []
  end.

(* ================================================================== *)
(** * Data model *)
(* ================================================================== *)

Record ScriptRef := {
  script_src : option jsstring;
  isInline : bool;
  isAsync : bool;
  isDefer : bool;
  isModule : bool
}.

Record StylesheetRef := {
  href : jsstring;
  isPreload : bool
}.

(** Fields the source fills with [x && test] hold [null] or a boolean and
    are only read for their truth value; they are booleans here. *)
Record ImageRef := {
  image_src : option jsstring;
  hasAlt : bool;
  altText : option jsstring;
  hasEmptyAlt : bool;
  hasDimensions : bool;
  width : option N;
  height : option N;
  hasLazyLoading : bool;
  hasSrcset : bool;
  isWebP : bool;
  isAvif : bool;
  isModernFormat : bool
}.

Record IframeRef := {
  iframe_src : option jsstring;
  iframe_hasLazyLoading : bool
}.

Record Resources := {
  scripts : list ScriptRef;
  stylesheets : list StylesheetRef;
  images : list ImageRef;
  fonts : list jsstring;
  iframes : list IframeRef
}.

(** A finding is an object literal with a [message] and either a [type]
    or a [severity] key. *)
Record Finding := {
  finding_type : option string;
  severity : option string;
  message : jsstring
}.

Definition success (msg : jsstring) : Finding :=
  {| finding_type := Some "success"%string; severity := None; message := msg |}.
Definition critical (msg : jsstring) : Finding :=
  {| finding_type := None; severity := Some "critical"%string; message := msg |}.
Definition warning (msg : jsstring) : Finding :=
  {| finding_type := None; severity := Some "warning"%string; message := msg |}.
Definition info (msg : jsstring) : Finding :=
  {| finding_type := None; severity := Some "info"%string; message := msg |}.

(** ** The running state of an analyzer

    Every analyzer starts with [score = 100] and two empty arrays,
    [details] and [issues], and then runs a fixed sequence of statements
    [score -= n], [details.push(f)] and [issues.push(f)].  An analyzer is
    written below as the list of the statements it executes, in execution
    order; [run] executes them on the three variables. *)

Inductive effect :=
| Deduct (n : Z)
| PushDetail (f : Finding)
| PushIssue (f : Finding).

Record locals := {
  l_score : Z;
  l_details : list Finding;
  l_issues : list Finding
}.

Definition exec (l : locals) (e : effect) : locals :=
  match e with
  | Deduct n => {| l_score := l_score l - n; l_details := l_details l;
                   l_issues := l_issues l |}
  | PushDetail f => {| l_score := l_score l; l_details := l_details l ++ [f];
                       l_issues := l_issues l |}
  | PushIssue f => {| l_score := l_score l; l_details := l_details l;
                      l_issues := l_issues l ++ [f] |}
  end.

Definition run (es : list effect) : locals :=
  fold_left exec es {| l_score := 100; l_details := []; l_issues := [] |}.

Record DimensionResult (M : Type) := {
  score : Z;
  details : list Finding;
  metrics : M
}.
Arguments score {M} _.
Arguments details {M} _.
Arguments metrics {M} _.

(** The [return] statement shared by the five analyzers. *)
Definition finish {M} (es : list effect) (m : M) : DimensionResult M :=
  let l := run es in
  {| score := Z.max 0 (Z.min 100 (l_score l));
     details := l_details l ++ l_issues l;
     metrics := m |}.

(** Numbers are integers throughout the analyzers: lengths, counts and
    the score. *)
Local Open Scope Z_scope.

Definition size {A} (l : list A) : Z := Z.of_nat (length l).
Definition count {A} (p : A -> bool) (l : list A) : Z := size (filter p l).

(** [Math.round(n / 1024)] for a length [n]. *)
Definition round_kb (n : Z) : Z := (n + 512) / 1024.

(* ================================================================== *)
(** * Resource extractor *)
(* ================================================================== *)

Definition re_script := Eval vm_compute in
  rx "<script[^>]*(?:src=[`']([^`']+)[`'])?[^>]*>".
Definition re_async := Eval vm_compute in rx "async".
Definition re_defer := Eval vm_compute in rx "defer".
Definition re_type_module := Eval vm_compute in rx "type=[`']module[`']".
Definition re_link_stylesheet := Eval vm_compute in
  rx "<link[^>]*rel=[`']stylesheet[`'][^>]*href=[`']([^`']+)[`'][^>]*>".
Definition re_rel_preload := Eval vm_compute in rx "rel=[`']preload[`']".
Definition re_img := Eval vm_compute in rx "<img[^>]*>".
Definition re_src := Eval vm_compute in rx "src=[`']([^`']+)[`']".
Definition re_alt_value := Eval vm_compute in rx "alt=[`']([^`']*)[`']".
Definition re_width := Eval vm_compute in rx "width=[`']?(\d+)".
Definition re_height := Eval vm_compute in rx "height=[`']?(\d+)".
Definition re_loading := Eval vm_compute in rx "loading=[`']([^`']+)[`']".
Definition re_srcset := Eval vm_compute in rx "srcset=".
Definition re_webp := Eval vm_compute in rx "\.webp".
Definition re_avif := Eval vm_compute in rx "\.avif".
Definition re_modern := Eval vm_compute in rx "\.(webp|avif)".
Definition re_iframe := Eval vm_compute in rx "<iframe[^>]*>".
Definition re_loading_lazy := Eval vm_compute in rx "loading=[`']lazy[`']".

Definition script_of (m : jsmatch) : ScriptRef :=
  {| script_src := if truthy (group 1 m) then group 1 m else None;
     isInline := negb (truthy (group 1 m));
     isAsync := test true re_async (matched m);
     isDefer := test true re_defer (matched m);
     isModule := test true re_type_module (matched m) |}.

Definition stylesheet_of (m : jsmatch) : StylesheetRef :=
  {| href := the_group 1 m;
     isPreload := test true re_rel_preload (matched m) |}.

Definition image_of (m : jsmatch) : ImageRef :=
  let tag := matched m in
  let srcMatch := search true re_src tag in
  let altMatch := search true re_alt_value tag in
  let widthMatch := search true re_width tag in
  let heightMatch := search true re_height tag in
  let loadingMatch := search true re_loading tag in
  let on_src (r : regex) :=
    match srcMatch with
    | Some sm => test true r (the_group 1 sm)
    | None => false
    end in
  {| image_src := option_map (the_group 1) srcMatch;
     hasAlt := match altMatch with Some _ => true | None => false end;
     altText := option_map (the_group 1) altMatch;
     hasEmptyAlt := match altMatch with
                    | Some am => jsstring_eqb (the_group 1 am) []
                    | None => false
                    end;
     hasDimensions := match widthMatch, heightMatch with
                      | Some _, Some _ => true
                      | _, _ => false
                      end;
     width := option_map (fun wm => parseInt (the_group 1 wm)) widthMatch;
     height := option_map (fun hm => parseInt (the_group 1 hm)) heightMatch;
     hasLazyLoading := match loadingMatch with
                       | Some lm => jsstring_eqb (the_group 1 lm) (js "lazy")
                       | None => false
                       end;
     hasSrcset := test true re_srcset tag;
     isWebP := on_src re_webp;
     isAvif := on_src re_avif;
     isModernFormat := on_src re_modern |}.

Definition iframe_of (m : jsmatch) : IframeRef :=
  {| iframe_src := option_map (the_group 1) (search true re_src (matched m));
     iframe_hasLazyLoading := test true re_loading_lazy (matched m) |}.

(** [extractResources(html, baseUrl)]; [baseUrl] is never read. *)
Definition extractResources (html : jsstring) : Resources :=
  {| scripts := map script_of (match_all true re_script html);
     stylesheets := map stylesheet_of (match_all true re_link_stylesheet html);
     images := map image_of (match_all true re_img html);
     fonts := [];
     iframes := map iframe_of (match_all true re_iframe html) |}.

(* ================================================================== *)
(** * Performance analyzer *)
(* ================================================================== *)

Definition re_style_open := Eval vm_compute in rx "<style[^>]*>".
Definition re_style_block := Eval vm_compute in rx "<style[^>]*>([\s\S]*?)<\/style>".
Definition re_critical_css := Eval vm_compute in
  rx "<style[^>]*>[\s\S]*?(body|html|header|nav|hero|main)".
Definition re_preconnect := Eval vm_compute in rx "<link[^>]*rel=[`']preconnect[`']".
Definition re_dns_prefetch := Eval vm_compute in rx "<link[^>]*rel=[`']dns-prefetch[`']".

Definition estimateInlineCSS (html : jsstring) : Z :=
  fold_left (fun total m => total + size m) (match_g true re_style_block html) 0.

Record PerformanceMetrics := {
  pm_responseTime : Z;
  pm_htmlSize : Z;
  pm_totalScripts : Z;
  pm_blockingScripts : Z;
  pm_totalStylesheets : Z;
  pm_totalImages : Z
}.

(** TTFB / Response Time Analysis.  [responseTime] is a difference of two
    [Date.now()] readings, an integer. *)
Definition perf_response_time (responseTime : Z) : list effect :=
  if 3000 <? responseTime then
    [Deduct 25;
     PushIssue (critical (js "Veldig treg server-respons: " ++ of_Z responseTime
                          ++ js "ms (bør være under 600ms)"))]
  else if 1500 <? responseTime then
    [Deduct 15;
     PushIssue (warning (js "Treg server-respons: " ++ of_Z responseTime
                         ++ js "ms (bør være under 600ms)"))]
  else if 600 <? responseTime then
    [Deduct 8;
     PushIssue (info (js "Server-respons kan forbedres: " ++ of_Z responseTime
                      ++ js "ms"))]
  else
    [PushDetail (success (js "Rask server-respons: " ++ of_Z responseTime ++ js "ms"))].

(** HTML Document Size *)
Definition perf_html_size (html : jsstring) : list effect :=
  let htmlSize := size html in
  let htmlSizeKB := round_kb htmlSize in
  if 500000 <? htmlSize then
    [Deduct 15;
     PushIssue (critical (js "HTML-dokumentet er for stort: " ++ of_Z htmlSizeKB
                          ++ js "KB (bør være under 100KB)"))]
  else if 200000 <? htmlSize then
    [Deduct 10;
     PushIssue (warning (js "HTML-dokumentet er stort: " ++ of_Z htmlSizeKB ++ js "KB"))]
  else if 100000 <? htmlSize then
    [Deduct 5;
     PushIssue (info (js "HTML-dokumentet er litt stort: " ++ of_Z htmlSizeKB
                      ++ js "KB"))]
  else [].

(** JavaScript Analysis *)
Definition is_blocking (s : ScriptRef) : bool :=
  negb (isInline s) && negb (isAsync s) && negb (isDefer s).

Definition blockingScripts (resources : Resources) : Z :=
  count is_blocking (scripts resources).

Definition perf_blocking_scripts (resources : Resources) : list effect :=
  let n := blockingScripts resources in
  if 5 <? n then
    [Deduct 12;
     PushIssue (critical (of_Z n ++ js " render-blokkerende scripts (bruk async/defer)"))]
  else if 2 <? n then
    [Deduct 6; PushIssue (warning (of_Z n ++ js " render-blokkerende scripts"))]
  else [].

Definition perf_total_scripts (resources : Resources) : list effect :=
  let totalScripts := size (scripts resources) in
  if 25 <? totalScripts then
    [Deduct 8;
     PushIssue (warning (js "For mange scripts: " ++ of_Z totalScripts
                         ++ js " (bør konsolideres)"))]
  else if 15 <? totalScripts then
    [Deduct 4; PushIssue (info (js "Mange scripts: " ++ of_Z totalScripts))]
  else [].

(** CSS Analysis *)
Definition perf_css (html : jsstring) (resources : Resources) : list effect :=
  let externalStylesheets := size (stylesheets resources) in
  let inlineCSSSize := estimateInlineCSS html in
  (if 8 <? externalStylesheets then
     [Deduct 8;
      PushIssue (warning (js "For mange CSS-filer: " ++ of_Z externalStylesheets
                          ++ js " (bør kombineres)"))]
   else if 4 <? externalStylesheets then
     [Deduct 4; PushIssue (info (js "Flere CSS-filer: " ++ of_Z externalStylesheets))]
   else [])
  ++
  (if 50000 <? inlineCSSSize then
     [Deduct 7;
      PushIssue (warning (js "Mye inline CSS (" ++ of_Z (round_kb inlineCSSSize)
                          ++ js "KB) - bør flyttes til eksterne filer"))]
   else []).

(** Image Optimization.  [images.indexOf(i)] is the position of [i]: the
    extractor builds one object for each tag. *)
Definition indexed {A} (l : list A) : list (Z * A) :=
  combine (map Z.of_nat (seq 0 (length l))) l.

Definition perf_images (resources : Resources) : list effect :=
  let images := images resources in
  let imagesWithoutDimensions := count (fun i => negb (hasDimensions i)) images in
  let imagesWithoutLazyLoad :=
    count (fun p => negb (hasLazyLoading (snd p)) && (2 <? fst p)) (indexed images) in
  let imagesWithoutModernFormat :=
    count (fun i => truthy (image_src i) && negb (isModernFormat i)) images in
  let imagesWithoutSrcset := count (fun i => negb (hasSrcset i)) images in
  if 0 <? size images then
    (if 3 <? imagesWithoutDimensions then
       [Deduct 6;
        PushIssue (warning (of_Z imagesWithoutDimensions
                            ++ js " bilder mangler width/height (forårsaker layout shift)"))]
     else [])
    ++
    (if 5 <? imagesWithoutLazyLoad then
       [Deduct 5;
        PushIssue (warning (of_Z imagesWithoutLazyLoad
                            ++ js " bilder under fold mangler lazy loading"))]
     else [])
    ++
    (if (5 <? imagesWithoutModernFormat) && (3 <? size images) then
       [Deduct 5;
        PushIssue (info (of_Z imagesWithoutModernFormat
                         ++ js " bilder bruker ikke moderne formater (WebP/AVIF)"))]
     else [])
    ++
    (if (5 <? imagesWithoutSrcset) && (3 <? size images) then
       [Deduct 4;
        PushIssue (info (of_Z imagesWithoutSrcset
                         ++ js " bilder mangler responsive srcset"))]
     else [])
  else [].

(** Critical Rendering Path *)
Definition perf_rendering_path (html : jsstring) (resources : Resources) : list effect :=
  let hasCriticalCSS := test true re_critical_css html in
  let hasPreconnect := test true re_preconnect html in
  let hasDNSPrefetch := test true re_dns_prefetch html in
  (if negb hasCriticalCSS && (0 <? size (stylesheets resources)) then
     [Deduct 3;
      PushIssue (info (js "Mangler kritisk inline CSS for raskere first paint"))]
   else [])
  ++
  (if negb hasPreconnect && negb hasDNSPrefetch then
     [Deduct 2;
      PushIssue (info (js "Mangler preconnect/dns-prefetch for tredjepartsressurser"))]
   else []).

(** Third-party resources.  The callback reads [new URL(html).hostname]
    for each script that has a [src] not starting with a slash. *)
Definition is_third_party (P : Platform) (html : jsstring) (s : ScriptRef)
  : outcome bool :=
  match script_src s with
  | Some (c :: t) =>
    if starts_with (js "/") (c :: t) then Ok false
    else hostname <- URL_hostname P html ;; Ok (negb (includes (c :: t) hostname))
  | _ => Ok false
  end.

Fixpoint filterM {A} (p : A -> outcome bool) (l : list A) : outcome (list A) :=
  match l with
  | [] => Ok []
  | a :: t =>
    b <- p a ;;
    r <- filterM p t ;;
    Ok (if b then a :: r else r)
  end.

Definition perf_third_party (thirdPartyScripts : Z) : list effect :=
  if 10 <? thirdPartyScripts then
    [Deduct 5;
     PushIssue (warning (js "Mange tredjepartscripts: " ++ of_Z thirdPartyScripts
                         ++ js " (påvirker ytelse)"))]
  else [].

(** Iframes *)
Definition perf_iframes (resources : Resources) : list effect :=
  let iframesWithoutLazy :=
    count (fun i => negb (iframe_hasLazyLoading i)) (iframes resources) in
  if 0 <? iframesWithoutLazy then
    [Deduct 3;
     PushIssue (info (of_Z iframesWithoutLazy ++ js " iframes mangler lazy loading"))]
  else [].

Definition perf_effects (responseTime : Z) (html : jsstring)
    (resources : Resources) (thirdPartyScripts : Z) : list effect :=
  perf_response_time responseTime
  ++ perf_html_size html
  ++ perf_blocking_scripts resources
  ++ perf_total_scripts resources
  ++ perf_css html resources
  ++ perf_images resources
  ++ perf_rendering_path html resources
  ++ perf_third_party thirdPartyScripts
  ++ perf_iframes resources.

Definition analyzePerformance (P : Platform) (responseTime : Z) (html : jsstring)
    (resources : Resources) : outcome (DimensionResult PerformanceMetrics) :=
  thirdParty <- filterM (is_third_party P html) (scripts resources) ;;
  Ok (finish (perf_effects responseTime html resources (size thirdParty))
        {| pm_responseTime := responseTime;
           pm_htmlSize := round_kb (size html);
           pm_totalScripts := size (scripts resources);
           pm_blockingScripts := blockingScripts resources;
           pm_totalStylesheets :=
             size (stylesheets resources) + size (match_g true re_style_open html);
           pm_totalImages := size (images resources) |}).

(* ================================================================== *)
(** * SEO analyzer *)
(* ================================================================== *)

Definition re_title := Eval vm_compute in rx "<title[^>]*>([\s\S]*?)<\/title>".
Definition re_description := Eval vm_compute in
  rx "<meta[^>]*name=[`']description[`'][^>]*content=[`']([^`']*)[`']".
Definition re_description_rev := Eval vm_compute in
  rx "<meta[^>]*content=[`']([^`']*)[`'][^>]*name=[`']description[`']".
Definition re_h1_block := Eval vm_compute in rx "<h1[^>]*>([\s\S]*?)<\/h1>".
Definition re_h2 := Eval vm_compute in rx "<h2[^>]*>".
Definition re_canonical := Eval vm_compute in
  rx "<link[^>]*rel=[`']canonical[`'][^>]*href=[`']([^`']+)[`']".
Definition re_og_title := Eval vm_compute in rx "<meta[^>]*property=[`']og:title[`']".
Definition re_og_description := Eval vm_compute in
  rx "<meta[^>]*property=[`']og:description[`']".
Definition re_og_image := Eval vm_compute in rx "<meta[^>]*property=[`']og:image[`']".
Definition re_og_url := Eval vm_compute in rx "<meta[^>]*property=[`']og:url[`']".
Definition re_twitter_card := Eval vm_compute in rx "<meta[^>]*name=[`']twitter:card[`']".
Definition re_alt := Eval vm_compute in rx "alt=".
Definition re_json_ld := Eval vm_compute in
  rx "<script[^>]*type=[`']application\/ld\+json[`']".
Definition re_microdata := Eval vm_compute in rx "itemscope|itemtype".
Definition re_html_lang := Eval vm_compute in rx "<html[^>]*lang=[`'][^`']+[`']".
Definition re_robots := Eval vm_compute in
  rx "<meta[^>]*name=[`']robots[`'][^>]*content=[`']([^`']+)[`']".
Definition re_noindex := Eval vm_compute in rx "noindex".
Definition re_internal_link := Eval vm_compute in rx "<a[^>]*href=[`']\/[^`']*[`']".

Record SEOMetrics := {
  sm_titleLength : Z;
  sm_descriptionLength : Z;
  sm_h1Count : Z;
  sm_h2Count : Z;
  sm_imagesWithoutAlt : Z;
  sm_hasStructuredData : bool;
  sm_hasOpenGraph : bool
}.

Definition is_some {A} (o : option A) : bool :=
  match o with Some _ => true | None => false end.

(** Title Tag *)
Definition seo_title (html : jsstring) : list effect :=
  match search true re_title html with
  | None => [Deduct 15; PushIssue (critical (js "Mangler title-tag"))]
  | Some titleMatch =>
    let title := trim (the_group 1 titleMatch) in
    (if size title <? 10 then
       [Deduct 10;
        PushIssue (warning (js "Title er for kort: " ++ of_Z (size title)
                            ++ js " tegn (anbefalt 50-60)"))]
     else if 70 <? size title then
       [Deduct 5;
        PushIssue (warning (js "Title er for lang: " ++ of_Z (size title)
                            ++ js " tegn (anbefalt 50-60)"))]
     else if (50 <=? size title) && (size title <=? 60) then
       [PushDetail (success (js "Optimal title-lengde: " ++ of_Z (size title)
                             ++ js " tegn"))]
     else [])
    ++
    (if negb (includes title (js "|")) && negb (includes title (js "-"))
        && negb (includes title (js "–"))
     then [PushIssue (info (js "Title mangler tydelig struktur (keyword | brand)"))]
     else [])
  end.

(** Meta Description *)
Definition description_match (html : jsstring) : option jsmatch :=
  match search true re_description html with
  | Some m => Some m
  | None => search true re_description_rev html
  end.

Definition seo_description (html : jsstring) : list effect :=
  match description_match html with
  | None => [Deduct 12; PushIssue (critical (js "Mangler meta description"))]
  | Some descMatch =>
    let desc := the_group 1 descMatch in
    if size desc <? 70 then
      [Deduct 6;
       PushIssue (warning (js "Meta description er for kort: " ++ of_Z (size desc)
                           ++ js " tegn (anbefalt 150-160)"))]
    else if 160 <? size desc then
      [Deduct 3;
       PushIssue (info (js "Meta description er litt lang: " ++ of_Z (size desc)
                        ++ js " tegn (kan bli avkortet)"))]
    else if (140 <=? size desc) && (size desc <=? 160) then
      [PushDetail (success (js "Optimal meta description: " ++ of_Z (size desc)
                            ++ js " tegn"))]
    else []
  end.

(** Heading Structure *)
Definition seo_headings (html : jsstring) : list effect :=
  let h1Matches := match_g true re_h1_block html in
  let h2Matches := match_g true re_h2 html in
  (if size h1Matches =? 0 then
     [Deduct 10; PushIssue (critical (js "Mangler H1-overskrift"))]
   else if 1 <? size h1Matches then
     [Deduct 5;
      PushIssue (warning (js "Flere H1-overskrifter: " ++ of_Z (size h1Matches)
                          ++ js " (bør kun ha én)"))]
   else [PushDetail (success (js "Korrekt bruk av H1-overskrift"))])
  ++
  (if (size h2Matches =? 0) && (5000 <? size html) then
     [Deduct 3; PushIssue (info (js "Mangler H2-overskrifter for struktur"))]
   else []).

(** Canonical URL *)
Definition seo_canonical (html : jsstring) : list effect :=
  match search true re_canonical html with
  | None => [Deduct 8; PushIssue (warning (js "Mangler canonical URL"))]
  | Some _ => [PushDetail (success (js "Canonical URL er definert"))]
  end.

(** Open Graph Tags *)
Definition ogScore (html : jsstring) : Z :=
  count (fun r => is_some (search true r html))
        [re_og_title; re_og_description; re_og_image; re_og_url].

Definition seo_open_graph (html : jsstring) : list effect :=
  if ogScore html =? 0 then
    [Deduct 8;
     PushIssue (warning (js "Mangler Open Graph-tags (påvirker deling på sosiale medier)"))]
  else if ogScore html <? 4 then
    [Deduct 4;
     PushIssue (info (js "Ufullstendige Open Graph-tags (" ++ of_Z (ogScore html)
                      ++ js "/4)"))]
  else [PushDetail (success (js "Komplett Open Graph-implementasjon"))].

(** Twitter Cards *)
Definition seo_twitter (html : jsstring) : list effect :=
  match search true re_twitter_card html with
  | None => [Deduct 4; PushIssue (info (js "Mangler Twitter Card-tags"))]
  | Some _ => []
  end.

(** Image Alt Texts *)
Definition imagesWithoutAlt (html : jsstring) : list jsstring :=
  filter (fun img => negb (test true re_alt img)) (match_g true re_img html).

Definition seo_images (html : jsstring) : list effect :=
  let n := size (imagesWithoutAlt html) in
  if 0 <? n then
    [Deduct (Z.min 10 (n * 2));
     PushIssue (warning (of_Z n ++ js " bilder mangler alt-tekst"))]
  else [].

(** Structured Data / Schema.org *)
Definition hasStructuredData (html : jsstring) : bool :=
  test true re_json_ld html || test true re_microdata html.

Definition seo_structured_data (html : jsstring) : list effect :=
  if negb (test true re_json_ld html) && negb (test true re_microdata html) then
    [Deduct 5; PushIssue (info (js "Mangler strukturert data (Schema.org)"))]
  else [PushDetail (success (js "Strukturert data er implementert"))].

(** Language Declaration *)
Definition seo_lang (html : jsstring) : list effect :=
  if negb (test true re_html_lang html) then
    [Deduct 3; PushIssue (info (js "Mangler språkdeklarasjon (lang-attributt)"))]
  else [].

(** Robots Meta (informational) *)
Definition seo_robots (html : jsstring) : list effect :=
  match search true re_robots html with
  | Some robotsMeta =>
    if test true re_noindex (the_group 1 robotsMeta) then
      [PushIssue (warning (js "Siden er satt til noindex (vil ikke indekseres)"))]
    else []
  | None => []
  end.

(** Internal Links *)
Definition seo_links (html : jsstring) : list effect :=
  let internalLinks := size (match_g true re_internal_link html) in
  if (internalLinks <? 3) && (5000 <? size html) then
    [Deduct 2; PushIssue (info (js "Få interne lenker (bør ha flere for bedre SEO)"))]
  else [].

Definition seo_effects (html : jsstring) : list effect :=
  seo_title html
  ++ seo_description html
  ++ seo_headings html
  ++ seo_canonical html
  ++ seo_open_graph html
  ++ seo_twitter html
  ++ seo_images html
  ++ seo_structured_data html
  ++ seo_lang html
  ++ seo_robots html
  ++ seo_links html.

(** [analyzeSEO(html, parsedUrl)]; [parsedUrl] is never read. *)
Definition analyzeSEO (html : jsstring) : DimensionResult SEOMetrics :=
  finish (seo_effects html)
    {| sm_titleLength := match search true re_title html with
                         | Some titleMatch => size (trim (the_group 1 titleMatch))
                         | None => 0
                         end;
       sm_descriptionLength := match description_match html with
                               | Some descMatch => size (the_group 1 descMatch)
                               | None => 0
                               end;
       sm_h1Count := size (match_g true re_h1_block html);
       sm_h2Count := size (match_g true re_h2 html);
       sm_imagesWithoutAlt := size (imagesWithoutAlt html);
       sm_hasStructuredData := hasStructuredData html;
       sm_hasOpenGraph := ogScore html =? 4 |}.

(* ================================================================== *)
(** * Security analyzer *)
(* ================================================================== *)

Definition re_max_age := Eval vm_compute in rx "max-age=(\d+)".
Definition re_include_subdomains := Eval vm_compute in rx "includeSubDomains".
Definition re_unsafe_inline := Eval vm_compute in rx "unsafe-inline".
Definition re_script_src := Eval vm_compute in rx "script-src".
Definition re_unsafe_eval := Eval vm_compute in rx "unsafe-eval".
Definition re_http_resource := Eval vm_compute in rx "http:\/\/(?!localhost)[^`'\s>]+".
Definition re_email := Eval vm_compute in
  rx "[a-zA-Z0-9._%+-]+@[a-zA-Z0-9.-]+\.[a-zA-Z]{2,}".
Definition re_form := Eval vm_compute in rx "<form[^>]*>".
Definition re_action_http := Eval vm_compute in rx "action=[`']http:\/\/".
Definition re_password_input := Eval vm_compute in
  rx "<input[^>]*type=[`']password[`'][^>]*>".
Definition re_autocomplete := Eval vm_compute in rx "autocomplete=".
Definition re_server_name := Eval vm_compute in rx "apache|nginx|iis".
Definition re_version := Eval vm_compute in rx "\d+\.\d+".

Record ParsedUrl := { protocol : jsstring }.

(** The response headers, as the pairs [forEach] visits, and the plain
    object the analyzer copies them into (latest assignment first). *)
Definition Headers := list (jsstring * jsstring).
Definition JSObject := list (jsstring * jsstring).

Definition set_property (o : JSObject) (key value : jsstring) : JSObject :=
  (key, value) :: o.

Definition get_property (o : JSObject) (key : jsstring) : option jsstring :=
  match find (fun p => jsstring_eqb (fst p) key) o with
  | Some p => Some (snd p)
  | None => None
  end.

Definition build_headerObj (headers : Headers) : JSObject :=
  fold_left (fun o kv => set_property o (toLowerCase (fst kv)) (snd kv)) headers [].

Definition header (headers : Headers) (name : string) : option jsstring :=
  get_property (build_headerObj headers) (js name).

Record SecurityMetrics := {
  sec_https : bool;
  sec_hsts : bool;
  sec_csp : bool;
  sec_xfo : bool;
  sec_xcto : bool
}.

Definition is_https (parsedUrl : ParsedUrl) : bool :=
  jsstring_eqb (protocol parsedUrl) (js "https:").

(** HTTPS *)
Definition sec_protocol (parsedUrl : ParsedUrl) : list effect :=
  if negb (is_https parsedUrl) then
    [Deduct 30; PushIssue (critical (js "Siden bruker ikke HTTPS"))]
  else [PushDetail (success (js "HTTPS er aktivert"))].

(** HTTP Strict Transport Security *)
Definition sec_hsts_rule (headers : Headers) : list effect :=
  let hsts := header headers "strict-transport-security" in
  match hsts with
  | Some (c :: t) =>
    let hsts := c :: t in
    (match search true re_max_age hsts with
     | Some maxAge =>
       if (parseInt (the_group 1 maxAge) <? 31536000)%N then
         [Deduct 4;
          PushIssue (info (js "HSTS max-age bør være minst 1 år (31536000 sekunder)"))]
       else [PushDetail (success (js "HSTS er korrekt konfigurert"))]
     | None => [PushDetail (success (js "HSTS er korrekt konfigurert"))]
     end)
    ++
    (if negb (test true re_include_subdomains hsts) then
       [PushIssue (info (js "HSTS mangler includeSubDomains"))]
     else [])
  | _ =>
    [Deduct 12;
     PushIssue (warning (js "Mangler HSTS-header (Strict-Transport-Security)"))]
  end.

(** Content Security Policy *)
Definition sec_csp_rule (headers : Headers) : list effect :=
  match header headers "content-security-policy" with
  | Some (c :: t) =>
    let csp := c :: t in
    [PushDetail (success (js "CSP er implementert"))]
    ++
    (if test true re_unsafe_inline csp && test true re_script_src csp then
       [Deduct 3; PushIssue (info (js "CSP tillater unsafe-inline for scripts"))]
     else [])
    ++
    (if test true re_unsafe_eval csp then
       [Deduct 3; PushIssue (info (js "CSP tillater unsafe-eval"))]
     else [])
  | _ =>
    [Deduct 10; PushIssue (warning (js "Mangler Content-Security-Policy header"))]
  end.

(** X-Frame-Options *)
Definition sec_frame_rule (headers : Headers) : list effect :=
  let xfo := header headers "x-frame-options" in
  let csp_frame_ancestors :=
    match header headers "content-security-policy" with
    | Some csp => includes csp (js "frame-ancestors")
    | None => false
    end in
  if negb (truthy xfo) && negb csp_frame_ancestors then
    [Deduct 8;
     PushIssue (warning (js "Mangler clickjacking-beskyttelse (X-Frame-Options)"))]
  else [PushDetail (success (js "Clickjacking-beskyttelse er aktiv"))].

(** X-Content-Type-Options *)
Definition sec_content_type_rule (headers : Headers) : list effect :=
  if negb (truthy (header headers "x-content-type-options")) then
    [Deduct 6; PushIssue (warning (js "Mangler X-Content-Type-Options: nosniff"))]
  else [PushDetail (success (js "MIME-type sniffing er blokkert"))].

(** Referrer-Policy *)
Definition sec_referrer_rule (headers : Headers) : list effect :=
  if negb (truthy (header headers "referrer-policy")) then
    [Deduct 4; PushIssue (info (js "Mangler Referrer-Policy header"))]
  else [].

(** Permissions-Policy *)
Definition sec_permissions_rule (headers : Headers) : list effect :=
  if negb (truthy (header headers "permissions-policy")
           || truthy (header headers "feature-policy")) then
    [Deduct 4; PushIssue (info (js "Mangler Permissions-Policy header"))]
  else [].

(** X-XSS-Protection (legacy) *)
Definition sec_xss_rule (headers : Headers) : list effect :=
  if negb (truthy (header headers "x-xss-protection")) then
    [Deduct 2; PushIssue (info (js "Mangler X-XSS-Protection header (legacy)"))]
  else [].

(** Mixed Content Detection *)
Definition sec_mixed_content (parsedUrl : ParsedUrl) (html : jsstring) : list effect :=
  let httpResources := match_g true re_http_resource html in
  if (0 <? size httpResources) && is_https parsedUrl then
    [Deduct 5;
     PushIssue (warning (of_Z (size httpResources)
                         ++ js " ressurser lastes over HTTP (mixed content)"))]
  else [].

(** Sensitive Data Exposure *)
Definition sec_emails (html : jsstring) : list effect :=
  if 3 <? size (match_g false re_email html) then
    [Deduct 2;
     PushIssue (info (js "E-postadresser er synlige i kildekoden (spam-risiko)"))]
  else [].

(** Form Security *)
Definition sec_forms (html : jsstring) : list effect :=
  let formsWithoutHTTPS :=
    count (fun f => test true re_action_http f) (match_g true re_form html) in
  if 0 <? formsWithoutHTTPS then
    [Deduct 8;
     PushIssue (critical (of_Z formsWithoutHTTPS ++ js " skjema sender data over HTTP"))]
  else [].

(** Password fields *)
Definition sec_passwords (html : jsstring) : list effect :=
  let passwordWithoutAutocomplete :=
    count (fun f => negb (test true re_autocomplete f))
          (match_g true re_password_input html) in
  if 0 <? passwordWithoutAutocomplete then
    [PushIssue (info (js "Passord-felt mangler autocomplete-attributt"))]
  else [].

(** Server Header Disclosure *)
Definition sec_disclosure (headers : Headers) : list effect :=
  (match header headers "server" with
   | Some (c :: t) =>
     if test true re_server_name (c :: t) && test true re_version (c :: t) then
       [Deduct 2; PushIssue (info (js "Server-versjon er synlig i headers"))]
     else []
   | _ => []
   end)
  ++
  (if truthy (header headers "x-powered-by") then
     [Deduct 2; PushIssue (info (js "X-Powered-By header eksponerer teknologi"))]
   else []).

Definition sec_effects (parsedUrl : ParsedUrl) (headers : Headers)
    (html : jsstring) : list effect :=
  sec_protocol parsedUrl
  ++ sec_hsts_rule headers
  ++ sec_csp_rule headers
  ++ sec_frame_rule headers
  ++ sec_content_type_rule headers
  ++ sec_referrer_rule headers
  ++ sec_permissions_rule headers
  ++ sec_xss_rule headers
  ++ sec_mixed_content parsedUrl html
  ++ sec_emails html
  ++ sec_forms html
  ++ sec_passwords html
  ++ sec_disclosure headers.

(** [analyzeSecurity(parsedUrl, headers, html)]; the source returns the
    five booleans under the key [headers]. *)
Definition analyzeSecurity (parsedUrl : ParsedUrl) (headers : Headers)
    (html : jsstring) : DimensionResult SecurityMetrics :=
  finish (sec_effects parsedUrl headers html)
    {| sec_https := is_https parsedUrl;
       sec_hsts := truthy (header headers "strict-transport-security");
       sec_csp := truthy (header headers "content-security-policy");
       sec_xfo := truthy (header headers "x-frame-options");
       sec_xcto := truthy (header headers "x-content-type-options") |}.

(* ================================================================== *)
(** * Mobile analyzer *)
(* ================================================================== *)

Definition re_viewport := Eval vm_compute in
  rx "<meta[^>]*name=[`']viewport[`'][^>]*content=[`']([^`']+)[`']".
Definition re_font_size := Eval vm_compute in rx "font-size:\s*([0-9]+)px".
Definition re_small_padding := Eval vm_compute in rx "padding:\s*[0-3]px".
Definition re_picture := Eval vm_compute in rx "<picture[^>]*>".
Definition re_media := Eval vm_compute in rx "@media[^{]*\{".
Definition re_mobile_query := Eval vm_compute in rx "max-width|min-width|screen".
Definition re_fixed_width := Eval vm_compute in rx "width:\s*\d{4,}px".
Definition re_apple_touch_icon := Eval vm_compute in
  rx "<link[^>]*rel=[`']apple-touch-icon[`']".
Definition re_favicon := Eval vm_compute in rx "<link[^>]*rel=[`']icon[`']".
Definition re_manifest := Eval vm_compute in rx "<link[^>]*rel=[`']manifest[`']".
Definition re_theme_color := Eval vm_compute in rx "<meta[^>]*name=[`']theme-color[`']".

Record MobileMetrics := {
  mm_hasViewport : bool;
  mm_responsiveImages : Z;
  mm_totalImages : Z;
  mm_mediaQueries : Z;
  mm_hasManifest : bool;
  mm_hasTouchIcon : bool
}.

(** Viewport Meta Tag *)
Definition mob_viewport (html : jsstring) : list effect :=
  match search true re_viewport html with
  | None => [Deduct 25; PushIssue (critical (js "Mangler viewport meta-tag"))]
  | Some viewportMatch =>
    let viewport := toLowerCase (the_group 1 viewportMatch) in
    (if negb (includes viewport (js "width=device-width")) then
       [Deduct 10; PushIssue (warning (js "Viewport mangler width=device-width"))]
     else [PushDetail (success (js "Viewport er korrekt konfigurert"))])
    ++
    (if includes viewport (js "maximum-scale=1") || includes viewport (js "user-scalable=no")
     then [Deduct 5;
           PushIssue (warning (js "Viewport blokkerer zoom (dårlig for tilgjengelighet)"))]
     else [])
    ++
    (if negb (includes viewport (js "initial-scale")) then
       [Deduct 2; PushIssue (info (js "Viewport mangler initial-scale=1"))]
     else [])
  end.

(** Touch-Friendly Elements *)
Definition mob_fonts (html : jsstring) : list effect :=
  let verySmallFonts :=
    count (fun f => (first_number f <? 12)%N) (match_g true re_font_size html) in
  if 5 <? verySmallFonts then
    [Deduct 5;
     PushIssue (warning (js "Flere elementer har for liten skriftstørrelse for mobil (<12px)"))]
  else [].

(** Tap Targets *)
Definition mob_tap_targets (html : jsstring) : list effect :=
  if 3 <? size (match_g true re_small_padding html) then
    [Deduct 3;
     PushIssue (info (js "Noen klikkbare elementer kan være for små for touch"))]
  else [].

(** Responsive Images *)
Definition responsiveImages (html : jsstring) : Z :=
  count (fun img => test true re_srcset img) (match_g true re_img html).

Definition mob_images (html : jsstring) : list effect :=
  let imgTags := size (match_g true re_img html) in
  let pictureElements := size (match_g true re_picture html) in
  if (5 <? imgTags) && (responsiveImages html =? 0) && (pictureElements =? 0) then
    [Deduct 8; PushIssue (warning (js "Ingen responsive bilder (srcset/picture)"))]
  else if (3 <? imgTags) && (2 * responsiveImages html <? imgTags) then
    [Deduct 4;
     PushIssue (info (js "Kun " ++ of_Z (responsiveImages html) ++ js "/" ++ of_Z imgTags
                      ++ js " bilder er responsive"))]
  else [].

(** CSS Media Queries *)
Definition mobileQueries (html : jsstring) : Z :=
  count (fun mq => test true re_mobile_query mq) (match_g true re_media html).

Definition mob_media_queries (html : jsstring) : list effect :=
  if mobileQueries html =? 0 then
    [Deduct 10;
     PushIssue (warning (js "Ingen CSS media queries for responsivt design"))]
  else if mobileQueries html <? 3 then
    [Deduct 4; PushIssue (info (js "Få media queries: " ++ of_Z (mobileQueries html)))]
  else
    [PushDetail (success (of_Z (mobileQueries html) ++ js " responsive media queries"))].

(** Fixed Widths *)
Definition mob_fixed_widths (html : jsstring) : list effect :=
  let largeFixedWidths :=
    count (fun w => (500 <? first_number w)%N) (match_g true re_fixed_width html) in
  if 2 <? largeFixedWidths then
    [Deduct 8;
     PushIssue (warning (of_Z largeFixedWidths
                         ++ js " elementer har faste bredder som kan bryte mobil-layout"))]
  else [].

(** Touch Icons *)
Definition mob_icons (html : jsstring) : list effect :=
  (if negb (test true re_apple_touch_icon html) then
     [Deduct 3; PushIssue (info (js "Mangler Apple Touch Icon"))]
   else [])
  ++
  (if negb (test true re_favicon html) then
     [Deduct 2; PushIssue (info (js "Mangler favicon"))]
   else []).

(** Web App Manifest *)
Definition mob_manifest (html : jsstring) : list effect :=
  if negb (test true re_manifest html) then
    [Deduct 5; PushIssue (info (js "Mangler Web App Manifest (PWA-støtte)"))]
  else [PushDetail (success (js "Web App Manifest er implementert"))].

(** Theme Color *)
Definition mob_theme_color (html : jsstring) : list effect :=
  if negb (test true re_theme_color html) then
    [Deduct 2; PushIssue (info (js "Mangler theme-color meta-tag"))]
  else [].

Definition mob_effects (html : jsstring) : list effect :=
  mob_viewport html
  ++ mob_fonts html
  ++ mob_tap_targets html
  ++ mob_images html
  ++ mob_media_queries html
  ++ mob_fixed_widths html
  ++ mob_icons html
  ++ mob_manifest html
  ++ mob_theme_color html.

Definition analyzeMobile (html : jsstring) : DimensionResult MobileMetrics :=
  finish (mob_effects html)
    {| mm_hasViewport := is_some (search true re_viewport html);
       mm_responsiveImages := responsiveImages html;
       mm_totalImages := size (match_g true re_img html);
       mm_mediaQueries := mobileQueries html;
       mm_hasManifest := test true re_manifest html;
       mm_hasTouchIcon := test true re_apple_touch_icon html |}.

(* ================================================================== *)
(** * Accessibility analyzer *)
(* ================================================================== *)

Definition re_html_lang_value := Eval vm_compute in rx "<html[^>]*lang=[`']([^`']+)[`']".
Definition re_input := Eval vm_compute in rx "<input[^>]*>".
Definition re_non_text_type := Eval vm_compute in
  rx "type=[`'](hidden|submit|button|image)[`']".
Definition re_id := Eval vm_compute in rx "id=[`']([^`']+)[`']".
Definition re_aria_label := Eval vm_compute in rx "aria-label=".
Definition re_aria_labelledby := Eval vm_compute in rx "aria-labelledby=".
Definition re_main := Eval vm_compute in rx "<main[^>]*>|role=[`']main[`']".
Definition re_nav := Eval vm_compute in rx "<nav[^>]*>|role=[`']navigation[`']".
Definition re_header := Eval vm_compute in rx "<header[^>]*>|role=[`']banner[`']".
Definition re_footer := Eval vm_compute in rx "<footer[^>]*>|role=[`']contentinfo[`']".
Definition re_skip_anchor := Eval vm_compute in
  rx "<a[^>]*href=[`']#(main|content|skip)[^`']*[`'][^>]*>".
Definition re_skip_text := Eval vm_compute in rx "skip.*(link|nav|content)".
Definition re_anchor := Eval vm_compute in rx "<a[^>]*>[\s\S]*?<\/a>".
Definition re_tag := Eval vm_compute in rx "<[^>]*>".
Definition re_outline_none := Eval vm_compute in rx "outline:\s*none|outline:\s*0(?!\d)".
Definition re_focus := Eval vm_compute in rx ":focus".
Definition re_light_color := Eval vm_compute in rx "color:\s*#[def][def][def]".
Definition re_table := Eval vm_compute in rx "<table[^>]*>".
Definition re_th := Eval vm_compute in rx "<th[^>]*>".
Definition re_div_onclick := Eval vm_compute in rx "<div[^>]*onclick".
Definition re_span_onclick := Eval vm_compute in rx "<span[^>]*onclick".
Definition re_positive_tabindex := Eval vm_compute in rx "tabindex=[`'][1-9]".

(** The six patterns [new RegExp(`<h${i}[^>]*>`, 'gi')], [i] from 1 to 6. *)
Definition re_heading : list (Z * regex) := Eval vm_compute in
  map (fun i => (i, match read_pattern (js "<h" ++ of_Z i ++ js "[^>]*>") with
                    | Ok r => r
                    | _ => RClass false []
                    end)) [1; 2; 3; 4; 5; 6].

Record AccessibilityMetrics := {
  am_hasLang : bool;
  am_imagesWithoutAlt : Z;
  am_landmarks : Z;
  am_hasSkipLink : bool;
  am_headingStructure : jsstring
}.

(** Language Declaration *)
Definition acc_lang (html : jsstring) : list effect :=
  match search true re_html_lang_value html with
  | None =>
    [Deduct 8; PushIssue (warning (js "Mangler lang-attributt på html-elementet"))]
  | Some htmlLang =>
    [PushDetail (success (js "Språk er definert: " ++ the_group 1 htmlLang))]
  end.

(** Image Alt Texts *)
Definition acc_images (html : jsstring) : list effect :=
  let imgTags := match_g true re_img html in
  let n := size (imagesWithoutAlt html) in
  if 0 <? n then
    [Deduct (Z.min 15 (n * 3));
     PushIssue (warning (of_Z n ++ js " bilder mangler alt-attributt"))]
  else if 0 <? size imgTags then
    [PushDetail (success (js "Alle bilder har alt-attributt"))]
  else [].

(** Form Labels *)
Definition textInputs (html : jsstring) : list jsstring :=
  filter (fun i => negb (test true re_non_text_type i)) (match_g true re_input html).

(** The callback of [inputsWithoutLabel]: the [id] of the input is pasted
    into the text of a pattern, which is then compiled. *)
Definition lacks_label (P : Platform) (html : jsstring) (input : jsstring)
  : outcome bool :=
  match search true re_id input with
  | None => Ok true
  | Some idMatch =>
    labelPattern <-
      RegExp P (js "<label[^>]*for=[`']" ++ the_group 1 idMatch ++ js "[`']") true ;;
    Ok (negb (pattern_test labelPattern html))
  end.

Definition has_aria_label (input : jsstring) : bool :=
  test true re_aria_label input || test true re_aria_labelledby input.

Definition inputsWithAriaLabel (html : jsstring) : Z :=
  count has_aria_label (textInputs html).

Definition acc_form_labels (html : jsstring) (inputsWithoutLabel : list jsstring)
  : list effect :=
  if inputsWithAriaLabel html <? size inputsWithoutLabel then
    let unlabeled := size inputsWithoutLabel - inputsWithAriaLabel html in
    if 0 <? unlabeled then
      [Deduct (Z.min 12 (unlabeled * 3));
       PushIssue (warning (of_Z unlabeled ++ js " skjemafelt mangler tilknyttet label"))]
    else []
  else [].

(** Heading Hierarchy *)
Definition headings (html : jsstring) : list (Z * Z) :=
  map (fun p => (fst p, size (match_g true (snd p) html))) re_heading.

Definition acc_h1 (html : jsstring) : list effect :=
  match headings html with
  | (_, n) :: _ =>
    if n =? 0 then [Deduct 5; PushIssue (warning (js "Mangler H1-overskrift"))] else []
  | [] => []
  end.

Fixpoint skipped_level (lastLevel : Z) (hs : list (Z * Z)) : list effect :=
  match hs with
  | [] => []
  | (level, n) :: rest =>
    if 0 <? n then
      if (0 <? lastLevel) && (lastLevel + 1 <? level) then
        [Deduct 3;
         PushIssue (info (js "Overskriftsnivå hoppes over (H" ++ of_Z lastLevel
                          ++ js " til H" ++ of_Z level ++ js ")"))]
      else skipped_level level rest
    else skipped_level lastLevel rest
  end.

(** ARIA Landmarks *)
Definition landmarks (html : jsstring) : Z :=
  count (fun r => test true r html) [re_main; re_nav; re_header; re_footer].

Definition acc_landmarks (html : jsstring) : list effect :=
  if landmarks html <? 2 then
    [Deduct 6; PushIssue (warning (js "Få ARIA landmarks (main, nav, header, footer)"))]
  else if landmarks html =? 4 then
    [PushDetail (success (js "God bruk av semantiske landmarks"))]
  else [].

(** Skip Link *)
Definition hasSkipLink (html : jsstring) : bool :=
  test true re_skip_anchor html || test true re_skip_text html.

Definition acc_skip_link (html : jsstring) : list effect :=
  if negb (hasSkipLink html) && (10000 <? size html) then
    [Deduct 5; PushIssue (info (js "Mangler skip-link for tastaturnavigasjon"))]
  else [].

(** Link Text Quality *)
Definition generic_link_texts : list jsstring :=
  [js "klikk her"; js "les mer"; js "her"; js "link"; js "click here"; js "read more"].

Definition is_bad_link (link : jsstring) : bool :=
  let text := toLowerCase (trim (remove_all false re_tag link)) in
  existsb (jsstring_eqb text) generic_link_texts.

Definition acc_link_texts (html : jsstring) : list effect :=
  let badLinkTexts := count is_bad_link (match_g true re_anchor html) in
  if 3 <? badLinkTexts then
    [Deduct 5;
     PushIssue (info (of_Z badLinkTexts
                      ++ js " lenker har generisk tekst (`klikk her`, `les mer`)"))]
  else [].

(** Focus Indicators *)
Definition acc_focus (html : jsstring) : list effect :=
  if test true re_outline_none html && negb (test true re_focus html) then
    [Deduct 5;
     PushIssue (warning (js "Focus-indikatorer kan være fjernet uten erstatning"))]
  else [].

(** Color Contrast (limited check) *)
Definition acc_contrast (html : jsstring) : list effect :=
  if 3 <? size (match_g true re_light_color html) then
    [Deduct 3; PushIssue (info (js "Mulig dårlig fargekontrast (veldig lyse farger)"))]
  else [].

(** Tables *)
Definition acc_tables (html : jsstring) : list effect :=
  if (0 <? size (match_g true re_table html)) && (size (match_g true re_th html) =? 0)
  then [Deduct 5; PushIssue (warning (js "Tabeller mangler header-celler (th)"))]
  else [].

(** Button/Link Roles *)
Definition acc_roles (html : jsstring) : list effect :=
  if 2 <? size (match_g true re_div_onclick html)
          + size (match_g true re_span_onclick html)
  then [Deduct 4;
        PushIssue (warning (js "Klikkbare div/span-elementer bør være buttons eller lenker"))]
  else [].

(** Tabindex Issues *)
Definition acc_tabindex (html : jsstring) : list effect :=
  if 0 <? size (match_g true re_positive_tabindex html) then
    [Deduct 3;
     PushIssue (info (js "Positiv tabindex kan forstyrre naturlig tab-rekkefølge"))]
  else [].

Definition acc_effects (html : jsstring) (inputsWithoutLabel : list jsstring)
  : list effect :=
  acc_lang html
  ++ acc_images html
  ++ acc_form_labels html inputsWithoutLabel
  ++ acc_h1 html
  ++ skipped_level 0 (headings html)
  ++ acc_landmarks html
  ++ acc_skip_link html
  ++ acc_link_texts html
  ++ acc_focus html
  ++ acc_contrast html
  ++ acc_tables html
  ++ acc_roles html
  ++ acc_tabindex html.

Fixpoint join (sep : jsstring) (parts : list jsstring) : jsstring :=
  match parts with
  | [] => []
  | [p] => p
  | p :: rest => p ++ sep ++ join sep rest
  end.

Definition headingStructure (html : jsstring) : jsstring :=
  join (js ", ")
       (map (fun h => js "H" ++ of_Z (fst h) ++ js ":" ++ of_Z (snd h))
            (filter (fun h => 0 <? snd h) (headings html))).

Definition analyzeAccessibility (P : Platform) (html : jsstring)
  : outcome (DimensionResult AccessibilityMetrics) :=
  inputsWithoutLabel <- filterM (lacks_label P html) (textInputs html) ;;
  Ok (finish (acc_effects html inputsWithoutLabel)
        {| am_hasLang := is_some (search true re_html_lang_value html);
           am_imagesWithoutAlt := size (imagesWithoutAlt html);
           am_landmarks := landmarks html;
           am_hasSkipLink := hasSkipLink html;
           am_headingStructure := headingStructure html |}).

(** [getStatus(score)] *)
Definition getStatus (score : Z) : string :=
  if 90 <=? score then "green"
  else if 70 <=? score then "yellow"
  else if 50 <=? score then "orange"
  else "red".

(* ================================================================== *)
(** * Aggregator *)
(* ================================================================== *)

(** A JavaScript number is an IEEE 754 binary64 value; [*] and [+] round
    to nearest, ties to even.  These are the operations of the standard
    library's specification of binary64. *)
Definition double := spec_float.
Definition d_mul : double -> double -> double := SFmul 53 1024.
Definition d_add : double -> double -> double := SFadd 53 1024.
Definition of_int (z : Z) : double := binary_normalize 53 1024 z 0 false.

(** The literals [0.25], [0.20] and [0.15]: the nearest binary64 values,
    [2^52 * 2^-54], [0x1999999999999A * 2^-55] and
    [0x13333333333333 * 2^-55]. *)
Definition d_0_25 : double := S754_finite false 4503599627370496 (-54).
Definition d_0_20 : double := S754_finite false 7205759403792794 (-55).
Definition d_0_15 : double := S754_finite false 5404319552844595 (-55).

(** [Math.round]: the nearest integer, a tie going up. *)
Definition Math_round (x : double) : option Z :=
  match x with
  | S754_zero _ => Some 0
  | S754_finite s m e =>
    let v := if s then Zneg m else Zpos m in
    if 0 <=? e then Some (v * 2 ^ e)
    else Some ((2 * v + 2 ^ (- e)) / 2 ^ (1 - e))
  | _ => None
  end.

Definition weighted_sum (performance seo security mobile accessibility : Z) : double :=
  d_add (d_add (d_add (d_add (d_mul (of_int performance) d_0_25)
                             (d_mul (of_int seo) d_0_25))
                      (d_mul (of_int security) d_0_20))
               (d_mul (of_int mobile) d_0_15))
        (d_mul (of_int accessibility) d_0_15).

Definition totalScore (performance seo security mobile accessibility : Z) : option Z :=
  Math_round (weighted_sum performance seo security mobile accessibility).

(** The weighted total of the specification, in exact arithmetic: the
    weights are hundredths, and rounding adds one half and takes the
    floor. *)
Definition weighted_hundredths (performance seo security mobile accessibility : Z) : Z :=
  25 * performance + 25 * seo + 20 * security + 15 * mobile + 15 * accessibility.

Definition exact_total (performance seo security mobile accessibility : Z) : Z :=
  (weighted_hundredths performance seo security mobile accessibility + 50) / 100.

(** The part of [handler] after the fetch: the five analyses and the
    weighted total. *)
Record AuditReport := {
  report_totalScore : option Z;
  report_performance : DimensionResult PerformanceMetrics;
  report_seo : DimensionResult SEOMetrics;
  report_security : DimensionResult SecurityMetrics;
  report_mobile : DimensionResult MobileMetrics;
  report_accessibility : DimensionResult AccessibilityMetrics
}.

Definition audit (P : Platform) (parsedUrl : ParsedUrl) (responseTime : Z)
    (headers : Headers) (html : jsstring) : outcome AuditReport :=
  let resources := extractResources html in
  performanceResult <- analyzePerformance P responseTime html resources ;;
  let seoResult := analyzeSEO html in
  let securityResult := analyzeSecurity parsedUrl headers html in
  let mobileResult := analyzeMobile html in
  accessibilityResult <- analyzeAccessibility P html ;;
  Ok {| report_totalScore :=
          totalScore (score performanceResult) (score seoResult)
                     (score securityResult) (score mobileResult)
                     (score accessibilityResult);
        report_performance := performanceResult;
        report_seo := seoResult;
        report_security := securityResult;
        report_mobile := mobileResult;
        report_accessibility := accessibilityResult |}.

(* ================================================================== *)
(** * The request handler *)
(* ================================================================== *)

(** A request, as far as [handler] reads it: the method, and the [url]
    entry of the query, which is absent or a string. *)
Record Request := {
  method : jsstring;
  query_url : option jsstring
}.

(** What the first [fetch] and [response.text()] deliver: the time between
    the two readings of [Date.now()], the response headers and the text
    of the body. *)
Record Fetched := {
  fetched_responseTime : Z;
  fetched_headers : Headers;
  fetched_html : jsstring
}.

Record Benchmarks := {
  bm_performance : Z;
  bm_seo : Z;
  bm_security : Z;
  bm_mobile : Z;
  bm_accessibility : Z
}.

(** Industry benchmarks (Norwegian average) *)
Definition industryBenchmarks : Benchmarks :=
  {| bm_performance := 68; bm_seo := 72; bm_security := 65; bm_mobile := 78;
     bm_accessibility := 62 |}.

(** One entry of [categories] in the result. *)
Record CategoryReport := {
  cat_score : Z;
  cat_status : string;
  cat_details : list Finding;
  cat_benchmark : Z
}.

Record AnalysisResult := {
  result_url : jsstring;
  result_analyzedAt : jsstring;
  result_responseTime : Z;
  result_totalScore : option Z;
  result_benchmarks : Benchmarks;
  cat_performance : CategoryReport;
  cat_seo : CategoryReport;
  cat_security : CategoryReport;
  cat_mobile : CategoryReport;
  cat_accessibility : CategoryReport
}.

(** What a response carries: nothing ([end()]), an object with an [error]
    key, or the result object. *)
Inductive Body :=
| NoBody
| ErrorBody (error : jsstring)
| ResultBody (result : AnalysisResult).

Record Response := {
  statusCode : Z;
  response_headers : list (string * string);
  response_body : Body
}.

(** CORS headers *)
Definition cors_headers : list (string * string) :=
  [("Access-Control-Allow-Origin", "*");
   ("Access-Control-Allow-Methods", "GET, OPTIONS");
   ("Access-Control-Allow-Headers", "Content-Type")]%string.

Definition respond (code : Z) (b : Body) : Response :=
  {| statusCode := code; response_headers := cors_headers; response_body := b |}.

Definition category {M} (r : DimensionResult M) (benchmark : Z) : CategoryReport :=
  {| cat_score := score r;
     cat_status := getStatus (score r);
     cat_details := details r;
     cat_benchmark := benchmark |}.

Section Handler.

(** The platform: the constructors the analyzers call, [new URL] on a
    text that begins with a scheme, the first [fetch] together with
    [response.text()], and the text of [new Date().toISOString()].
    [parse_url] and [fetch] are [None] when the call throws or the
    promise is rejected. *)
Variable P : Platform.
Variable parse_url : jsstring -> option ParsedUrl.
Variable fetch : jsstring -> option Fetched.
Variable now : jsstring.

(** [new URL(url)]: without a scheme the constructor throws. *)
Definition new_URL (url : jsstring) : outcome ParsedUrl :=
  if has_scheme url then
    match parse_url url with
    | Some parsedUrl => Ok parsedUrl
    | None => Throw TypeError
    end
  else Throw TypeError.

(** [await fetch(url, ...)] and [await response.text()] *)
Definition fetch_page (url : jsstring) : outcome Fetched :=
  match fetch url with
  | Some fetched => Ok fetched
  | None => Throw TypeError
  end.

(** The [try] block of [handler], up to the result object. *)
Definition analyse (url : jsstring) (parsedUrl : ParsedUrl) : outcome AnalysisResult :=
  fetched <- fetch_page url ;;
  report <- audit P parsedUrl (fetched_responseTime fetched) (fetched_headers fetched)
                  (fetched_html fetched) ;;
  Ok {| result_url := url;
        result_analyzedAt := now;
        result_responseTime := fetched_responseTime fetched;
        result_totalScore := report_totalScore report;
        result_benchmarks := industryBenchmarks;
        cat_performance :=
          category (report_performance report) (bm_performance industryBenchmarks);
        cat_seo := category (report_seo report) (bm_seo industryBenchmarks);
        cat_security :=
          category (report_security report) (bm_security industryBenchmarks);
        cat_mobile := category (report_mobile report) (bm_mobile industryBenchmarks);
        cat_accessibility :=
          category (report_accessibility report)
                   (bm_accessibility industryBenchmarks) |}.

(** [handler(req, res)]: the response it sends.  The line the [catch]
    block logs is not part of the response. *)
Definition handler (req : Request) : outcome Response :=
  if jsstring_eqb (method req) (js "OPTIONS") then Ok (respond 200 NoBody)
  else
    match query_url req with
    | None | Some [] => Ok (respond 400 (ErrorBody (js "URL mangler")))
    | Some url =>
      match new_URL url with
      | Throw _ => Ok (respond 400 (ErrorBody (js "Ugyldig URL-format")))
      | Unmodelled => Unmodelled
      | Ok parsedUrl =>
        match analyse url parsedUrl with
        | Ok result => Ok (respond 200 (ResultBody result))
        | Throw _ =>
          Ok (respond 500
                (ErrorBody
                   (js "Kunne ikke analysere URL. Sjekk at nettsiden er tilgjengelig.")))
        | Unmodelled => Unmodelled
        end
      end
    end.

End Handler.

(* ================================================================== *)
(** * Vocabulary of the properties *)
(* ================================================================== *)

(** ** What a run of an analyzer did *)

(** The sum of the amounts subtracted from the score. *)
Fixpoint deductions (es : list effect) : Z :=
  match es with
  | [] => 0
  | Deduct n :: t => n + deductions t
  | _ :: t => deductions t
  end.

(** The findings pushed to [details] and to [issues]. *)
Fixpoint pushed_details (es : list effect) : list Finding :=
  match es with
  | [] => []
  | PushDetail f :: t => f :: pushed_details t
  | _ :: t => pushed_details t
  end.

Fixpoint pushed_issues (es : list effect) : list Finding :=
  match es with
  | [] => []
  | PushIssue f :: t => f :: pushed_issues t
  | _ :: t => pushed_issues t
  end.

(** Every finding pushed, in execution order. *)
Fixpoint pushed (es : list effect) : list Finding :=
  match es with
  | [] => []
  | Deduct _ :: t => pushed t
  | PushDetail f :: t => f :: pushed t
  | PushIssue f :: t => f :: pushed t
  end.

(** ** Findings *)

Definition is_success (f : Finding) : bool :=
  match finding_type f with
  | Some _ => true
  | None => false
  end.

Definition finding_ok (f : Finding) : bool :=
  match finding_type f, severity f with
  | Some t, None => String.eqb t "success"
  | None, Some s => existsb (String.eqb s) ["info"; "warning"; "critical"]%string
  | _, _ => false
  end.

Definition effect_ok (e : effect) : bool :=
  match e with
  | Deduct _ => true
  | PushDetail f => finding_ok f && is_success f
  | PushIssue f => finding_ok f && negb (is_success f)
  end.

(** The two shapes of a finding. *)
Definition success_or_issue (f : Finding) : Prop :=
  (finding_type f = Some "success"%string /\ severity f = None)
  \/ (finding_type f = None
      /\ (severity f = Some "info"%string \/ severity f = Some "warning"%string
          \/ severity f = Some "critical"%string)).

(** The findings an analyzer returns after executing [es]: the success
    findings in the order they were pushed, then the issues in the order
    they were pushed. *)
Definition successes_then_issues (es : list effect) (ds : list Finding) : Prop :=
  ds = filter is_success (pushed es)
       ++ filter (fun f => negb (is_success f)) (pushed es)
  /\ forall f, In f (pushed es) -> success_or_issue f.

(** The levels C9 names, and the claim that a finding carries one of them
    in its [severity] field. *)
Definition severity_levels : list string :=
  ["success"; "info"; "warning"; "critical"]%string.

Definition carries_severity (f : Finding) : Prop :=
  exists s, severity f = Some s /\ In s severity_levels.

(** ** Security headers *)

(** A response that sets every header the analyzer looks for. *)
Definition well_configured_headers : Headers :=
  [(js "Strict-Transport-Security", js "max-age=63072000; includeSubDomains");
   (js "Content-Security-Policy", js "default-src 'self'; frame-ancestors 'none'");
   (js "X-Frame-Options", js "DENY");
   (js "X-Content-Type-Options", js "nosniff");
   (js "Referrer-Policy", js "no-referrer");
   (js "Permissions-Policy", js "geolocation=()");
   (js "X-XSS-Protection", js "0")].

(** The security headers the analyzer looks up. *)
Definition security_header_names : list string :=
  ["strict-transport-security"; "content-security-policy"; "x-frame-options";
   "x-content-type-options"; "referrer-policy"; "permissions-policy";
   "feature-policy"; "x-xss-protection"]%string.

Definition no_security_headers (hs : Headers) : Prop :=
  forall name, In name security_header_names -> header hs name = None.

(** The score C6 states for a response without security headers. *)
Definition missing_headers_only_score (url : ParsedUrl) : Z :=
  Z.max 0 (100 - (12 + 10 + 8 + 6 + 4 + 4 + 2) - (if is_https url then 0 else 30)).

(** What the rules that read no security header look for: an address
    with [http://] in the HTML, more than three e-mail addresses, a form
    whose action begins with [http://], a [Server] header that names a
    server and a version, and an [X-Powered-By] header. *)
Definition loads_over_http (html : jsstring) : bool :=
  match match_g true re_http_resource html with
  | [] => false
  | _ :: _ => true
  end.

Definition shows_emails (html : jsstring) : bool :=
  (3 <? length (match_g false re_email html))%nat.

Definition posts_over_http (html : jsstring) : bool :=
  existsb (test true re_action_http) (match_g true re_form html).

Definition shows_server_version (hs : Headers) : bool :=
  match header hs "server" with
  | Some server => test true re_server_name server && test true re_version server
  | None => false
  end.

Definition shows_technology (hs : Headers) : bool :=
  match header hs "x-powered-by" with
  | Some [] | None => false
  | Some (_ :: _) => true
  end.

(** The directives of a header value, as C10 reads them: the parts
    between semicolons; the name of a directive is its text before the
    equals sign, without the white space around it, in lower case. *)
Fixpoint split_on (sep : char) (s : jsstring) : list jsstring :=
  match s with
  | [] => [[]]
  | c :: t =>
    if N.eqb c sep then [] :: split_on sep t
    else match split_on sep t with
         | part :: parts => (c :: part) :: parts
         | [] => [[c]]
         end
  end.

Fixpoint text_before (sep : char) (s : jsstring) : jsstring :=
  match s with
  | [] => []
  | c :: t => if N.eqb c sep then [] else c :: text_before sep t
  end.

Definition directive_names (value : jsstring) : list jsstring :=
  map (fun d => toLowerCase (trim (text_before 61%N d))) (split_on 59%N value).

Definition has_directive (name : string) (value : jsstring) : bool :=
  existsb (jsstring_eqb (js name)) (directive_names value).

(** What C10 states of a response: the success finding of the HSTS rule
    and no deduction by it. *)
Definition hsts_counts_as_configured (hs : Headers) : Prop :=
  deductions (sec_hsts_rule hs) = 0
  /\ In (success (js "HSTS er korrekt konfigurert")) (pushed_details (sec_hsts_rule hs)).

(** ** Form labels *)

(** What the form-label rule deducts. *)
Definition form_label_deduction (P : Platform) (html : jsstring) : outcome Z :=
  inputsWithoutLabel <- filterM (lacks_label P html) (textInputs html) ;;
  Ok (deductions (acc_form_labels html inputsWithoutLabel)).

(** The count of C8: the inputs that have neither a label nor an
    [aria-label] or [aria-labelledby] attribute. *)
Definition unlabeled_inputs (P : Platform) (html : jsstring) : outcome Z :=
  unlabeled <- filterM (fun input =>
                          b <- lacks_label P html input ;;
                          Ok (b && negb (has_aria_label input)))
                       (textInputs html) ;;
  Ok (size unlabeled).

(** ** Positions in a text *)

Definition is_suffix (s t : jsstring) : Prop := exists pre, t = pre ++ s.

Definition not_gt (c : char) : bool := negb (N.eqb c 62%N).

(** What follows the tag name in [re_script]. *)
Definition script_attributes : regex := Eval vm_compute in
  rx "[^>]*(?:src=[`']([^`']+)[`'])?[^>]*>".

(** ** Literal text at the start of a pattern *)

Fixpoint literal_prefix (r : regex) : jsstring :=
  match r with
  | RChar c => [c]
  | RSeq (RChar c) b => c :: literal_prefix b
  | _ => []
  end.

Fixpoint starts_with_ci (p s : jsstring) : bool :=
  match p, s with
  | [], _ => true
  | a :: p', b :: s' => char_eq true a b && starts_with_ci p' s'
  | _ :: _, [] => false
  end.

(** [occurs_ci p s]: the ASCII text [p] occurs in [s], letters compared
    without regard to case. *)
Fixpoint occurs_ci (p s : jsstring) : bool :=
  starts_with_ci p s
  || match s with
     | [] => false
     | _ :: t => occurs_ci p t
     end.

(** The pattern literals of the source, as compiled above. *)
Definition source_patterns : list regex :=
  [re_script; re_async; re_defer; re_type_module; re_link_stylesheet; re_rel_preload;
   re_img; re_src; re_alt_value; re_width; re_height; re_loading; re_srcset; re_webp;
   re_avif; re_modern; re_iframe; re_loading_lazy; re_style_open; re_style_block;
   re_critical_css; re_preconnect; re_dns_prefetch; re_title; re_description;
   re_description_rev; re_h1_block; re_h2; re_canonical; re_og_title;
   re_og_description; re_og_image; re_og_url; re_twitter_card; re_alt; re_json_ld;
   re_microdata; re_html_lang; re_robots; re_noindex; re_internal_link; re_max_age;
   re_include_subdomains; re_unsafe_inline; re_script_src; re_unsafe_eval;
   re_http_resource; re_email; re_form; re_action_http; re_password_input;
   re_autocomplete; re_server_name; re_version; re_viewport; re_font_size;
   re_small_padding; re_picture; re_media; re_mobile_query; re_fixed_width;
   re_apple_touch_icon; re_favicon; re_manifest; re_theme_color; re_html_lang_value;
   re_input; re_non_text_type; re_id; re_aria_label; re_aria_labelledby; re_main;
   re_nav; re_header; re_footer; re_skip_anchor; re_skip_text; re_anchor; re_tag;
   re_outline_none; re_focus; re_light_color; re_table; re_th; re_div_onclick;
   re_span_onclick; re_positive_tabindex]
  ++ map snd re_heading.

Definition is_fallback (r : regex) : bool :=
  match r with
  | RClass false [] => true
  | _ => false
  end.

(** ** The doubles the weighted sum can take

    The category scores are integers from 0 to 100.  The sets below hold,
    for each prefix of the weighted sum, every double it can evaluate to,
    paired with the exact value of that prefix in hundredths.  They are
    computed once; that they are closed under adding one more term is
    checked in the properties. *)

Definition score_range : list Z := map Z.of_nat (seq 0 101).

Definition point := (double * Z)%type.

Definition double_eqb (x y : double) : bool :=
  match x, y with
  | S754_zero a, S754_zero b => Bool.eqb a b
  | S754_infinity a, S754_infinity b => Bool.eqb a b
  | S754_nan, S754_nan => true
  | S754_finite a m e, S754_finite b m' e' =>
    Bool.eqb a b && Pos.eqb m m' && Z.eqb e e'
  | _, _ => false
  end.

Definition point_eqb (p q : point) : bool :=
  Z.eqb (snd p) (snd q) && double_eqb (fst p) (fst q).

Definition bucket (e : Z) : positive := Z.to_pos (e + 1).
Definition point_set := PositiveMap.t (list point).

Definition mem (p : point) (m : point_set) : bool :=
  match PositiveMap.find (bucket (snd p)) m with
  | Some l => existsb (point_eqb p) l
  | None => false
  end.

Definition insert (p : point) (m : point_set) : point_set :=
  match PositiveMap.find (bucket (snd p)) m with
  | Some l => if existsb (point_eqb p) l then m
              else PositiveMap.add (bucket (snd p)) (p :: l) m
  | None => PositiveMap.add (bucket (snd p)) [p] m
  end.

Definition points (m : point_set) : list point :=
  flat_map snd (PositiveMap.elements m).

Definition term (c : double) (w : Z) (v : Z) : point := (d_mul (of_int v) c, w * v).
Definition plus (p t : point) : point := (d_add (fst p) (fst t), snd p + snd t).

Definition sums (ps : list point) (c : double) (w : Z) : point_set :=
  let ts := map (term c w) score_range in
  fold_left (fun acc p => fold_left (fun acc t => insert (plus p t) acc) ts acc)
            ps (PositiveMap.empty _).

Definition closed (ps : list point) (c : double) (w : Z) (m' : point_set) : bool :=
  let ts := map (term c w) score_range in
  forallb (fun p => forallb (fun t => mem (plus p t) m') ts) ps.

Definition reach1 : point_set := Eval vm_compute in
  sums (map (term d_0_25 25) score_range) d_0_25 25.
Definition reach2 : point_set := Eval vm_compute in sums (points reach1) d_0_20 20.
Definition reach3 : point_set := Eval vm_compute in sums (points reach2) d_0_15 15.
Definition reach4 : point_set := Eval vm_compute in sums (points reach3) d_0_15 15.

(** Rounding the double gives the exactly rounded value, or one less
    when the exact value is a tie. *)
Definition rounds_well (p : point) : bool :=
  match Math_round (fst p) with
  | Some t =>
    (t =? (snd p + 50) / 100)
    || ((snd p mod 100 =? 50) && (t =? (snd p + 50) / 100 - 1))
  | None => false
  end.

(* ================================================================== *)
(** * Vocabulary of the further properties *)
(* ================================================================== *)

(** ** Patterns *)

(** A pattern made of literal characters only. *)
Fixpoint is_literal (r : regex) : bool :=
  match r with
  | RChar _ => true
  | RSeq (RChar _) b => is_literal b
  | _ => false
  end.

(** The first group of a pattern, when it lies on the spine of the
    pattern and no other term has a group. *)
Fixpoint spine_group (r : regex) : option regex :=
  match r with
  | RGroup 1%nat g => Some g
  | RSeq (RGroup 1%nat g) b =>
    match groups_in b with [] => Some g | _ :: _ => None end
  | RSeq a b =>
    match groups_in a with [] => spine_group b | _ :: _ => None end
  | _ => None
  end.

Definition is_quote (c : char) : bool := N.eqb c 34%N || N.eqb c 39%N.

(** A quoted attribute value as the extractor captures it: not empty and
    without quote characters. *)
Definition quoted_value (v : jsstring) : Prop :=
  v <> [] /\ forallb (fun c => negb (is_quote c)) v = true.

Definition present_value (o : option jsstring) : Prop :=
  match o with
  | Some v => quoted_value v
  | None => True
  end.

(** ** The number in a CSS length, as the source reads it *)

Definition re_digits := Eval vm_compute in rx "\d+".

(** [parseInt(f.match(/\d+/)[0])] in the callbacks of the mobile analyzer:
    indexing the result of [match] throws [TypeError] when nothing
    matched. *)
Definition parseInt_first_digits (f : jsstring) : outcome N :=
  match search false re_digits f with
  | Some m => Ok (parseInt (matched m))
  | None => Throw TypeError
  end.

Definition digit_item (it : class_item) : bool :=
  match it with
  | CChar c => is_digit c
  | CRange lo hi => (48 <=? lo)%N && (hi <=? 57)%N
  | CDigit neg => negb neg
  | _ => false
  end.

(** [needs_digit r]: every text that [r] matches holds a decimal digit. *)
Fixpoint needs_digit (r : regex) : bool :=
  match r with
  | RClass false items => forallb digit_item items
  | RSeq a b => needs_digit a || needs_digit b
  | RAlt a b => needs_digit a && needs_digit b
  | RGroup _ a => needs_digit a
  | RRepeat (S _) None _ a => needs_digit a
  | _ => false
  end.

(** ** The [id] pasted into the pattern of a label *)

(** The syntax characters of a pattern. *)
Definition is_syntax_char (c : char) : bool :=
  is_ch "^" c || is_ch "$" c || is_ch "\" c || is_ch "." c || is_ch "*" c
  || is_ch "+" c || is_ch "?" c || is_ch "(" c || is_ch ")" c || is_ch "[" c
  || is_ch "]" c || is_ch "{" c || is_ch "}" c || is_ch "|" c.

(** An ASCII code unit that stands for itself in a pattern. *)
Definition is_literal_unit (c : char) : bool :=
  (c <? 128)%N && negb (is_syntax_char c).

(** Every [id] that [inputsWithoutLabel] pastes into a pattern is made of
    such units. *)
Definition plain_ids (html : jsstring) : bool :=
  forallb (fun input =>
             match search true re_id input with
             | Some idMatch => forallb is_literal_unit (the_group 1 idMatch)
             | None => true
             end)
          (textInputs html).

(** No input has both a [label] element and an ARIA label. *)
Definition no_labelled_aria_input (P : Platform) (html : jsstring) : bool :=
  forallb (fun input =>
             negb (has_aria_label input)
             || match lacks_label P html input with
                | Ok true => true
                | _ => false
                end)
          (textInputs html).

(** ** Response headers *)

(** The header collection with every name in lower case. *)
Definition lower_names (hs : Headers) : Headers :=
  map (fun kv => (toLowerCase (fst kv), snd kv)) hs.

(** The entries of [hs] whose name differs from [k], letter case apart. *)
Definition without_name (k : jsstring) (hs : Headers) : Headers :=
  filter (fun kv => negb (jsstring_eqb (toLowerCase (fst kv)) (toLowerCase k))) hs.

(** A finding that is a success or an issue of severity [info]. *)
Definition is_mild (f : Finding) : bool :=
  match severity f with
  | Some s => String.eqb s "info"
  | None => true
  end.

(** ** Pages and responses on which a score is lowest *)

Definition worst_seo_page : jsstring :=
  js "<img><img><img><img><img>" ++ repeat 32%N (50 * 100)%nat.

Definition worst_mobile_page : jsstring :=
  js ("<p style=`font-size:9px;padding:1px;width:1200px`>"
      ++ "<p style=`font-size:9px;padding:1px;width:1200px`>"
      ++ "<p style=`font-size:9px;padding:1px;width:1200px`>"
      ++ "<p style=`font-size:9px;padding:1px`><p style=`font-size:9px`>"
      ++ "<p style=`font-size:9px`><img><img><img><img><img><img>").

Definition worst_security_headers : Headers :=
  [(js "Server", js "Apache/2.4.41"); (js "X-Powered-By", js "PHP/7.4")].

Definition worst_security_page : jsstring :=
  js "<form action=`http://a.no/`>a@a.no b@a.no c@a.no d@a.no".

Definition worst_accessibility_page : jsstring :=
  repeat 32%N (100 * 100)%nat ++
  js ("<img><img><img><img><img><input><input><input><input><h2><h4>"
      ++ "<table><div onclick><div onclick><div onclick><p tabindex=`1`>"
      ++ "outline:none color:#fff color:#fff color:#fff color:#fff"
      ++ "<a>her</a><a>her</a><a>her</a><a>her</a>").

(** ** The result object *)

Definition min5 (a b c d e : Z) : Z := Z.min a (Z.min b (Z.min c (Z.min d e))).
Definition max5 (a b c d e : Z) : Z := Z.max a (Z.max b (Z.max c (Z.max d e))).

Definition category_ok (c : CategoryReport) (benchmark : Z) : Prop :=
  0 <= cat_score c <= 100
  /\ cat_status c = getStatus (cat_score c)
  /\ cat_benchmark c = benchmark.

Definition lowest_score (r : AnalysisResult) : Z :=
  min5 (cat_score (cat_performance r)) (cat_score (cat_seo r))
       (cat_score (cat_security r)) (cat_score (cat_mobile r))
       (cat_score (cat_accessibility r)).

Definition highest_score (r : AnalysisResult) : Z :=
  max5 (cat_score (cat_performance r)) (cat_score (cat_seo r))
       (cat_score (cat_security r)) (cat_score (cat_mobile r))
       (cat_score (cat_accessibility r)).

(** A request the handler answers before it parses or fetches anything
    further: [OPTIONS], a missing or empty [url], a [url] without a
    scheme. *)
Definition answered_at_once (req : Request) : bool :=
  jsstring_eqb (method req) (js "OPTIONS")
  || match query_url req with
     | Some (c :: t) => negb (has_scheme (c :: t))
     | _ => true
     end.

(** A request for a small page, and a platform that serves it. *)
Definition sample_request : Request :=
  {| method := js "GET"; query_url := Some (js "https://efffekt.no/") |}.

Definition sample_parse_url (url : jsstring) : option ParsedUrl :=
  Some {| protocol := js "https:" |}.

Definition sample_fetch (url : jsstring) : option Fetched :=
  Some {| fetched_responseTime := 180;
        fetched_headers := well_configured_headers;
        fetched_html :=
          js ("<html lang=`no`><head><title>EFFFEKT</title></head>"
              ++ "<body><h1>Hei</h1></body></html>") |}.

(** ** Image tags *)

(** Where a tag name ends: at white space, a slash or [>]. *)
Definition ends_tag_name (c : char) : bool :=
  is_space c || is_ch "/" c || is_ch ">" c.

(** The number of [<img>] tags of a text, as C7 reads them: the places
    where [<img], in any letter case, is followed by the end of the tag
    name. *)
Fixpoint img_tag_count (html : jsstring) : Z :=
  match html with
  | [] => 0
  | _ :: t =>
    (if starts_with_ci (js "<img") html
        && match skipn 4 html with
           | c :: _ => ends_tag_name c
           | [] => false
           end
     then 1 else 0)
    + img_tag_count t
  end.

(** A page with two custom elements whose names begin with [img]. *)
Definition custom_elements_page : jsstring :=
  js ("<imgur-embed></imgur-embed>"
      ++ "<img-comparison-slider></img-comparison-slider>").

(** ** What an analyzer ends in *)

(** [returned x Q]: [x] is a result that satisfies [Q], or a throw. *)
Definition returned {A} (x : outcome A) (Q : A -> Prop) : Prop :=
  match x with
  | Ok a => Q a
  | Throw _ => True
  | Unmodelled => False
  end.

(** A platform that rejects every text, and one that accepts every text. *)
Definition strict_platform : Platform :=
  {| native_RegExp := fun _ _ => None; native_hostname := fun _ => None |}.

Definition lenient_platform : Platform :=
  {| native_RegExp := fun _ _ => Some (fun _ => false);
     native_hostname := fun _ => Some (js "efffekt.no") |}.

(** A page with an input whose [id] is not ASCII. *)
Definition search_form_page : jsstring :=
  js "<form><input type=`text` id=`s" ++ [248%N] ++ js "k`></form>".

(* ================================================================== *)
(** * Properties *)
(* ================================================================== *)

Lemma jsstring_eqb_eq a b : jsstring_eqb a b = true <-> a = b.
Proof.
  unfold jsstring_eqb. destruct (list_eq_dec N.eq_dec a b); split; congruence.
Qed.

(** ** What [run] computes *)

Lemma deductions_app a b : deductions (a ++ b) = deductions a + deductions b.
Proof. induction a as [|[n|f|f] a IH]; cbn [app deductions]; lia. Qed.

Lemma pushed_details_app a b :
  pushed_details (a ++ b) = pushed_details a ++ pushed_details b.
Proof.
  induction a as [|[n|f|f] a IH]; cbn [app pushed_details]; congruence.
Qed.

Lemma pushed_issues_app a b :
  pushed_issues (a ++ b) = pushed_issues a ++ pushed_issues b.
Proof.
  induction a as [|[n|f|f] a IH]; cbn [app pushed_issues]; congruence.
Qed.

Lemma fold_exec es : forall l,
  fold_left exec es l =
  {| l_score := l_score l - deductions es;
     l_details := l_details l ++ pushed_details es;
     l_issues := l_issues l ++ pushed_issues es |}.
Proof.
  induction es as [|e es IH]; intros [s d i]; cbn [fold_left deductions pushed_details pushed_issues l_score l_details l_issues].
  - rewrite !app_nil_r. f_equal. lia.
  - rewrite IH. destruct e; cbn [exec l_score l_details l_issues deductions pushed_details pushed_issues];
      rewrite <- ?app_assoc; cbn [app]; f_equal; lia.
Qed.

Lemma run_spec es :
  run es = {| l_score := 100 - deductions es;
              l_details := pushed_details es;
              l_issues := pushed_issues es |}.
Proof. unfold run. rewrite fold_exec. reflexivity. Qed.

Lemma score_finish M es (m : M) :
  score (finish es m) = Z.max 0 (Z.min 100 (100 - deductions es)).
Proof. unfold finish. rewrite run_spec. reflexivity. Qed.

Lemma details_finish M es (m : M) :
  details (finish es m) = pushed_details es ++ pushed_issues es.
Proof. unfold finish. rewrite run_spec. reflexivity. Qed.

Lemma score_finish_range M es (m : M) : 0 <= score (finish es m) <= 100.
Proof. rewrite score_finish. lia. Qed.

(** Case analysis on the conditions of a rule, leaving the patterns and
    the matcher folded. *)
Ltac rule_cases :=
  repeat match goal with
         | |- context [match ?x with _ => _ end] => destruct x eqn:?
         end;
  cbn [deductions pushed_details pushed_issues pushed app] in *.

Ltac to_Z_facts :=
  repeat match goal with
         | H : (_ <? _) = true |- _ => apply Z.ltb_lt in H
         | H : (_ <? _) = false |- _ => apply Z.ltb_ge in H
         | H : (_ <=? _) = true |- _ => apply Z.leb_le in H
         | H : (_ <=? _) = false |- _ => apply Z.leb_gt in H
         | H : (_ =? _) = true |- _ => apply Z.eqb_eq in H
         | H : (_ =? _) = false |- _ => apply Z.eqb_neq in H
         end.

Ltac rule_bound := rule_cases; to_Z_facts; lia.

(** ** Security rules: what each may deduct *)

Lemma sec_protocol_deducts url :
  deductions (sec_protocol url) = if is_https url then 0 else 30.
Proof. unfold sec_protocol. destruct (is_https url); reflexivity. Qed.

Lemma sec_hsts_rule_bounds hs : 0 <= deductions (sec_hsts_rule hs) <= 12.
Proof. unfold sec_hsts_rule. rule_bound. Qed.

Lemma sec_csp_rule_bounds hs : 0 <= deductions (sec_csp_rule hs) <= 10.
Proof. unfold sec_csp_rule. rule_bound. Qed.

Lemma sec_frame_rule_bounds hs : 0 <= deductions (sec_frame_rule hs) <= 8.
Proof. unfold sec_frame_rule. rule_bound. Qed.

Lemma sec_content_type_rule_bounds hs :
  0 <= deductions (sec_content_type_rule hs) <= 6.
Proof. unfold sec_content_type_rule. rule_bound. Qed.

Lemma sec_referrer_rule_bounds hs : 0 <= deductions (sec_referrer_rule hs) <= 4.
Proof. unfold sec_referrer_rule. rule_bound. Qed.

Lemma sec_permissions_rule_bounds hs :
  0 <= deductions (sec_permissions_rule hs) <= 4.
Proof. unfold sec_permissions_rule. rule_bound. Qed.

Lemma sec_xss_rule_bounds hs : 0 <= deductions (sec_xss_rule hs) <= 2.
Proof. unfold sec_xss_rule. rule_bound. Qed.

Lemma sec_mixed_content_bounds url html :
  0 <= deductions (sec_mixed_content url html) <= if is_https url then 5 else 0.
Proof.
  unfold sec_mixed_content.
  destruct (is_https url); rewrite ?andb_false_r, ?andb_true_r; rule_bound.
Qed.

Lemma sec_emails_bounds html : 0 <= deductions (sec_emails html) <= 2.
Proof. unfold sec_emails. rule_bound. Qed.

Lemma sec_forms_bounds html : 0 <= deductions (sec_forms html) <= 8.
Proof. unfold sec_forms. rule_bound. Qed.

Lemma sec_passwords_deducts html : deductions (sec_passwords html) = 0.
Proof. unfold sec_passwords. rule_bound. Qed.

Lemma sec_disclosure_bounds hs : 0 <= deductions (sec_disclosure hs) <= 4.
Proof. unfold sec_disclosure. rewrite deductions_app. rule_bound. Qed.

Lemma sec_effects_deductions url hs html :
  deductions (sec_effects url hs html) =
  deductions (sec_protocol url) + deductions (sec_hsts_rule hs)
  + deductions (sec_csp_rule hs) + deductions (sec_frame_rule hs)
  + deductions (sec_content_type_rule hs) + deductions (sec_referrer_rule hs)
  + deductions (sec_permissions_rule hs) + deductions (sec_xss_rule hs)
  + deductions (sec_mixed_content url html) + deductions (sec_emails html)
  + deductions (sec_forms html) + deductions (sec_passwords html)
  + deductions (sec_disclosure hs).
Proof. unfold sec_effects. rewrite !deductions_app. lia. Qed.

Lemma http_is_not_https url : protocol url = js "http:" -> is_https url = false.
Proof. unfold is_https. intros ->. reflexivity. Qed.

(** ** Security analyzer *)

(** C5. When the protocol of the parsed URL is [http:], the security score
    is at most 70, whatever the headers and the HTML are: the HTTPS rule
    deducts 30 and no rule adds to the score. *)
Theorem http_security_score_at_most_70 url hs html :
  protocol url = js "http:" ->
  score (analyzeSecurity url hs html) <= 70.
Proof.
  intros Hhttp. unfold analyzeSecurity.
  rewrite score_finish, sec_effects_deductions, sec_protocol_deducts.
  rewrite (http_is_not_https url Hhttp), sec_passwords_deducts.
  pose proof (sec_hsts_rule_bounds hs). pose proof (sec_csp_rule_bounds hs).
  pose proof (sec_frame_rule_bounds hs).
  pose proof (sec_content_type_rule_bounds hs).
  pose proof (sec_referrer_rule_bounds hs).
  pose proof (sec_permissions_rule_bounds hs). pose proof (sec_xss_rule_bounds hs).
  pose proof (sec_mixed_content_bounds url html).
  pose proof (sec_emails_bounds html). pose proof (sec_forms_bounds html).
  pose proof (sec_disclosure_bounds hs).
  destruct (is_https url); lia.
Qed.

Lemma http_security_score_at_most_70_witness :
  protocol {| protocol := js "http:" |} = js "http:" /\
  score (analyzeSecurity {| protocol := js "http:" |} well_configured_headers
                         (js "<html lang=`no`><body>Hei</body></html>")) <= 70.
Proof.
  split; [reflexivity|].
  apply (http_security_score_at_most_70 {| protocol := js "http:" |}).
  reflexivity.
Defined.

Lemma no_security_headers_nil : no_security_headers [].
Proof.
  intros name Hin. unfold security_header_names in Hin. cbn [In] in Hin.
  repeat (destruct Hin as [<-|Hin]; [reflexivity|]). contradiction.
Qed.

Lemma no_security_headers_lookups hs :
  no_security_headers hs ->
  header hs "strict-transport-security" = None
  /\ header hs "content-security-policy" = None
  /\ header hs "x-frame-options" = None
  /\ header hs "x-content-type-options" = None
  /\ header hs "referrer-policy" = None
  /\ header hs "permissions-policy" = None
  /\ header hs "feature-policy" = None
  /\ header hs "x-xss-protection" = None.
Proof.
  intros H. repeat split; apply H; unfold security_header_names;
    repeat (first [left; reflexivity | right]).
Qed.

(** C6, as stated, fails: on an HTTPS page without any response header
    whose HTML has a form posting to an [http://] address, the mixed
    content rule and the form rule deduct as well. *)
Lemma no_security_headers_score_counterexample :
  no_security_headers [] /\
  score (analyzeSecurity {| protocol := js "https:" |} []
                         (js "<form action=`http://pay.example/`>"))
  <> missing_headers_only_score {| protocol := js "https:" |}.
Proof.
  split; [exact no_security_headers_nil|].
  vm_compute. discriminate.
Qed.

Lemma count_pos_existsb {A} (p : A -> bool) l : (0 <? count p l) = existsb p l.
Proof.
  unfold count, size. induction l as [|a l IH]; [reflexivity|].
  cbn [filter existsb]. destruct (p a); [|exact IH].
  cbn [length orb]. apply Z.ltb_lt. lia.
Qed.

Lemma content_rules_deduct url hs html :
  deductions (sec_mixed_content url html)
  = (if is_https url && loads_over_http html then 5 else 0)
  /\ deductions (sec_emails html) = (if shows_emails html then 2 else 0)
  /\ deductions (sec_forms html) = (if posts_over_http html then 8 else 0)
  /\ deductions (sec_disclosure hs)
     = (if shows_server_version hs then 2 else 0)
       + (if shows_technology hs then 2 else 0).
Proof.
  split; [|split; [|split]].
  - unfold sec_mixed_content, loads_over_http, size.
    destruct (match_g true re_http_resource html); cbn [length];
      destruct (is_https url); reflexivity.
  - unfold sec_emails, shows_emails, size.
    destruct (Nat.ltb_spec 3 (length (match_g false re_email html)));
      destruct (Z.ltb_spec 3 (Z.of_nat (length (match_g false re_email html))));
      try reflexivity; lia.
  - unfold sec_forms, posts_over_http. rewrite count_pos_existsb.
    destruct (existsb _ _); reflexivity.
  - unfold sec_disclosure, shows_server_version, shows_technology.
    rewrite deductions_app.
    destruct (header hs "server") as [[|c t]|];
      destruct (header hs "x-powered-by") as [[|c' t']|]; cbn [truthy];
      try reflexivity;
      destruct (test true re_server_name (c :: t) && test true re_version (c :: t));
      reflexivity.
Qed.

(** C6, amended.  Without security headers the four header metrics are
    false.  The score is 100 less 46 for the seven missing headers, less
    30 when the protocol is not HTTPS, and less what the rules that read
    no security header deduct: 5 for an [http://] address in the HTML of
    an HTTPS page, 2 for more than three e-mail addresses, 8 for a form
    that posts to [http://], 2 for a [Server] header with a version, 2
    for an [X-Powered-By] header.  It is at least 10, so never clamped,
    and it is the score the claim states when none of those five rules
    deducts. *)
Theorem no_security_headers_score url hs html :
  no_security_headers hs ->
  let r := analyzeSecurity url hs html in
  sec_hsts (metrics r) = false /\ sec_csp (metrics r) = false /\
  sec_xfo (metrics r) = false /\ sec_xcto (metrics r) = false /\
  score r = 100 - (12 + 10 + 8 + 6 + 4 + 4 + 2)
            - (if is_https url then 0 else 30)
            - (if is_https url && loads_over_http html then 5 else 0)
            - (if shows_emails html then 2 else 0)
            - (if posts_over_http html then 8 else 0)
            - (if shows_server_version hs then 2 else 0)
            - (if shows_technology hs then 2 else 0) /\
  10 <= score r /\
  (is_https url && loads_over_http html = false ->
   shows_emails html = false -> posts_over_http html = false ->
   shows_server_version hs = false -> shows_technology hs = false ->
   score r = missing_headers_only_score url).
Proof.
  intros Hno r.
  destruct (no_security_headers_lookups Hno)
    as (H1 & H2 & H3 & H4 & H5 & H6 & H7 & H8).
  destruct (content_rules_deduct url hs html) as (C1 & C2 & C3 & C4).
  assert (Hscore :
    score r = 100 - (12 + 10 + 8 + 6 + 4 + 4 + 2)
              - (if is_https url then 0 else 30)
              - (if is_https url && loads_over_http html then 5 else 0)
              - (if shows_emails html then 2 else 0)
              - (if posts_over_http html then 8 else 0)
              - (if shows_server_version hs then 2 else 0)
              - (if shows_technology hs then 2 else 0)).
  { unfold r, analyzeSecurity.
    rewrite score_finish, sec_effects_deductions, sec_protocol_deducts,
      sec_passwords_deducts, C1, C2, C3, C4.
    unfold sec_hsts_rule, sec_csp_rule, sec_frame_rule, sec_content_type_rule,
      sec_referrer_rule, sec_permissions_rule, sec_xss_rule.
    rewrite H1, H2, H3, H4, H5, H6, H7, H8.
    cbn [truthy negb andb orb deductions].
    destruct (is_https url), (loads_over_http html), (shows_emails html),
      (posts_over_http html), (shows_server_version hs), (shows_technology hs);
      cbn [andb]; lia. }
  assert (Hm : metrics r =
               {| sec_https := is_https url;
                  sec_hsts := truthy (header hs "strict-transport-security");
                  sec_csp := truthy (header hs "content-security-policy");
                  sec_xfo := truthy (header hs "x-frame-options");
                  sec_xcto := truthy (header hs "x-content-type-options") |})
    by reflexivity.
  rewrite Hm. cbn [sec_hsts sec_csp sec_xfo sec_xcto].
  rewrite H1, H2, H3, H4. cbn [truthy].
  split; [reflexivity|]. split; [reflexivity|]. split; [reflexivity|].
  split; [reflexivity|]. split; [exact Hscore|]. split.
  - rewrite Hscore.
    destruct (is_https url), (loads_over_http html), (shows_emails html),
      (posts_over_http html), (shows_server_version hs), (shows_technology hs);
      cbn [andb]; lia.
  - intros E1 E2 E3 E4 E5. rewrite Hscore, E1, E2, E3, E4, E5.
    unfold missing_headers_only_score. destruct (is_https url); lia.
Qed.

Lemma no_security_headers_score_witness :
  no_security_headers [(js "Server", js "nginx/1.18.0")] /\
  score (analyzeSecurity {| protocol := js "https:" |}
                         [(js "Server", js "nginx/1.18.0")]
                         (js "<form action=`http://pay.example/`>")) = 39.
Proof.
  assert (Hno : no_security_headers [(js "Server", js "nginx/1.18.0")]).
  { intros name Hin. unfold security_header_names in Hin. cbn [In] in Hin.
    repeat (destruct Hin as [<-|Hin]; [reflexivity|]). contradiction. }
  split; [exact Hno|].
  destruct (@no_security_headers_score {| protocol := js "https:" |} _
              (js "<form action=`http://pay.example/`>") Hno)
    as (_ & _ & _ & _ & Hs & _).
  rewrite Hs. vm_compute. reflexivity.
Defined.

(** C10, as stated, fails.  A header that is present with an empty value
    has no [max-age] directive, and the analyzer treats it as missing and
    deducts 12; and in [includeSubDomains; x-max-age=5] no directive is
    named [max-age], but the pattern of the analyzer finds [max-age=5]
    inside the name of another directive, and the analyzer deducts 4.
    Neither gets the success finding. *)
Lemma hsts_without_max_age_counterexample :
  (header [(js "Strict-Transport-Security", [])] "strict-transport-security" = Some []
   /\ has_directive "max-age" [] = false
   /\ ~ hsts_counts_as_configured [(js "Strict-Transport-Security", [])]
   /\ deductions (sec_hsts_rule [(js "Strict-Transport-Security", [])]) = 12)
  /\ (header [(js "Strict-Transport-Security", js "includeSubDomains; x-max-age=5")]
             "strict-transport-security" = Some (js "includeSubDomains; x-max-age=5")
      /\ has_directive "max-age" (js "includeSubDomains; x-max-age=5") = false
      /\ ~ hsts_counts_as_configured
            [(js "Strict-Transport-Security", js "includeSubDomains; x-max-age=5")]
      /\ deductions
           (sec_hsts_rule
              [(js "Strict-Transport-Security", js "includeSubDomains; x-max-age=5")])
         = 4).
Proof.
  split; (split; [reflexivity|]; split; [reflexivity|]; split; [|reflexivity]);
    intros [Hd _]; vm_compute in Hd; discriminate.
Qed.

(** C10, amended.  What the analyzer makes of a [Strict-Transport-Security]
    header that is present depends on its value and on the pattern
    [max-age=(\d+)], which is looked for anywhere in the value, letter
    case apart.  An empty value is treated as a missing header: 12 is
    deducted and there is no success finding.  A value in which the
    pattern finds nothing gets the success finding and no deduction.  A
    value in which it finds a number gets the success finding and no
    deduction when the number is at least 31536000, and a deduction of 4
    and no success finding when it is less. *)
Theorem hsts_rule_on_a_present_header url hs html v :
  header hs "strict-transport-security" = Some v ->
  let configured :=
    deductions (sec_hsts_rule hs) = 0
    /\ pushed_details (sec_hsts_rule hs) = [success (js "HSTS er korrekt konfigurert")]
    /\ In (success (js "HSTS er korrekt konfigurert"))
          (details (analyzeSecurity url hs html)) in
  match v with
  | [] => deductions (sec_hsts_rule hs) = 12 /\ pushed_details (sec_hsts_rule hs) = []
  | _ :: _ =>
    match search true re_max_age v with
    | None => configured
    | Some maxAge =>
      if (parseInt (the_group 1 maxAge) <? 31536000)%N
      then deductions (sec_hsts_rule hs) = 4 /\ pushed_details (sec_hsts_rule hs) = []
      else configured
    end
  end.
Proof.
  intros Hh configured.
  assert (Hin : pushed_details (sec_hsts_rule hs)
                = [success (js "HSTS er korrekt konfigurert")] ->
                In (success (js "HSTS er korrekt konfigurert"))
                   (details (analyzeSecurity url hs html))).
  { intros Hp. unfold analyzeSecurity. rewrite details_finish. unfold sec_effects.
    rewrite !pushed_details_app, Hp.
    apply in_or_app. left. apply in_or_app. right. apply in_or_app. left.
    left. reflexivity. }
  unfold configured. revert Hin. unfold sec_hsts_rule. rewrite Hh.
  destruct v as [|c t]; [intros _; split; reflexivity|].
  destruct (search true re_max_age (c :: t)) as [maxAge|].
  - destruct (parseInt (the_group 1 maxAge) <? 31536000)%N;
      destruct (test true re_include_subdomains (c :: t)); intros Hin;
      repeat split; try reflexivity; apply Hin; reflexivity.
  - destruct (test true re_include_subdomains (c :: t)); intros Hin;
      repeat split; try reflexivity; apply Hin; reflexivity.
Qed.

Lemma hsts_rule_on_a_present_header_witness :
  header [(js "Strict-Transport-Security", js "includeSubDomains; preload")]
         "strict-transport-security" = Some (js "includeSubDomains; preload") /\
  In (success (js "HSTS er korrekt konfigurert"))
     (details (analyzeSecurity {| protocol := js "https:" |}
                 [(js "Strict-Transport-Security", js "includeSubDomains; preload")]
                 (js "<html></html>"))).
Proof.
  assert (H1 : header [(js "Strict-Transport-Security", js "includeSubDomains; preload")]
                      "strict-transport-security" = Some (js "includeSubDomains; preload"))
    by reflexivity.
  split; [exact H1|].
  exact (proj2 (proj2 (@hsts_rule_on_a_present_header
                         {| protocol := js "https:" |} _ (js "<html></html>") _ H1))).
Defined.


(** ** The matcher *)

Local Open Scope nat_scope.

Lemma is_suffix_refl s : is_suffix s s.
Proof. exists []. reflexivity. Qed.

Lemma is_suffix_trans a b c : is_suffix a b -> is_suffix b c -> is_suffix a c.
Proof.
  intros [p ->] [q ->]. exists (q ++ p). now rewrite app_assoc.
Qed.

Lemma is_suffix_length s t : is_suffix s t -> length s <= length t.
Proof. intros [p ->]. rewrite length_app. lia. Qed.

Lemma is_suffix_Forall (P : char -> Prop) s t :
  is_suffix s t -> Forall P t -> Forall P s.
Proof. intros [p ->] H. apply Forall_app in H. tauto. Qed.

Lemma step_suffix x ok y : In y (step x ok) -> is_suffix (rest y) (rest x).
Proof.
  unfold step. destruct (rest x) as [|c t]; [contradiction|].
  destruct (ok c); [|contradiction].
  intros [<-|[]]. exists [c]. reflexivity.
Qed.

Lemma repeat_match_suffix body gs greedy :
  (forall x y, In y (body x) -> is_suffix (rest y) (rest x)) ->
  forall fuel min max x y,
    In y (repeat_match body gs greedy fuel min max x) ->
    is_suffix (rest y) (rest x).
Proof.
  intros Hbody. induction fuel as [|f IH]; intros min max x y Hin; [contradiction|].
  cbn [repeat_match] in Hin.
  assert (Hiter : forall z,
    In z (flat_map
            (fun y0 =>
               if Nat.eqb min 0 && Nat.eqb (length (rest y0)) (length (rest x))
               then []
               else repeat_match body gs greedy f (Nat.pred min)
                                 (option_map Nat.pred max) y0)
            (body (MState (prev x) (rest x) (drop_caps gs (caps x))))) ->
    is_suffix (rest z) (rest x)).
  { intros z Hz. apply in_flat_map in Hz. destruct Hz as (w & Hw & Hz).
    apply Hbody in Hw. cbn [rest] in Hw.
    destruct (Nat.eqb min 0 && Nat.eqb (length (rest w)) (length (rest x)));
      [contradiction|].
    apply IH in Hz. eapply is_suffix_trans; eassumption. }
  assert (Hx : forall z, In z [x] -> is_suffix (rest z) (rest x)).
  { intros z [<-|[]]. apply is_suffix_refl. }
  destruct max as [[|k]|]; try (apply Hx; assumption);
    destruct (Nat.eqb min 0); try destruct greedy;
    try (apply Hiter; assumption);
    try (apply in_app_or in Hin; destruct Hin; [apply Hiter|apply Hx]; assumption);
    try (destruct Hin as [<-|Hin]; [apply is_suffix_refl|apply Hiter; assumption]).
Qed.

(** Matching only moves forward: every state the matcher returns is at a
    suffix of the text it started from. *)
Lemma rmatch_suffix i r : forall x y,
  In y (rmatch i r x) -> is_suffix (rest y) (rest x).
Proof.
  induction r as [| c | | neg items | a IHa b IHb | a IHa b IHb
                  | min max greedy a IHa | n a IHa | neg a IHa | | | neg];
    intros x y Hin; cbn [rmatch] in Hin.
  - destruct Hin as [<-|[]]. apply is_suffix_refl.
  - eapply step_suffix; eassumption.
  - eapply step_suffix; eassumption.
  - eapply step_suffix; eassumption.
  - apply in_flat_map in Hin. destruct Hin as (z & Hz & Hy).
    eapply is_suffix_trans; [apply IHb|apply IHa]; eassumption.
  - apply in_app_or in Hin. destruct Hin; [apply IHa|apply IHb]; assumption.
  - eapply repeat_match_suffix; [exact IHa|eassumption].
  - apply in_map_iff in Hin. destruct Hin as (z & <- & Hz). cbn [rest].
    apply IHa. assumption.
  - destruct (rmatch i a x) as [|z l]; destruct neg;
      try contradiction; destruct Hin as [<-|[]]; apply is_suffix_refl.
  - destruct (prev x); [contradiction|]. destruct Hin as [<-|[]].
    apply is_suffix_refl.
  - destruct (rest x) eqn:E; [|contradiction]. destruct Hin as [<-|[]].
    rewrite E. apply is_suffix_refl.
  - destruct (xorb neg _); [|contradiction]. destruct Hin as [<-|[]].
    apply is_suffix_refl.
Qed.

Lemma flat_map_agree {A B} (f g : A -> list B) l :
  (forall a, In a l -> f a = g a) -> flat_map f l = flat_map g l.
Proof.
  induction l as [|a l IH]; intros H; [reflexivity|].
  cbn [flat_map]. rewrite (H a (or_introl eq_refl)), IH; [reflexivity|].
  intros b Hb. apply H. right. assumption.
Qed.

(** The fuel of [repeat_match] is never exhausted: any amount above
    [min + length (rest x)] gives the same matches. *)
Lemma repeat_match_fuel body gs greedy :
  (forall x y, In y (body x) -> is_suffix (rest y) (rest x)) ->
  forall f1 f2 min max x,
    min + length (rest x) < f1 -> min + length (rest x) < f2 ->
    repeat_match body gs greedy f1 min max x
    = repeat_match body gs greedy f2 min max x.
Proof.
  intros Hbody. induction f1 as [|f1 IH]; intros f2 min max x H1 H2; [lia|].
  destruct f2 as [|f2]; [lia|]. cbn [repeat_match].
  assert (Hiter :
    flat_map
      (fun y0 =>
         if Nat.eqb min 0 && Nat.eqb (length (rest y0)) (length (rest x))
         then []
         else repeat_match body gs greedy f1 (Nat.pred min)
                           (option_map Nat.pred max) y0)
      (body (MState (prev x) (rest x) (drop_caps gs (caps x))))
    = flat_map
      (fun y0 =>
         if Nat.eqb min 0 && Nat.eqb (length (rest y0)) (length (rest x))
         then []
         else repeat_match body gs greedy f2 (Nat.pred min)
                           (option_map Nat.pred max) y0)
      (body (MState (prev x) (rest x) (drop_caps gs (caps x))))).
  { apply flat_map_agree. intros w Hw. apply Hbody in Hw. cbn [rest] in Hw.
    apply is_suffix_length in Hw.
    destruct (Nat.eqb min 0) eqn:Emin; cbn [andb].
    - destruct (Nat.eqb (length (rest w)) (length (rest x))) eqn:Elen;
        [reflexivity|].
      apply Nat.eqb_eq in Emin. apply Nat.eqb_neq in Elen. subst min.
      apply IH; cbn [Nat.pred]; lia.
    - apply Nat.eqb_neq in Emin. apply IH; lia. }
  rewrite Hiter. reflexivity.
Qed.

Lemma flat_map_nil {A B} (f : A -> list B) l :
  (forall a, In a l -> f a = []) -> flat_map f l = [].
Proof.
  induction l as [|a l IH]; intros H; [reflexivity|].
  cbn [flat_map]. rewrite (H a (or_introl eq_refl)), IH; [reflexivity|].
  intros b Hb. apply H. right. assumption.
Qed.

Lemma rmatch_seq_char i c r x :
  rmatch i (RSeq (RChar c) r) x =
  match rest x with
  | ch :: t => if char_eq i c ch then rmatch i r (MState (Some ch) t (caps x)) else []
  | [] => []
  end.
Proof.
  cbn [rmatch]. unfold step. destruct (rest x) as [|ch t]; [reflexivity|].
  destruct (char_eq i c ch); [|reflexivity]. cbn [flat_map]. apply app_nil_r.
Qed.

(** A pattern that ends with a character cannot match a text in which
    that character does not occur. *)
Lemma rmatch_needs_last_char i a c x :
  Forall (fun ch => char_eq i c ch = false) (rest x) ->
  rmatch i (RSeq a (RChar c)) x = [].
Proof.
  intros Hno. cbn [rmatch]. apply flat_map_nil. intros y Hy.
  apply rmatch_suffix in Hy. pose proof (is_suffix_Forall Hy Hno) as Hy'.
  unfold step. destruct (rest y) as [|ch t]; [reflexivity|].
  inversion Hy' as [|? ? Hc _]. rewrite Hc. reflexivity.
Qed.

Lemma drop_caps_nil cs : drop_caps [] cs = cs.
Proof.
  unfold drop_caps. induction cs as [|p cs IH]; [reflexivity|].
  cbn in *. now rewrite IH.
Qed.

(** ** The script pattern never captures the [src] *)

Lemma class_not_gt c : xorb true (class_mem true [CChar 62%N] c) = not_gt c.
Proof.
  unfold class_mem, not_gt. cbn [existsb in_item andb orb xorb].
  rewrite orb_false_r.
  assert (Hs : N.eqb 62%N (swap_case c) = N.eqb 62%N c).
  { destruct (N.eqb_spec 62%N (swap_case c)) as [E|E], (N.eqb_spec 62%N c) as [E'|E'];
      try reflexivity; exfalso; revert E;
      unfold swap_case, is_lower, is_upper, between;
      destruct (N.leb_spec 97 c), (N.leb_spec c 122), (N.leb_spec 65 c),
        (N.leb_spec c 90); cbn [andb]; lia. }
  rewrite Hs, orb_diag, (N.eqb_sym 62%N c). reflexivity.
Qed.

Lemma char_gt_eq c : char_eq true 62%N c = N.eqb c 62%N.
Proof.
  unfold char_eq.
  destruct (N.eqb_spec (upper_ascii 62%N) (upper_ascii c)) as [E|E],
    (N.eqb_spec c 62%N) as [E'|E']; try reflexivity; exfalso; revert E;
    unfold upper_ascii, is_lower, between;
    destruct (N.leb_spec 97 c), (N.leb_spec c 122); cbn; lia.
Qed.

(** A greedy run of one character class: its first match is the longest
    run of characters of the class, and it leaves the captures alone. *)
Lemma greedy_run_head body (ok : char -> bool) :
  (forall x, body x = step x ok) ->
  forall s p cs fuel,
    length s < fuel ->
    exists y l,
      repeat_match body [] true fuel 0 None (MState p s cs) = y :: l
      /\ caps y = cs /\ rest y = drop_while ok s.
Proof.
  intros Hbody.
  induction s as [|c t IH]; intros p cs fuel Hf;
    (destruct fuel as [|f]; [cbn [length] in Hf; lia|]);
    cbn [repeat_match]; rewrite Hbody; unfold step;
    cbn [prev rest caps Nat.eqb andb].
  - cbn [flat_map app]. eexists _, _. repeat split.
  - rewrite drop_caps_nil. cbn [drop_while]. destruct (ok c) eqn:Ec.
    + cbn [flat_map rest length].
      assert (Hne : Nat.eqb (length t) (S (length t)) = false)
        by (apply Nat.eqb_neq; lia).
      rewrite Hne. cbn [Nat.pred option_map].
      destruct (IH (Some c) cs f) as (y & l & Hy & Hc & Hr);
        [cbn [length] in Hf; lia|].
      rewrite Hy. cbn [app]. eexists _, _. repeat split; eassumption.
    + cbn [flat_map app]. eexists _, _. repeat split.
Qed.

Lemma drop_while_nil (p : char -> bool) s :
  drop_while p s = [] -> Forall (fun c => p c = true) s.
Proof.
  induction s as [|c t IH]; cbn [drop_while]; intros H; [constructor|].
  destruct (p c) eqn:E; [|discriminate]. constructor; auto.
Qed.

Lemma drop_while_head (p : char -> bool) s c t :
  drop_while p s = c :: t -> p c = false.
Proof.
  induction s as [|d u IH]; cbn [drop_while]; intros H; [discriminate|].
  destruct (p d) eqn:E; [auto|]. congruence.
Qed.

Lemma rmatch_seq_nil i a b x :
  (forall y, In y (rmatch i a x) -> rmatch i b y = []) ->
  rmatch i (RSeq a b) x = [].
Proof. intros H. cbn [rmatch]. apply flat_map_nil. exact H. Qed.

Lemma script_attributes_no_capture x y l :
  caps x = [] ->
  rmatch true script_attributes x = y :: l ->
  caps y = [].
Proof.
  intros Hc Hm. unfold script_attributes in Hm.
  remember (RSeq (RRepeat 0 (Some 1) true _) _) as K eqn:EK in Hm.
  cbn [rmatch] in Hm.
  destruct x as [p s cs]. cbn [caps] in Hc. subst cs. cbn [rest] in Hm.
  destruct (@greedy_run_head (rmatch true (RClass true [CChar 62%N]))
              (fun c => xorb true (class_mem true [CChar 62%N] c))
              (fun x => eq_refl) s p [] (S (0 + length s)))
    as (y0 & l0 & Hy0 & Hcaps & Hrest); [lia|].
  cbn [groups_in] in Hm. cbn [rmatch] in Hy0. rewrite Hy0 in Hm.
  cbn [flat_map] in Hm.
  destruct (drop_while (fun c => xorb true (class_mem true [CChar 62%N] c)) s)
    as [|c t] eqn:Ed.
  - (* no [>] at all: nothing matches *)
    exfalso. apply drop_while_nil in Ed.
    assert (Hall : forall z, In z (y0 :: l0) -> rmatch true K z = []).
    { intros z Hz. rewrite <- Hy0 in Hz.
      eapply repeat_match_suffix in Hz;
        [|intros ? ? Hstep; eapply step_suffix; exact Hstep].
      cbn [rest] in Hz.
      pose proof (is_suffix_Forall Hz Ed) as Hz'.
      subst K. apply rmatch_seq_nil. intros w Hw.
      apply (rmatch_suffix true) in Hw.
      pose proof (is_suffix_Forall Hw Hz') as Hw'.
      apply rmatch_needs_last_char.
      eapply Forall_impl; [|exact Hw']. intros ch Hch. cbn beta in Hch.
      rewrite class_not_gt in Hch. rewrite char_gt_eq. unfold not_gt in Hch.
      now destruct (N.eqb ch 62%N). }
    rewrite (Hall y0 (or_introl eq_refl)) in Hm. cbn [app] in Hm.
    rewrite (flat_map_nil _ l0) in Hm; [discriminate|].
    intros z Hz. apply Hall. right. assumption.
  - (* the run stops at a [>]: the optional group is skipped *)
    apply drop_while_head in Ed as Hgt. rewrite class_not_gt in Hgt.
    unfold not_gt in Hgt.
    apply negb_false_iff, N.eqb_eq in Hgt. subst c.
    destruct y0 as [p0 s0 c0]. cbn [caps rest] in Hcaps, Hrest. subst c0 s0.
    subst K. cbn in Hm. injection Hm as <- _. reflexivity.
Qed.

Lemma re_script_no_capture p s m :
  exec_at true re_script p s = Some m -> captures m = [].
Proof.
  unfold exec_at.
  destruct (rmatch true re_script (MState p s [])) as [|y l] eqn:Hm;
    [discriminate|].
  intros [= <-]. cbn [captures].
  change re_script with
    (RSeq (RChar 60%N) (RSeq (RChar 115%N) (RSeq (RChar 99%N) (RSeq (RChar 114%N)
       (RSeq (RChar 105%N) (RSeq (RChar 112%N) (RSeq (RChar 116%N)
          script_attributes))))))) in Hm.
  repeat (rewrite rmatch_seq_char in Hm; cbn [rest caps] in Hm;
          match type of Hm with
          | match ?s with _ => _ end = _ =>
            destruct s as [|? ?]; [discriminate|]
          end;
          match type of Hm with
          | (if ?c then _ else _) = _ => destruct c; [|discriminate]
          end).
  eapply script_attributes_no_capture; [|exact Hm]. reflexivity.
Qed.

Lemma match_all_from_exec i r : forall s p skip m,
  In m (match_all_from i r p s skip) ->
  exists p' s', exec_at i r p' s' = Some m.
Proof.
  induction s as [|c t IH]; intros p skip m Hin.
  - destruct skip; cbn [match_all_from] in Hin; [|contradiction].
    destruct (exec_at i r p []) eqn:E; [|contradiction].
    destruct Hin as [<-|[]]. eauto.
  - destruct skip; cbn [match_all_from] in Hin.
    + destruct (exec_at i r p (c :: t)) eqn:E.
      * destruct Hin as [<-|Hin]; [eauto|]. eapply IH; eassumption.
      * eapply IH; eassumption.
    + eapply IH; eassumption.
Qed.

Local Close Scope nat_scope.

(** Every pattern literal of the source is accepted by [read_pattern]. *)
Lemma source_patterns_compile : existsb is_fallback source_patterns = false.
Proof. vm_compute. reflexivity. Qed.

(** ** The matcher on examples

    The behaviours of the ECMAScript matcher the analyzers rely on. *)

Example greedy_then_backtrack :
  option_map (fun m => (matched m, group 1 m, group 2 m, group 3 m))
             (search false (rx "(a|ab)(c|bcd)(d*)") (js "abcd"))
  = Some (js "abcd", Some (js "a"), Some (js "bcd"), Some []).
Proof. vm_compute. reflexivity. Qed.

Example lazy_stops_at_first_close :
  option_map (the_group 1)
             (search true re_title (js "<TITLE>En</title><title>To</title>"))
  = Some (js "En").
Proof. vm_compute. reflexivity. Qed.

Example captures_reset_in_repeats :
  option_map (fun m => (matched m, group 1 m)) (search false (rx "(?:(a)|b)*") (js "ab"))
  = Some (js "ab", None).
Proof. vm_compute. reflexivity. Qed.

Example negative_lookahead :
  match_g true re_http_resource (js "<a href=`http://localhost/x`> <img src=`HTTP://cdn.no/a.png`>")
  = [js "HTTP://cdn.no/a.png"].
Proof. vm_compute. reflexivity. Qed.

Example global_matches_do_not_overlap :
  match_g false (rx "aa") (js "aaaaa") = [js "aa"; js "aa"].
Proof. vm_compute. reflexivity. Qed.

Example invalid_patterns_throw :
  read_pattern (js "(") = Throw SyntaxError
  /\ read_pattern (js "a)") = Throw SyntaxError
  /\ read_pattern (js "c++") = Throw SyntaxError
  /\ read_pattern (js "[b-a]") = Throw SyntaxError
  /\ read_pattern (js "a{2,1}") = Throw SyntaxError
  /\ read_pattern (js "x\") = Throw SyntaxError.
Proof. vm_compute. repeat split. Qed.

(** ** Patterns that begin with literal text *)

Lemma rmatch_literal_prefix r : forall x,
  rmatch true r x <> [] -> starts_with_ci (literal_prefix r) (rest x) = true.
Proof.
  induction r as [| c | | neg items | a IHa b IHb | a IHa b IHb
                  | min max greedy a IHa | n a IHa | neg a IHa | | | neg];
    intros x Hm; try reflexivity.
  - cbn [rmatch] in Hm. unfold step in Hm. cbn [literal_prefix].
    destruct (rest x) as [|ch t]; [contradiction|].
    cbn [starts_with_ci]. destruct (char_eq true c ch); [reflexivity|contradiction].
  - destruct a; try reflexivity.
    rewrite rmatch_seq_char in Hm. cbn [literal_prefix].
    destruct (rest x) as [|ch t]; [contradiction|].
    cbn [starts_with_ci]. destruct (char_eq true c ch); [|contradiction].
    apply (IHb _ Hm).
Qed.

Lemma exec_at_literal_prefix r p s :
  starts_with_ci (literal_prefix r) s = false -> exec_at true r p s = None.
Proof.
  intros H. unfold exec_at.
  destruct (rmatch true r (MState p s [])) as [|y l] eqn:E; [reflexivity|].
  assert (Hne : rmatch true r (MState p s []) <> []) by (rewrite E; discriminate).
  apply rmatch_literal_prefix in Hne. cbn [rest] in Hne. congruence.
Qed.

(** A pattern finds nothing in a text in which its leading literal text
    does not occur. *)
Lemma search_from_literal_prefix r : forall s p,
  occurs_ci (literal_prefix r) s = false -> search_from true r p s = None.
Proof.
  induction s as [|c t IH]; intros p H; cbn [occurs_ci] in H;
    apply orb_false_iff in H; destruct H as [H1 H2];
    cbn [search_from]; rewrite (exec_at_literal_prefix _ _ _ H1).
  - reflexivity.
  - apply IH. exact H2.
Qed.

Lemma occurs_ci_tail p c t : occurs_ci p (c :: t) = false -> occurs_ci p t = false.
Proof. cbn [occurs_ci]. intros H. apply orb_false_iff in H. tauto. Qed.

Lemma match_all_from_literal_prefix r : forall s p skip,
  occurs_ci (literal_prefix r) s = false -> match_all_from true r p s skip = [].
Proof.
  induction s as [|c t IH]; intros p skip H.
  - destruct skip; cbn [match_all_from]; [|reflexivity].
    cbn [occurs_ci] in H. apply orb_false_iff in H. destruct H as [H1 _].
    rewrite (exec_at_literal_prefix _ _ _ H1). reflexivity.
  - pose proof (occurs_ci_tail _ _ _ H) as Ht.
    destruct skip; cbn [match_all_from]; [|apply IH; exact Ht].
    cbn [occurs_ci] in H. apply orb_false_iff in H. destruct H as [H1 _].
    rewrite (exec_at_literal_prefix _ _ _ H1). apply IH. exact Ht.
Qed.

(** A header value in which the text [max-age=] does not occur, in any
    letter case, has no [max-age] directive for the analyzer. *)
Lemma no_max_age_text_no_directive v :
  occurs_ci (js "max-age=") v = false -> search true re_max_age v = None.
Proof. intros H. apply search_from_literal_prefix. exact H. Qed.

(** ** Resource extractor *)

Lemma extracted_script_has_no_src html s :
  In s (scripts (extractResources html)) ->
  script_src s = None /\ isInline s = true.
Proof.
  cbn [extractResources scripts]. intros Hin.
  apply in_map_iff in Hin. destruct Hin as (m & <- & Hm).
  apply match_all_from_exec in Hm. destruct Hm as (p & t & Hm).
  apply re_script_no_capture in Hm.
  unfold script_of, group. rewrite Hm. split; reflexivity.
Qed.

Lemma filter_none {A} (p : A -> bool) l :
  (forall a, In a l -> p a = false) -> filter p l = [].
Proof.
  induction l as [|a l IH]; intros H; [reflexivity|].
  cbn [filter]. rewrite (H a (or_introl eq_refl)). apply IH.
  intros b Hb. apply H. right. assumption.
Qed.

(** No script the extractor lists is ever counted as render-blocking. *)
Lemma extracted_scripts_never_blocking html :
  blockingScripts (extractResources html) = 0.
Proof.
  unfold blockingScripts, count. rewrite filter_none; [reflexivity|].
  intros s Hs. apply extracted_script_has_no_src in Hs. destruct Hs as [_ Hi].
  unfold is_blocking. rewrite Hi. reflexivity.
Qed.

Lemma filterM_all_false {A} (p : A -> outcome bool) l :
  (forall a, In a l -> p a = Ok false) -> filterM p l = Ok [].
Proof.
  induction l as [|a l IH]; intros H; [reflexivity|].
  cbn [filterM]. rewrite (H a (or_introl eq_refl)). cbn [bind].
  rewrite IH; [reflexivity|]. intros b Hb. apply H. right. assumption.
Qed.

(** On the inventory of the extractor the third-party check never reads
    [new URL(html)]: the performance analyzer returns. *)
Lemma analyzePerformance_returns_on_extracted P responseTime html :
  analyzePerformance P responseTime html (extractResources html) =
  Ok (finish (perf_effects responseTime html (extractResources html) 0)
        {| pm_responseTime := responseTime;
           pm_htmlSize := round_kb (size html);
           pm_totalScripts := size (scripts (extractResources html));
           pm_blockingScripts := 0;
           pm_totalStylesheets :=
             size (stylesheets (extractResources html))
             + size (match_g true re_style_open html);
           pm_totalImages := size (images (extractResources html)) |}).
Proof.
  unfold analyzePerformance. rewrite filterM_all_false.
  - cbn [bind]. rewrite extracted_scripts_never_blocking. reflexivity.
  - intros s Hs. apply extracted_script_has_no_src in Hs. destruct Hs as [Hsrc _].
    unfold is_third_party. rewrite Hsrc. reflexivity.
Qed.

(** On any inventory the rule counts the scripts that are not inline and
    have neither [async] nor [defer], and deducts 12 above five of them
    and 6 above two. *)
Lemma blocking_rule_on_inventory resources :
  blockingScripts resources = count is_blocking (scripts resources)
  /\ deductions (perf_blocking_scripts resources)
     = if 5 <? blockingScripts resources then 12
       else if 2 <? blockingScripts resources then 6 else 0.
Proof.
  split; [reflexivity|]. unfold perf_blocking_scripts.
  destruct (5 <? blockingScripts resources); [reflexivity|].
  destruct (2 <? blockingScripts resources); reflexivity.
Qed.

(** C2. The extractor does not record the [src] of a script tag: in the
    pattern the first [[^>]*] is greedy and the group holding [src=] is
    optional, so the group never takes part in a match.  A tag with a
    [src] is listed with [src = null] and [isInline = true], and a page
    with six external scripts without [async] or [defer] has no
    render-blocking script counted and nothing deducted. *)
Theorem script_src_is_not_extracted :
  scripts (extractResources (js "<script src=`app.js`></script>")) =
    [{| script_src := None; isInline := true; isAsync := false;
        isDefer := false; isModule := false |}]
  /\ let six := js ("<script src=`a.js`></script><script src=`b.js`></script>"
                    ++ "<script src=`c.js`></script><script src=`d.js`></script>"
                    ++ "<script src=`e.js`></script><script src=`f.js`></script>") in
     blockingScripts (extractResources six) = 0
     /\ perf_blocking_scripts (extractResources six) = [].
Proof. vm_compute. repeat split. Qed.

(** ** Scores are clamped *)

Lemma bind_Ok {A B} (x : outcome A) (f : A -> outcome B) b :
  bind x f = Ok b -> exists a, x = Ok a /\ f a = Ok b.
Proof. destruct x; cbn [bind]; intros H; try discriminate. eauto. Qed.

(** An analyzer returns or throws, whatever the platform does. *)
Lemma filterM_cases {A} (p : A -> outcome bool) l :
  (forall a, p a <> Unmodelled) ->
  (exists r, filterM p l = Ok r) \/ (exists e, filterM p l = Throw e).
Proof.
  intros Hp. induction l as [|a l IH]; [left; eexists; reflexivity|].
  cbn [filterM]. specialize (Hp a).
  destruct (p a) as [b|e|]; cbn [bind]; [|right; eexists; reflexivity|contradiction].
  destruct IH as [(r & ->)|(e & ->)]; cbn [bind];
    [left|right]; eexists; reflexivity.
Qed.

Lemma RegExp_modelled P src i : RegExp P src i <> Unmodelled.
Proof.
  unfold RegExp. destruct (read_pattern src); try discriminate.
  destruct (native_RegExp P src i); discriminate.
Qed.

Lemma lacks_label_modelled P html input : lacks_label P html input <> Unmodelled.
Proof.
  unfold lacks_label. destruct (search true re_id input) as [idMatch|]; [|discriminate].
  pose proof (@RegExp_modelled P
                (js "<label[^>]*for=[`']" ++ the_group 1 idMatch ++ js "[`']") true) as H.
  destruct (RegExp P _ true); cbn [bind]; [discriminate|discriminate|contradiction].
Qed.

Lemma is_third_party_modelled P html s : is_third_party P html s <> Unmodelled.
Proof.
  unfold is_third_party, URL_hostname.
  destruct (script_src s) as [[|c t]|]; try discriminate.
  destruct (starts_with (js "/") (c :: t)); [discriminate|].
  destruct (has_scheme html); [|discriminate].
  destruct (native_hostname P html); discriminate.
Qed.

Lemma analyzePerformance_returned P rt html res
    (Q : DimensionResult PerformanceMetrics -> Prop) :
  (forall n m, Q (finish (perf_effects rt html res n) m)) ->
  returned (analyzePerformance P rt html res) Q.
Proof.
  intros HQ. unfold analyzePerformance.
  destruct (@filterM_cases _ (is_third_party P html) (scripts res)
              (is_third_party_modelled P html)) as [(l & ->)|(e & ->)];
    cbn [bind returned]; [apply HQ|exact I].
Qed.

Lemma analyzeAccessibility_returned P html
    (Q : DimensionResult AccessibilityMetrics -> Prop) :
  (forall l,
      Q (finish (acc_effects html l)
           {| am_hasLang := is_some (search true re_html_lang_value html);
              am_imagesWithoutAlt := size (imagesWithoutAlt html);
              am_landmarks := landmarks html;
              am_hasSkipLink := hasSkipLink html;
              am_headingStructure := headingStructure html |})) ->
  returned (analyzeAccessibility P html) Q.
Proof.
  intros HQ. unfold analyzeAccessibility.
  destruct (@filterM_cases _ (lacks_label P html) (textInputs html)
              (lacks_label_modelled P html)) as [(l & ->)|(e & ->)];
    cbn [bind returned]; [apply HQ|exact I].
Qed.

(** Every result an analyzer returns has a score between 0 and 100; the
    SEO, security and mobile analyzers always return, and so does the
    performance analyzer on the inventory of the extractor. *)
Lemma returned_scores_are_clamped :
  (forall html, 0 <= score (analyzeSEO html) <= 100) /\
  (forall url hs html, 0 <= score (analyzeSecurity url hs html) <= 100) /\
  (forall html, 0 <= score (analyzeMobile html) <= 100) /\
  (forall P rt html res r,
      analyzePerformance P rt html res = Ok r -> 0 <= score r <= 100) /\
  (forall P rt html, exists r,
      analyzePerformance P rt html (extractResources html) = Ok r
      /\ 0 <= score r <= 100) /\
  (forall P html r, analyzeAccessibility P html = Ok r -> 0 <= score r <= 100).
Proof.
  repeat split; intros.
  all: try apply score_finish_range.
  all: try (match goal with
            | H : _ = Ok _ |- _ =>
              apply bind_Ok in H; destruct H as (? & _ & [= <-]);
              apply score_finish_range
            end).
  eexists. split; [apply analyzePerformance_returns_on_extracted|].
  apply score_finish_range.
Qed.

(** C1. The accessibility analyzer pastes the [id] of a form input into
    the text of a pattern.  When that text is not a valid pattern the
    constructor throws, and the analyzer returns no score at all. *)
Theorem accessibility_returns_no_score P :
  analyzeAccessibility P (js "<form><input type=`text` id=`c++`></form>")
  = Throw SyntaxError.
Proof. vm_compute. reflexivity. Qed.

(** C4. An input whose [id] is an opening parenthesis makes the
    accessibility analyzer throw; and the third-party check of the
    performance analyzer throws on an inventory that lists a script with
    an absolute [src] when the HTML does not begin with a URL scheme. *)
Theorem analyzers_can_throw P :
  analyzeAccessibility P (js "<input id=`(`>") = Throw SyntaxError
  /\ analyzePerformance P 120 (js "<html><body></body></html>")
       {| scripts := [{| script_src := Some (js "https://cdn.example/app.js");
                         isInline := false; isAsync := false; isDefer := false;
                         isModule := false |}];
          stylesheets := []; images := []; fonts := []; iframes := [] |}
     = Throw TypeError.
Proof. vm_compute. split; reflexivity. Qed.

(** ** Form labels *)

(** C8. The rule subtracts the number of inputs with an ARIA label from
    the number of inputs without a [label] element.  An input that has
    both a label and an ARIA label cancels an input that has neither: here
    one input is unlabeled and nothing is deducted. *)
Theorem form_label_deduction_misses_input P :
  let html := js ("<label for=`email`>E-post</label>"
                  ++ "<input id=`email` aria-label=`E-post`><input name=`phone`>") in
  unlabeled_inputs P html = Ok 1
  /\ form_label_deduction P html = Ok 0
  /\ form_label_deduction P html
     <> (u <- unlabeled_inputs P html ;; Ok (Z.min 12 (3 * u))).
Proof. vm_compute. repeat split. discriminate. Qed.

Lemma filterM_both_counts {A} (p : A -> outcome bool) (q : A -> bool) :
  forall l yes,
    filterM p l = Ok yes ->
    exists both,
      filterM (fun a => b <- p a ;; Ok (b && negb (q a))) l = Ok both
      /\ size yes - count q l <= size both.
Proof.
  unfold count, size.
  induction l as [|a l IH]; intros yes H; cbn [filterM] in *.
  - injection H as <-. exists []. split; [reflexivity|]. cbn. lia.
  - destruct (p a) as [b| |]; cbn [bind] in *; try discriminate.
    destruct (filterM p l) as [r| |]; cbn [bind] in *; try discriminate.
    injection H as <-. destruct (IH r eq_refl) as (both & Hb & Hle).
    rewrite Hb. cbn [bind filter]. eexists. split; [reflexivity|].
    destruct b, (q a); cbn [andb negb length] in *; lia.
Qed.

(** The rule never deducts more than C8 states: it can only miss inputs. *)
Lemma form_label_deduction_at_most P html d :
  form_label_deduction P html = Ok d ->
  exists u, unlabeled_inputs P html = Ok u /\ 0 <= d <= Z.min 12 (3 * u).
Proof.
  unfold form_label_deduction, unlabeled_inputs. intros H.
  apply bind_Ok in H. destruct H as (yes & Hyes & [= <-]).
  destruct (filterM_both_counts _ has_aria_label _ Hyes) as (both & Hb & Hle).
  rewrite Hb. cbn [bind]. eexists. split; [reflexivity|].
  unfold acc_form_labels, inputsWithAriaLabel.
  assert (0 <= size both) by (unfold size; lia).
  rule_bound.
Qed.

(** ** Pages without images *)

Lemma match_g_nil_match_all i r s : match_g i r s = [] -> match_all i r s = [].
Proof. unfold match_g. apply map_eq_nil. Qed.

(** When the pattern of the source for an image tag finds no match, the
    image rules of the performance, SEO, mobile and accessibility
    analyzers execute no statement, so they deduct nothing and report
    nothing, and every image metric of the four results is zero. *)
Lemma no_img_match_no_image_penalty html responseTime :
  match_g true re_img html = [] ->
  perf_images (extractResources html) = []
  /\ seo_images html = []
  /\ mob_images html = []
  /\ acc_images html = []
  /\ (forall P, exists r,
         analyzePerformance P responseTime html (extractResources html) = Ok r
         /\ pm_totalImages (metrics r) = 0)
  /\ sm_imagesWithoutAlt (metrics (analyzeSEO html)) = 0
  /\ mm_totalImages (metrics (analyzeMobile html)) = 0
  /\ mm_responsiveImages (metrics (analyzeMobile html)) = 0
  /\ (forall P, returned (analyzeAccessibility P html)
                  (fun r => am_imagesWithoutAlt (metrics r) = 0)).
Proof.
  intros Hg. pose proof (match_g_nil_match_all _ _ _ Hg) as Ha.
  assert (Himgs : images (extractResources html) = [])
    by (cbn [extractResources images]; rewrite Ha; reflexivity).
  assert (Hwo : imagesWithoutAlt html = [])
    by (unfold imagesWithoutAlt; rewrite Hg; reflexivity).
  assert (Hresp : responsiveImages html = 0)
    by (unfold responsiveImages; rewrite Hg; reflexivity).
  repeat split.
  - unfold perf_images. rewrite Himgs. reflexivity.
  - unfold seo_images. rewrite Hwo. reflexivity.
  - unfold mob_images. rewrite Hg, Hresp. reflexivity.
  - unfold acc_images. rewrite Hwo, Hg. reflexivity.
  - intros P. eexists. split; [apply analyzePerformance_returns_on_extracted|].
    cbn [metrics finish pm_totalImages]. rewrite Himgs. reflexivity.
  - cbn [analyzeSEO metrics finish sm_imagesWithoutAlt]. rewrite Hwo. reflexivity.
  - cbn [analyzeMobile metrics finish mm_totalImages]. rewrite Hg. reflexivity.
  - cbn [analyzeMobile metrics finish mm_responsiveImages]. exact Hresp.
  - intros P. apply analyzeAccessibility_returned. intros l.
    cbn [metrics finish am_imagesWithoutAlt]. rewrite Hwo. reflexivity.
Qed.

(** C7. The pattern of the source for an image tag, [<img[^>]*>], also
    matches a tag whose name only begins with [img].  A page with two
    custom elements of such names has no [<img>] tag, and is analyzed as
    a page with two images without [alt]: the SEO analyzer deducts 4, the
    accessibility analyzer 6, and the image metrics of the four results
    are 2. *)
Theorem img_prefix_counts_as_image P :
  img_tag_count custom_elements_page = 0
  /\ size (images (extractResources custom_elements_page)) = 2
  /\ deductions (seo_images custom_elements_page) = 4
  /\ deductions (acc_images custom_elements_page) = 6
  /\ sm_imagesWithoutAlt (metrics (analyzeSEO custom_elements_page)) = 2
  /\ mm_totalImages (metrics (analyzeMobile custom_elements_page)) = 2
  /\ (exists r,
        analyzePerformance P 200 custom_elements_page
                           (extractResources custom_elements_page) = Ok r
        /\ pm_totalImages (metrics r) = 2)
  /\ (exists r,
        analyzeAccessibility P custom_elements_page = Ok r
        /\ am_imagesWithoutAlt (metrics r) = 2).
Proof.
  split; [vm_compute; reflexivity|]. split; [vm_compute; reflexivity|].
  split; [vm_compute; reflexivity|]. split; [vm_compute; reflexivity|].
  split; [vm_compute; reflexivity|]. split; [vm_compute; reflexivity|].
  split.
  - eexists. split; [apply analyzePerformance_returns_on_extracted|].
    vm_compute. reflexivity.
  - eexists. split; [reflexivity|]. vm_compute. reflexivity.
Qed.

(** A page in which the text [<img] does not occur, in any letter case,
    has no image tag. *)
Lemma no_img_text_no_img_tag html :
  occurs_ci (js "<img") html = false -> match_g true re_img html = [].
Proof.
  intros H. unfold match_g, match_all.
  rewrite match_all_from_literal_prefix; [reflexivity|exact H].
Qed.


(** ** Findings *)

Create HintDb rules.
#[local] Hint Unfold
  perf_response_time perf_html_size perf_blocking_scripts perf_total_scripts
  perf_css perf_images perf_rendering_path perf_third_party perf_iframes
  seo_title seo_description seo_headings seo_canonical seo_open_graph
  seo_twitter seo_images seo_structured_data seo_lang seo_robots seo_links
  sec_protocol sec_hsts_rule sec_csp_rule sec_frame_rule sec_content_type_rule
  sec_referrer_rule sec_permissions_rule sec_xss_rule sec_mixed_content
  sec_emails sec_forms sec_passwords sec_disclosure
  mob_viewport mob_fonts mob_tap_targets mob_images mob_media_queries
  mob_fixed_widths mob_icons mob_manifest mob_theme_color
  acc_lang acc_images acc_form_labels acc_h1 acc_landmarks acc_skip_link
  acc_link_texts acc_focus acc_contrast acc_tables acc_roles acc_tabindex
  : rules.

Lemma skipped_level_ok hs : forall lastLevel,
  forallb effect_ok (skipped_level lastLevel hs) = true.
Proof.
  induction hs as [|[level n] hs IH]; intros lastLevel; cbn [skipped_level];
    [reflexivity|].
  destruct (0 <? n); [|apply IH].
  destruct ((0 <? lastLevel) && (lastLevel + 1 <? level)); [reflexivity|apply IH].
Qed.

Ltac effects_ok :=
  repeat (rewrite forallb_app; apply andb_true_intro; split);
  try apply skipped_level_ok;
  autounfold with rules; rule_cases; reflexivity.

Lemma perf_effects_ok rt html res n :
  forallb effect_ok (perf_effects rt html res n) = true.
Proof. unfold perf_effects. effects_ok. Qed.

Lemma seo_effects_ok html : forallb effect_ok (seo_effects html) = true.
Proof. unfold seo_effects. effects_ok. Qed.

Lemma sec_effects_ok url hs html :
  forallb effect_ok (sec_effects url hs html) = true.
Proof. unfold sec_effects. effects_ok. Qed.

Lemma mob_effects_ok html : forallb effect_ok (mob_effects html) = true.
Proof. unfold mob_effects. effects_ok. Qed.

Lemma acc_effects_ok html l : forallb effect_ok (acc_effects html l) = true.
Proof. unfold acc_effects. effects_ok. Qed.

Lemma pushed_partition es :
  forallb effect_ok es = true ->
  pushed_details es = filter is_success (pushed es)
  /\ pushed_issues es = filter (fun f => negb (is_success f)) (pushed es)
  /\ forallb finding_ok (pushed es) = true.
Proof.
  induction es as [|[n|f|f] es IH]; cbn [forallb effect_ok]; intros H.
  - repeat split.
  - apply IH. exact H.
  - apply andb_true_iff in H. destruct H as [Hf H].
    apply andb_true_iff in Hf. destruct Hf as [Hok Hs].
    destruct (IH H) as (Hd & Hi & Ha).
    cbn [pushed pushed_details pushed_issues filter forallb].
    rewrite Hs, Hok, Hd, Hi, Ha. repeat split.
  - apply andb_true_iff in H. destruct H as [Hf H].
    apply andb_true_iff in Hf. destruct Hf as [Hok Hs].
    destruct (IH H) as (Hd & Hi & Ha).
    cbn [pushed pushed_details pushed_issues filter forallb].
    apply negb_true_iff in Hs.
    rewrite Hs, Hok, Hd, Hi, Ha. repeat split.
Qed.

Lemma finding_ok_spec f : finding_ok f = true -> success_or_issue f.
Proof.
  unfold finding_ok, success_or_issue.
  destruct (finding_type f) as [t|], (severity f) as [s|]; try discriminate.
  - intros H. apply String.eqb_eq in H. subst. left. split; reflexivity.
  - cbn [existsb]. intros H. right. split; [reflexivity|].
    repeat (apply orb_true_iff in H; destruct H as [H|H]);
      try discriminate; apply String.eqb_eq in H; subst; tauto.
Qed.

Lemma finish_successes_then_issues M es (m : M) :
  forallb effect_ok es = true ->
  successes_then_issues es (details (finish es m)).
Proof.
  intros H. destruct (pushed_partition es H) as (Hd & Hi & Ha).
  split.
  - rewrite details_finish, Hd, Hi. reflexivity.
  - intros f Hf. apply finding_ok_spec.
    rewrite forallb_forall in Ha. apply Ha. exact Hf.
Qed.

(** C9, as stated, fails.  On a page with one [<h1>] and no title, the
    SEO analyzer first pushes the issue "Mangler title-tag" and later the
    success "Korrekt bruk av H1-overskrift"; the success comes first in
    the result, and it has a [type] field and no [severity]. *)
Lemma findings_counterexample :
  let html := js "<h1>Overskrift</h1>" in
  ~ Forall carries_severity (details (analyzeSEO html))
  /\ details (analyzeSEO html) <> pushed (seo_effects html)
  /\ hd_error (details (analyzeSEO html))
     = Some (success (js "Korrekt bruk av H1-overskrift"))
  /\ hd_error (pushed (seo_effects html))
     = Some (critical (js "Mangler title-tag")).
Proof.
  cbv zeta.
  assert (Hd : hd_error (details (analyzeSEO (js "<h1>Overskrift</h1>")))
               = Some (success (js "Korrekt bruk av H1-overskrift")))
    by (vm_compute; reflexivity).
  assert (Hp : hd_error (pushed (seo_effects (js "<h1>Overskrift</h1>")))
               = Some (critical (js "Mangler title-tag")))
    by (vm_compute; reflexivity).
  repeat split; try assumption.
  - intros HF.
    destruct (details (analyzeSEO (js "<h1>Overskrift</h1>"))) as [|f l];
      [discriminate|].
    injection Hd as ->. inversion HF as [|? ? [s [Hs _]] _].
    cbn [severity success] in Hs. discriminate Hs.
  - intros Heq. rewrite Heq, Hp in Hd.
    apply (f_equal (option_map finding_type)) in Hd.
    cbn [option_map finding_type critical success] in Hd. discriminate Hd.
Qed.

(** C9, amended.  Every finding is either a success, with a [type] field
    equal to [success] and no [severity], or an issue, with a [severity]
    of [info], [warning] or [critical] and no [type]; and the [details] of
    a result list the successes in the order they were pushed, followed by
    the issues in the order they were pushed.  This holds of the result of
    every analyzer on every input, whatever the platform does; the
    performance and the accessibility analyzer return such a result or
    throw. *)
Theorem findings_are_successes_then_issues :
  (forall html, successes_then_issues (seo_effects html) (details (analyzeSEO html)))
  /\ (forall url hs html,
         successes_then_issues (sec_effects url hs html)
                               (details (analyzeSecurity url hs html)))
  /\ (forall html, successes_then_issues (mob_effects html) (details (analyzeMobile html)))
  /\ (forall P rt html res,
         returned (analyzePerformance P rt html res)
           (fun r => exists n,
                successes_then_issues (perf_effects rt html res n) (details r)))
  /\ (forall P html,
         returned (analyzeAccessibility P html)
           (fun r => exists l, successes_then_issues (acc_effects html l) (details r))).
Proof.
  split; [|split; [|split; [|split]]].
  - intros html. apply finish_successes_then_issues, seo_effects_ok.
  - intros url hs html. apply finish_successes_then_issues, sec_effects_ok.
  - intros html. apply finish_successes_then_issues, mob_effects_ok.
  - intros P rt html res. apply analyzePerformance_returned. intros n m.
    exists n. apply finish_successes_then_issues, perf_effects_ok.
  - intros P html. apply analyzeAccessibility_returned. intros l.
    exists l. apply finish_successes_then_issues, acc_effects_ok.
Qed.

Lemma findings_are_successes_then_issues_witness :
  returned (analyzeAccessibility lenient_platform search_form_page)
    (fun r => exists l,
         successes_then_issues (acc_effects search_form_page l) (details r)).
Proof.
  exact (proj2 (proj2 (proj2 (proj2 findings_are_successes_then_issues)))
           lenient_platform search_form_page).
Defined.

(** ** Aggregator *)

Lemma double_eqb_eq x y : double_eqb x y = true -> x = y.
Proof.
  destruct x, y; cbn [double_eqb]; intros H; try discriminate; try reflexivity.
  - apply Bool.eqb_prop in H. congruence.
  - apply Bool.eqb_prop in H. congruence.
  - apply andb_true_iff in H. destruct H as [H He].
    apply andb_true_iff in H. destruct H as [Hs Hm].
    apply Bool.eqb_prop in Hs. apply Pos.eqb_eq in Hm. apply Z.eqb_eq in He.
    congruence.
Qed.

Lemma point_eqb_eq p q : point_eqb p q = true -> p = q.
Proof.
  destruct p, q. unfold point_eqb. cbn [fst snd]. intros H.
  apply andb_true_iff in H. destruct H as [He Hx].
  apply Z.eqb_eq in He. apply double_eqb_eq in Hx. congruence.
Qed.

Lemma mem_points p m : mem p m = true -> In p (points m).
Proof.
  unfold mem, points.
  destruct (PositiveMap.find (bucket (snd p)) m) as [l|] eqn:E; [|discriminate].
  intros H. apply existsb_exists in H. destruct H as (q & Hq & Heq).
  apply point_eqb_eq in Heq. subst q.
  apply PositiveMap.elements_correct in E.
  apply in_flat_map. exists (bucket (snd p), l). split; assumption.
Qed.

Lemma in_score_range v : 0 <= v <= 100 -> In v score_range.
Proof.
  intros H. unfold score_range. apply in_map_iff. exists (Z.to_nat v).
  split; [lia|]. apply in_seq. lia.
Qed.

Lemma closed_sound ps c w m' p v :
  closed ps c w m' = true -> In p ps -> 0 <= v <= 100 ->
  mem (plus p (term c w v)) m' = true.
Proof.
  unfold closed. intros H Hp Hv.
  rewrite forallb_forall in H. specialize (H p Hp).
  rewrite forallb_forall in H. apply H.
  apply in_map. apply in_score_range. exact Hv.
Qed.

Lemma reach1_closed :
  closed (map (term d_0_25 25) score_range) d_0_25 25 reach1 = true.
Proof. vm_cast_no_check (eq_refl true). Qed.

Lemma reach2_closed : closed (points reach1) d_0_20 20 reach2 = true.
Proof. vm_cast_no_check (eq_refl true). Qed.

Lemma reach3_closed : closed (points reach2) d_0_15 15 reach3 = true.
Proof. vm_cast_no_check (eq_refl true). Qed.

Lemma reach4_closed : closed (points reach3) d_0_15 15 reach4 = true.
Proof. vm_cast_no_check (eq_refl true). Qed.

Lemma reach4_rounds_well : forallb rounds_well (points reach4) = true.
Proof. vm_cast_no_check (eq_refl true). Qed.

Lemma weighted_sum_reachable p s sec m a :
  0 <= p <= 100 -> 0 <= s <= 100 -> 0 <= sec <= 100 ->
  0 <= m <= 100 -> 0 <= a <= 100 ->
  In (weighted_sum p s sec m a, weighted_hundredths p s sec m a) (points reach4).
Proof.
  intros Hp Hs Hsec Hm Ha.
  assert (H1 : In (plus (term d_0_25 25 p) (term d_0_25 25 s)) (points reach1)).
  { apply mem_points. apply (closed_sound _ _ _ _ _ reach1_closed); [|assumption].
    apply in_map. apply in_score_range. assumption. }
  assert (H2 : In (plus (plus (term d_0_25 25 p) (term d_0_25 25 s))
                        (term d_0_20 20 sec)) (points reach2)).
  { apply mem_points. apply (closed_sound _ _ _ _ _ reach2_closed); assumption. }
  assert (H3 : In (plus (plus (plus (term d_0_25 25 p) (term d_0_25 25 s))
                              (term d_0_20 20 sec)) (term d_0_15 15 m))
                  (points reach3)).
  { apply mem_points. apply (closed_sound _ _ _ _ _ reach3_closed); assumption. }
  assert (H4 : In (plus (plus (plus (plus (term d_0_25 25 p) (term d_0_25 25 s))
                                    (term d_0_20 20 sec)) (term d_0_15 15 m))
                        (term d_0_15 15 a)) (points reach4)).
  { apply mem_points. apply (closed_sound _ _ _ _ _ reach4_closed); assumption. }
  unfold plus, term in H4. cbn [fst snd] in H4.
  unfold weighted_sum, weighted_hundredths.
  exact H4.
Qed.

(** C3, as stated, fails: with scores 60, 60, 24, 61 and 77 the exact
    weighted sum is 55.5, which rounds to 56, while the sum of the doubles
    is just below 55.5 and [Math.round] gives 55. *)
Lemma total_score_counterexample :
  totalScore 60 60 24 61 77 = Some 55
  /\ exact_total 60 60 24 61 77 = 56
  /\ totalScore 60 60 24 61 77 <> Some (exact_total 60 60 24 61 77).
Proof. vm_compute. repeat split. discriminate. Qed.

(** C3, amended.  [totalScore] is [Math.round] of the weighted sum
    evaluated in binary64 arithmetic, from left to right.  For category
    scores from 0 to 100 it is the exactly rounded weighted sum, except
    that it can be one less when the exact sum is a tie (its hundredths
    end in 50). *)
Theorem total_score_vs_exact p s sec m a :
  0 <= p <= 100 -> 0 <= s <= 100 -> 0 <= sec <= 100 ->
  0 <= m <= 100 -> 0 <= a <= 100 ->
  exists t,
    totalScore p s sec m a = Some t
    /\ (t = exact_total p s sec m a
        \/ (weighted_hundredths p s sec m a mod 100 = 50
            /\ t = exact_total p s sec m a - 1)).
Proof.
  intros Hp Hs Hsec Hm Ha.
  pose proof (weighted_sum_reachable Hp Hs Hsec Hm Ha) as Hin.
  pose proof reach4_rounds_well as Hall. rewrite forallb_forall in Hall.
  specialize (Hall _ Hin). unfold rounds_well in Hall. cbn [fst snd] in Hall.
  unfold totalScore, exact_total.
  destruct (Math_round (weighted_sum p s sec m a)) as [t|]; [|discriminate].
  exists t. split; [reflexivity|].
  apply orb_true_iff in Hall. destruct Hall as [H|H].
  - left. apply Z.eqb_eq in H. exact H.
  - right. apply andb_true_iff in H. destruct H as [H1 H2].
    apply Z.eqb_eq in H1. apply Z.eqb_eq in H2. split; assumption.
Qed.

Lemma total_score_vs_exact_witness :
  0 <= 60 <= 100 /\ 0 <= 24 <= 100 /\ 0 <= 61 <= 100 /\ 0 <= 77 <= 100
  /\ exists t,
       totalScore 60 60 24 61 77 = Some t
       /\ (t = exact_total 60 60 24 61 77
           \/ (weighted_hundredths 60 60 24 61 77 mod 100 = 50
               /\ t = exact_total 60 60 24 61 77 - 1)).
Proof.
  assert (H60 : 0 <= 60 <= 100) by lia. assert (H24 : 0 <= 24 <= 100) by lia.
  assert (H61 : 0 <= 61 <= 100) by lia. assert (H77 : 0 <= 77 <= 100) by lia.
  repeat split; try lia.
  exact (total_score_vs_exact H60 H60 H24 H61 H77).
Defined.

(** The all-zero and all-100 extremes. *)
Lemma total_score_extremes :
  totalScore 0 0 0 0 0 = Some 0 /\ totalScore 100 100 100 100 100 = Some 100.
Proof. vm_compute. split; reflexivity. Qed.

(* ================================================================== *)
(** * Further properties *)
(* ================================================================== *)

(** ** What each rule may deduct *)

Lemma size_nonneg {A} (l : list A) : 0 <= size l.
Proof. unfold size. lia. Qed.

Lemma count_le_size {A} (p : A -> bool) l : 0 <= count p l <= size l.
Proof. unfold count, size. pose proof (filter_length_le p l). lia. Qed.

Lemma perf_response_time_bounds rt : 0 <= deductions (perf_response_time rt) <= 25.
Proof. unfold perf_response_time. rule_bound. Qed.

Lemma perf_html_size_bounds html : 0 <= deductions (perf_html_size html) <= 15.
Proof. unfold perf_html_size. rule_bound. Qed.

Lemma perf_blocking_scripts_bounds res :
  0 <= deductions (perf_blocking_scripts res) <= 12.
Proof. unfold perf_blocking_scripts. rule_bound. Qed.

Lemma perf_total_scripts_bounds res : 0 <= deductions (perf_total_scripts res) <= 8.
Proof. unfold perf_total_scripts. rule_bound. Qed.

Lemma perf_css_bounds html res : 0 <= deductions (perf_css html res) <= 15.
Proof. unfold perf_css. rewrite deductions_app. rule_bound. Qed.

Lemma perf_images_bounds res : 0 <= deductions (perf_images res) <= 20.
Proof.
  unfold perf_images.
  destruct (0 <? size (images res)); [|cbn; lia].
  rewrite !deductions_app. rule_bound.
Qed.

Lemma perf_rendering_path_bounds html res :
  0 <= deductions (perf_rendering_path html res) <= 5.
Proof. unfold perf_rendering_path. rewrite deductions_app. rule_bound. Qed.

Lemma perf_iframes_bounds res : 0 <= deductions (perf_iframes res) <= 3.
Proof. unfold perf_iframes. rule_bound. Qed.

Lemma seo_title_bounds html : 0 <= deductions (seo_title html) <= 15.
Proof.
  unfold seo_title. destruct (search true re_title html); [|cbn; lia].
  rewrite deductions_app. rule_bound.
Qed.

Lemma seo_description_bounds html : 0 <= deductions (seo_description html) <= 12.
Proof. unfold seo_description. rule_bound. Qed.

Lemma seo_headings_bounds html : 0 <= deductions (seo_headings html) <= 13.
Proof. unfold seo_headings. rewrite deductions_app. rule_bound. Qed.

Lemma seo_canonical_bounds html : 0 <= deductions (seo_canonical html) <= 8.
Proof. unfold seo_canonical. rule_bound. Qed.

Lemma seo_open_graph_bounds html : 0 <= deductions (seo_open_graph html) <= 8.
Proof. unfold seo_open_graph. rule_bound. Qed.

Lemma seo_twitter_bounds html : 0 <= deductions (seo_twitter html) <= 4.
Proof. unfold seo_twitter. rule_bound. Qed.

Lemma seo_images_bounds html : 0 <= deductions (seo_images html) <= 10.
Proof. unfold seo_images. rule_bound. Qed.

Lemma seo_structured_data_bounds html :
  0 <= deductions (seo_structured_data html) <= 5.
Proof. unfold seo_structured_data. rule_bound. Qed.

Lemma seo_lang_bounds html : 0 <= deductions (seo_lang html) <= 3.
Proof. unfold seo_lang. rule_bound. Qed.

Lemma seo_robots_deducts html : deductions (seo_robots html) = 0.
Proof. unfold seo_robots. rule_bound. Qed.

Lemma seo_links_bounds html : 0 <= deductions (seo_links html) <= 2.
Proof. unfold seo_links. rule_bound. Qed.

Lemma mob_viewport_bounds html : 0 <= deductions (mob_viewport html) <= 25.
Proof.
  unfold mob_viewport. destruct (search true re_viewport html); [|cbn; lia].
  rewrite !deductions_app. rule_bound.
Qed.

Lemma mob_fonts_bounds html : 0 <= deductions (mob_fonts html) <= 5.
Proof. unfold mob_fonts. rule_bound. Qed.

Lemma mob_tap_targets_bounds html : 0 <= deductions (mob_tap_targets html) <= 3.
Proof. unfold mob_tap_targets. rule_bound. Qed.

Lemma mob_images_bounds html : 0 <= deductions (mob_images html) <= 8.
Proof. unfold mob_images. rule_bound. Qed.

Lemma mob_media_queries_bounds html : 0 <= deductions (mob_media_queries html) <= 10.
Proof. unfold mob_media_queries. rule_bound. Qed.

Lemma mob_fixed_widths_bounds html : 0 <= deductions (mob_fixed_widths html) <= 8.
Proof. unfold mob_fixed_widths. rule_bound. Qed.

Lemma mob_icons_bounds html : 0 <= deductions (mob_icons html) <= 5.
Proof. unfold mob_icons. rewrite deductions_app. rule_bound. Qed.

Lemma mob_manifest_bounds html : 0 <= deductions (mob_manifest html) <= 5.
Proof. unfold mob_manifest. rule_bound. Qed.

Lemma mob_theme_color_bounds html : 0 <= deductions (mob_theme_color html) <= 2.
Proof. unfold mob_theme_color. rule_bound. Qed.

Lemma acc_lang_bounds html : 0 <= deductions (acc_lang html) <= 8.
Proof. unfold acc_lang. rule_bound. Qed.

Lemma acc_images_bounds html : 0 <= deductions (acc_images html) <= 15.
Proof. unfold acc_images. rule_bound. Qed.

Lemma acc_form_labels_bounds html l : 0 <= deductions (acc_form_labels html l) <= 12.
Proof. unfold acc_form_labels. rule_bound. Qed.

Lemma acc_h1_bounds html : 0 <= deductions (acc_h1 html) <= 5.
Proof. unfold acc_h1. rule_bound. Qed.

Lemma skipped_level_bounds hs : forall lastLevel,
  0 <= deductions (skipped_level lastLevel hs) <= 3.
Proof.
  induction hs as [|[level n] hs IH]; intros lastLevel; cbn [skipped_level];
    [cbn; lia|].
  destruct (0 <? n); [|apply IH].
  destruct ((0 <? lastLevel) && (lastLevel + 1 <? level)); [cbn; lia|apply IH].
Qed.

Lemma acc_landmarks_bounds html : 0 <= deductions (acc_landmarks html) <= 6.
Proof. unfold acc_landmarks. rule_bound. Qed.

Lemma acc_skip_link_bounds html : 0 <= deductions (acc_skip_link html) <= 5.
Proof. unfold acc_skip_link. rule_bound. Qed.

Lemma acc_link_texts_bounds html : 0 <= deductions (acc_link_texts html) <= 5.
Proof. unfold acc_link_texts. rule_bound. Qed.

Lemma acc_focus_bounds html : 0 <= deductions (acc_focus html) <= 5.
Proof. unfold acc_focus. rule_bound. Qed.

Lemma acc_contrast_bounds html : 0 <= deductions (acc_contrast html) <= 3.
Proof. unfold acc_contrast. rule_bound. Qed.

Lemma acc_tables_bounds html : 0 <= deductions (acc_tables html) <= 5.
Proof. unfold acc_tables. rule_bound. Qed.

Lemma acc_roles_bounds html : 0 <= deductions (acc_roles html) <= 4.
Proof. unfold acc_roles. rule_bound. Qed.

Lemma acc_tabindex_bounds html : 0 <= deductions (acc_tabindex html) <= 3.
Proof. unfold acc_tabindex. rule_bound. Qed.

(** ** What each analyzer may deduct *)

Lemma perf_effects_deductions rt html res n :
  deductions (perf_effects rt html res n) =
  deductions (perf_response_time rt) + deductions (perf_html_size html)
  + deductions (perf_blocking_scripts res) + deductions (perf_total_scripts res)
  + deductions (perf_css html res) + deductions (perf_images res)
  + deductions (perf_rendering_path html res) + deductions (perf_third_party n)
  + deductions (perf_iframes res).
Proof. unfold perf_effects. rewrite !deductions_app. lia. Qed.

Lemma seo_effects_deductions html :
  deductions (seo_effects html) =
  deductions (seo_title html) + deductions (seo_description html)
  + deductions (seo_headings html) + deductions (seo_canonical html)
  + deductions (seo_open_graph html) + deductions (seo_twitter html)
  + deductions (seo_images html) + deductions (seo_structured_data html)
  + deductions (seo_lang html) + deductions (seo_robots html)
  + deductions (seo_links html).
Proof. unfold seo_effects. rewrite !deductions_app. lia. Qed.

Lemma mob_effects_deductions html :
  deductions (mob_effects html) =
  deductions (mob_viewport html) + deductions (mob_fonts html)
  + deductions (mob_tap_targets html) + deductions (mob_images html)
  + deductions (mob_media_queries html) + deductions (mob_fixed_widths html)
  + deductions (mob_icons html) + deductions (mob_manifest html)
  + deductions (mob_theme_color html).
Proof. unfold mob_effects. rewrite !deductions_app. lia. Qed.

Lemma acc_effects_deductions html l :
  deductions (acc_effects html l) =
  deductions (acc_lang html) + deductions (acc_images html)
  + deductions (acc_form_labels html l) + deductions (acc_h1 html)
  + deductions (skipped_level 0 (headings html)) + deductions (acc_landmarks html)
  + deductions (acc_skip_link html) + deductions (acc_link_texts html)
  + deductions (acc_focus html) + deductions (acc_contrast html)
  + deductions (acc_tables html) + deductions (acc_roles html)
  + deductions (acc_tabindex html).
Proof. unfold acc_effects. rewrite !deductions_app. lia. Qed.

Lemma seo_deductions_bounds html : 0 <= deductions (seo_effects html) <= 80.
Proof.
  rewrite seo_effects_deductions, seo_robots_deducts.
  pose proof (seo_title_bounds html). pose proof (seo_description_bounds html).
  pose proof (seo_headings_bounds html). pose proof (seo_canonical_bounds html).
  pose proof (seo_open_graph_bounds html). pose proof (seo_twitter_bounds html).
  pose proof (seo_images_bounds html). pose proof (seo_structured_data_bounds html).
  pose proof (seo_lang_bounds html). pose proof (seo_links_bounds html). lia.
Qed.

Lemma mob_deductions_bounds html : 0 <= deductions (mob_effects html) <= 71.
Proof.
  rewrite mob_effects_deductions.
  pose proof (mob_viewport_bounds html). pose proof (mob_fonts_bounds html).
  pose proof (mob_tap_targets_bounds html). pose proof (mob_images_bounds html).
  pose proof (mob_media_queries_bounds html).
  pose proof (mob_fixed_widths_bounds html).
  pose proof (mob_icons_bounds html). pose proof (mob_manifest_bounds html).
  pose proof (mob_theme_color_bounds html). lia.
Qed.

Lemma acc_deductions_bounds html l : 0 <= deductions (acc_effects html l) <= 79.
Proof.
  rewrite acc_effects_deductions.
  pose proof (acc_lang_bounds html). pose proof (acc_images_bounds html).
  pose proof (acc_form_labels_bounds html l). pose proof (acc_h1_bounds html).
  pose proof (skipped_level_bounds (headings html) 0).
  pose proof (acc_landmarks_bounds html). pose proof (acc_skip_link_bounds html).
  pose proof (acc_link_texts_bounds html). pose proof (acc_focus_bounds html).
  pose proof (acc_contrast_bounds html). pose proof (acc_tables_bounds html).
  pose proof (acc_roles_bounds html). pose proof (acc_tabindex_bounds html). lia.
Qed.

Lemma sec_deductions_bounds url hs html :
  0 <= deductions (sec_effects url hs html) <= if is_https url then 65 else 90.
Proof.
  rewrite sec_effects_deductions, sec_protocol_deducts, sec_passwords_deducts.
  pose proof (sec_hsts_rule_bounds hs). pose proof (sec_csp_rule_bounds hs).
  pose proof (sec_frame_rule_bounds hs).
  pose proof (sec_content_type_rule_bounds hs).
  pose proof (sec_referrer_rule_bounds hs).
  pose proof (sec_permissions_rule_bounds hs). pose proof (sec_xss_rule_bounds hs).
  pose proof (sec_mixed_content_bounds url html).
  pose proof (sec_emails_bounds html). pose proof (sec_forms_bounds html).
  pose proof (sec_disclosure_bounds hs).
  destruct (is_https url); lia.
Qed.

Lemma perf_deductions_bounds_extracted rt html :
  0 <= deductions (perf_effects rt html (extractResources html) 0) <= 91.
Proof.
  rewrite perf_effects_deductions.
  pose proof (perf_response_time_bounds rt). pose proof (perf_html_size_bounds html).
  pose proof (perf_total_scripts_bounds (extractResources html)).
  pose proof (perf_css_bounds html (extractResources html)).
  pose proof (perf_images_bounds (extractResources html)).
  pose proof (perf_rendering_path_bounds html (extractResources html)).
  pose proof (perf_iframes_bounds (extractResources html)).
  assert (Hb : deductions (perf_blocking_scripts (extractResources html)) = 0).
  { unfold perf_blocking_scripts. rewrite extracted_scripts_never_blocking.
    reflexivity. }
  assert (Ht : deductions (perf_third_party 0) = 0) by reflexivity.
  lia.
Qed.

(** ** The range of each score *)

(** X1. On the inventory that [extractResources] builds from the same
    HTML, the performance analyzer always returns; its score is 100 less
    the deductions, the clamp changes nothing, and the score is never
    below 9. *)
Theorem performance_score_range P responseTime html :
  exists r,
    analyzePerformance P responseTime html (extractResources html) = Ok r
    /\ score r
       = 100 - deductions (perf_effects responseTime html (extractResources html) 0)
    /\ 9 <= score r <= 100.
Proof.
  eexists. split; [apply analyzePerformance_returns_on_extracted|].
  rewrite score_finish.
  pose proof (perf_deductions_bounds_extracted responseTime html). lia.
Qed.

(** X2. The SEO score is 100 less the deductions: the rules deduct at most
    80 together, so the clamp changes nothing and the score is never below
    20; a page of more than 5000 units that has five images without [alt]
    and nothing else scores 20. *)
Theorem seo_score_range :
  (forall html,
      score (analyzeSEO html) = 100 - deductions (seo_effects html)
      /\ 20 <= score (analyzeSEO html) <= 100)
  /\ score (analyzeSEO worst_seo_page) = 20.
Proof.
  split.
  - intros html. unfold analyzeSEO. rewrite score_finish.
    pose proof (seo_deductions_bounds html). lia.
  - vm_compute. reflexivity.
Qed.

(** X3. The security score is 100 less the deductions and is never below
    10, and never below 35 when the protocol is [https:] (the mixed
    content rule needs HTTPS, the HTTPS rule its absence); both bounds are
    reached. *)
Theorem security_score_range :
  (forall url hs html,
      score (analyzeSecurity url hs html) = 100 - deductions (sec_effects url hs html)
      /\ (if is_https url then 35 else 10) <= score (analyzeSecurity url hs html)
         <= 100)
  /\ score (analyzeSecurity {| protocol := js "http:" |}
                            worst_security_headers worst_security_page) = 10
  /\ score (analyzeSecurity {| protocol := js "https:" |}
                            worst_security_headers worst_security_page) = 35.
Proof.
  split; [|split].
  - intros url hs html. unfold analyzeSecurity. rewrite score_finish.
    pose proof (sec_deductions_bounds url hs html). destruct (is_https url); lia.
  - vm_compute. reflexivity.
  - vm_compute. reflexivity.
Qed.

(** X4. The mobile score is 100 less the deductions and is never below
    29; the bound is reached. *)
Theorem mobile_score_range :
  (forall html,
      score (analyzeMobile html) = 100 - deductions (mob_effects html)
      /\ 29 <= score (analyzeMobile html) <= 100)
  /\ score (analyzeMobile worst_mobile_page) = 29.
Proof.
  split.
  - intros html. unfold analyzeMobile. rewrite score_finish.
    pose proof (mob_deductions_bounds html). lia.
  - vm_compute. reflexivity.
Qed.

(** X5. Whatever the platform does, the accessibility analyzer returns
    or throws; the score of a result is 100 less the deductions and is
    never below 21.  The bound is reached, and a page with an input whose
    [id] is not ASCII has a result as soon as the platform accepts the
    pattern made from it. *)
Theorem accessibility_score_range :
  (forall P html,
      returned (analyzeAccessibility P html)
        (fun r => (exists l, score r = 100 - deductions (acc_effects html l))
                  /\ 21 <= score r <= 100))
  /\ (forall P, exists r,
         analyzeAccessibility P worst_accessibility_page = Ok r /\ score r = 21)
  /\ exists r, analyzeAccessibility lenient_platform search_form_page = Ok r.
Proof.
  split; [|split].
  - intros P html. apply analyzeAccessibility_returned. intros l.
    rewrite score_finish. pose proof (acc_deductions_bounds html l).
    split; [exists l|]; lia.
  - intros P. eexists. split; vm_compute; reflexivity.
  - eexists. vm_compute. reflexivity.
Qed.

Lemma accessibility_score_range_witness :
  returned (analyzeAccessibility lenient_platform search_form_page)
    (fun r => (exists l, score r = 100 - deductions (acc_effects search_form_page l))
              /\ 21 <= score r <= 100).
Proof.
  exact (proj1 accessibility_score_range lenient_platform search_form_page).
Defined.

(** ** Response time and images *)

Lemma perf_response_time_monotone rt1 rt2 :
  rt1 <= rt2 ->
  deductions (perf_response_time rt1) <= deductions (perf_response_time rt2).
Proof. intros H. unfold perf_response_time. rule_bound. Qed.

(** X6. With the same HTML and the same inventory, a slower response never
    gives a higher performance score. *)
Theorem slower_response_never_scores_higher P rt1 rt2 html res r1 r2 :
  rt1 <= rt2 ->
  analyzePerformance P rt1 html res = Ok r1 ->
  analyzePerformance P rt2 html res = Ok r2 ->
  score r2 <= score r1.
Proof.
  intros Hle H1 H2.
  apply bind_Ok in H1. destruct H1 as (l1 & Hl1 & [= <-]).
  apply bind_Ok in H2. destruct H2 as (l2 & Hl2 & [= <-]).
  assert (l2 = l1) by congruence. subst l2.
  rewrite !score_finish, !perf_effects_deductions.
  pose proof (perf_response_time_monotone Hle). lia.
Qed.

Lemma slower_response_never_scores_higher_witness :
  exists r1 r2,
    analyzePerformance strict_platform 200 (js "<html><body>Hei</body></html>")
                       (extractResources (js "<html><body>Hei</body></html>")) = Ok r1
    /\ analyzePerformance strict_platform 2000 (js "<html><body>Hei</body></html>")
                          (extractResources (js "<html><body>Hei</body></html>")) = Ok r2
    /\ score r2 <= score r1.
Proof.
  assert (Hle : 200 <= 2000) by lia.
  eexists. eexists.
  split; [apply analyzePerformance_returns_on_extracted|].
  split; [apply analyzePerformance_returns_on_extracted|].
  exact (@slower_response_never_scores_higher strict_platform 200 2000 _ _ _ _ Hle
           (analyzePerformance_returns_on_extracted strict_platform 200 _)
           (analyzePerformance_returns_on_extracted strict_platform 2000 _)).
Defined.

Lemma indexed_short {A} (l : list A) :
  (length l <= 3)%nat -> forall p, In p (indexed l) -> (2 <? fst p) = false.
Proof.
  intros Hl [k a] Hp. unfold indexed in Hp. cbn [fst].
  apply in_combine_l in Hp. apply in_map_iff in Hp. destruct Hp as (n & <- & Hn).
  apply in_seq in Hn. apply Z.ltb_ge. lia.
Qed.

(** X7. On an inventory with at most three images the image rules of the
    performance analyzer execute no statement: each rule needs more than
    three images. *)
Theorem few_images_no_image_deduction res :
  size (images res) <= 3 -> perf_images res = [].
Proof.
  intros H. unfold perf_images.
  assert (Hl : (length (images res) <= 3)%nat) by (unfold size in H; lia).
  assert (H1 : count (fun i => negb (hasDimensions i)) (images res) <= 3).
  { pose proof (count_le_size (fun i => negb (hasDimensions i)) (images res)). lia. }
  assert (H2 : count (fun p => negb (hasLazyLoading (snd p)) && (2 <? fst p))
                     (indexed (images res)) = 0).
  { unfold count. rewrite filter_none; [reflexivity|].
    intros p Hp. rewrite (indexed_short _ Hl p Hp). apply andb_false_r. }
  rewrite H2.
  assert (H3 : (3 <? size (images res)) = false) by (apply Z.ltb_ge; lia).
  rewrite H3, !andb_false_r.
  assert (H4 : (3 <? count (fun i => negb (hasDimensions i)) (images res)) = false)
    by (apply Z.ltb_ge; lia).
  rewrite H4. destruct (0 <? size (images res)); reflexivity.
Qed.

Lemma few_images_no_image_deduction_witness :
  size (images (extractResources (js "<img src=`a.png`><img src=`b.png`><img>"))) <= 3
  /\ perf_images (extractResources (js "<img src=`a.png`><img src=`b.png`><img>")) = [].
Proof.
  assert (H : size (images (extractResources
                              (js "<img src=`a.png`><img src=`b.png`><img>"))) <= 3)
    by (vm_compute; discriminate).
  split; [exact H|]. exact (@few_images_no_image_deduction _ H).
Defined.

(** ** Matches of a global pattern *)

Local Open Scope nat_scope.

Lemma exec_at_matched_length i r p s m :
  exec_at i r p s = Some m -> length (matched m) <= length s.
Proof.
  unfold exec_at. destruct (rmatch i r (MState p s [])) as [|y l]; [discriminate|].
  intros [= <-]. cbn [matched]. rewrite length_firstn. lia.
Qed.

(** The matches of a global pattern do not overlap: their lengths add up
    to at most the length of the text. *)
Lemma match_all_from_total_length i r : forall s p skip,
  skip <= length s ->
  list_sum (map (fun m => length (matched m)) (match_all_from i r p s skip)) + skip
  <= length s.
Proof.
  unfold list_sum.
  induction s as [|c t IH]; intros p skip Hs; cbn [length] in Hs.
  - assert (skip = 0) by lia. subst skip. cbn [match_all_from].
    destruct (exec_at i r p []) as [m|] eqn:E; [|cbn; lia].
    apply exec_at_matched_length in E. cbn [length] in E.
    cbn [map fold_right length]. lia.
  - destruct skip as [|k]; cbn [match_all_from].
    + destruct (exec_at i r p (c :: t)) as [m|] eqn:E.
      * apply exec_at_matched_length in E. cbn [length] in E.
        cbn [map fold_right length].
        destruct (length (matched m)) as [|l]; cbn [Nat.pred].
        -- specialize (IH (Some c) 0 ltac:(lia)). lia.
        -- specialize (IH (Some c) l ltac:(lia)). lia.
      * specialize (IH (Some c) 0 ltac:(lia)). cbn [length]. lia.
    + specialize (IH (Some c) k ltac:(lia)). cbn [length]. lia.
Qed.

Lemma search_none_match_all i r : forall s p skip,
  search_from i r p s = None -> match_all_from i r p s skip = [].
Proof.
  induction s as [|c t IH]; intros p skip H; cbn [search_from] in H;
    destruct (exec_at i r p _) eqn:E; try discriminate;
    destruct skip; cbn [match_all_from]; rewrite ?E; auto.
Qed.

Lemma match_all_nil_search i r : forall s p,
  match_all_from i r p s 0 = [] -> search_from i r p s = None.
Proof.
  induction s as [|c t IH]; intros p H; cbn [match_all_from] in H;
    cbn [search_from]; destruct (exec_at i r p _) eqn:E; try discriminate; auto.
Qed.

Lemma search_from_none_mono i r1 r2 :
  (forall p s, exec_at i r1 p s = None -> exec_at i r2 p s = None) ->
  forall s p, search_from i r1 p s = None -> search_from i r2 p s = None.
Proof.
  intros Hex. induction s as [|c t IH]; intros p H; cbn [search_from] in *;
    destruct (exec_at i r1 p _) eqn:E; try discriminate;
    rewrite (Hex _ _ E); auto.
Qed.

Lemma search_from_exec i r : forall s p m,
  search_from i r p s = Some m -> exists p' s', exec_at i r p' s' = Some m.
Proof.
  induction s as [|c t IH]; intros p m H; cbn [search_from] in H;
    destruct (exec_at i r p _) eqn:E.
  - injection H as <-. eauto.
  - discriminate.
  - injection H as <-. eauto.
  - eapply IH. eassumption.
Qed.

Lemma match_g_exec i r s f :
  In f (match_g i r s) -> exists p s' m, exec_at i r p s' = Some m /\ matched m = f.
Proof.
  unfold match_g, match_all. intros H. apply in_map_iff in H.
  destruct H as (m & <- & Hm). apply match_all_from_exec in Hm.
  destruct Hm as (p & s' & Hm). eauto.
Qed.

Lemma exec_at_none i r p s :
  exec_at i r p s = None <-> rmatch i r (MState p s []) = [].
Proof.
  unfold exec_at. destruct (rmatch i r (MState p s [])); split; congruence.
Qed.

Lemma exec_at_In i r p s m :
  exec_at i r p s = Some m ->
  exists y, In y (rmatch i r (MState p s [])) /\ captures m = caps y.
Proof.
  unfold exec_at. destruct (rmatch i r (MState p s [])) as [|y l]; [discriminate|].
  intros [= <-]. exists y. split; [left; reflexivity|reflexivity].
Qed.

Lemma flat_map_not_nil {A B} (f : A -> list B) l :
  flat_map f l <> [] -> exists a, In a l /\ f a <> [].
Proof.
  induction l as [|a l IH]; cbn [flat_map]; intros H; [contradiction|].
  destruct (f a) eqn:E.
  - destruct (IH H) as (b & Hb & Hf). exists b. split; [right|]; assumption.
  - exists a. split; [left; reflexivity|]. rewrite E. discriminate.
Qed.

Lemma flat_map_In_not_nil {A B} (f : A -> list B) l a :
  In a l -> f a <> [] -> flat_map f l <> [].
Proof.
  intros Hin Hf H. apply Hf.
  destruct (f a) as [|b t] eqn:E; [reflexivity|].
  assert (Hb : In b (flat_map f l)).
  { apply in_flat_map. exists a. split; [assumption|]. rewrite E. left. reflexivity. }
  rewrite H in Hb. contradiction.
Qed.

(** A pattern that matches also matches when it is cut after a term. *)
Lemma rmatch_seq_cut i a b c x :
  rmatch i (RSeq a (RSeq b c)) x <> [] -> rmatch i (RSeq a b) x <> [].
Proof.
  cbn [rmatch]. intros H. apply flat_map_not_nil in H. destruct H as (z & Hz & Hbc).
  apply flat_map_not_nil in Hbc. destruct Hbc as (w & Hw & _).
  apply (flat_map_In_not_nil _ _ z Hz). intros E. rewrite E in Hw. contradiction.
Qed.

Lemma rmatch_under_char i c r1 r2 :
  (forall x, rmatch i r1 x <> [] -> rmatch i r2 x <> []) ->
  forall x, rmatch i (RSeq (RChar c) r1) x <> [] -> rmatch i (RSeq (RChar c) r2) x <> [].
Proof.
  intros H x. rewrite !rmatch_seq_char.
  destruct (rest x) as [|ch t]; [auto|]. destruct (char_eq i c ch); auto.
Qed.

(** ** Patterns made of literal characters *)

Lemma rmatch_literal r :
  is_literal r = true ->
  forall x, starts_with_ci (literal_prefix r) (rest x) = true -> rmatch true r x <> [].
Proof.
  induction r as [| c | | neg items | a IHa b IHb | a IHa b IHb
                  | min max greedy a IHa | n a IHa | neg a IHa | | | neg];
    intros Hl x Hs; try discriminate.
  - cbn [literal_prefix starts_with_ci] in Hs. cbn [rmatch]. unfold step.
    destruct (rest x) as [|ch t]; [discriminate|].
    destruct (char_eq true c ch); discriminate.
  - destruct a; try discriminate. cbn [is_literal] in Hl.
    cbn [literal_prefix starts_with_ci] in Hs. rewrite rmatch_seq_char.
    destruct (rest x) as [|ch t]; [discriminate|].
    destruct (char_eq true c ch); [|discriminate].
    apply IHb; [assumption|]. cbn [rest]. exact Hs.
Qed.

Lemma search_from_literal r :
  is_literal r = true ->
  forall s p, occurs_ci (literal_prefix r) s = true -> search_from true r p s <> None.
Proof.
  intros Hl. induction s as [|c t IH]; intros p H; cbn [occurs_ci] in H;
    cbn [search_from].
  - rewrite orb_false_r in H.
    destruct (exec_at true r p []) eqn:E; [discriminate|].
    apply exec_at_none in E. exfalso. revert E. apply rmatch_literal; assumption.
  - destruct (exec_at true r p (c :: t)) eqn:E; [discriminate|].
    apply exec_at_none in E.
    apply orb_true_iff in H. destruct H as [H|H].
    + exfalso. revert E. apply rmatch_literal; assumption.
    + apply IH. exact H.
Qed.

(** A pattern made of literal characters only, with the [i] flag, is a
    test for a substring, letters compared without regard to case. *)
Lemma test_literal r s :
  is_literal r = true -> test true r s = occurs_ci (literal_prefix r) s.
Proof.
  intros Hl. unfold test, search.
  destruct (occurs_ci (literal_prefix r) s) eqn:E.
  - pose proof (search_from_literal r Hl s None E) as H.
    destruct (search_from true r None s); [reflexivity|contradiction].
  - rewrite search_from_literal_prefix; [reflexivity|exact E].
Qed.

Local Close Scope nat_scope.

(** ** The estimate of the inline CSS *)

Lemma fold_left_sizes (l : list jsstring) : forall a,
  fold_left (fun total m => total + size m) l a
  = a + Z.of_nat (list_sum (map (@length char) l)).
Proof.
  unfold list_sum.
  induction l as [|m l IH]; intros a; cbn [fold_left map fold_right].
  - lia.
  - rewrite IH. unfold size. lia.
Qed.

Lemma match_g_total_length i r s :
  Z.of_nat (list_sum (map (@length char) (match_g i r s))) <= size s.
Proof.
  unfold match_g, match_all, size. rewrite map_map.
  pose proof (@match_all_from_total_length i r s None 0%nat). lia.
Qed.

(** X8. [estimateInlineCSS] adds up the lengths of matches that do not
    overlap, so it is at most the length of the document; the CSS rules
    can deduct more than 8 only from a document of more than 50000
    units. *)
Theorem inline_css_estimate_at_most_document html res :
  0 <= estimateInlineCSS html <= size html
  /\ deductions (perf_css html res) <= (if 50000 <? size html then 15 else 8).
Proof.
  assert (H : 0 <= estimateInlineCSS html <= size html).
  { unfold estimateInlineCSS. rewrite fold_left_sizes.
    pose proof (match_g_total_length true re_style_block html). lia. }
  split; [exact H|].
  unfold perf_css. rewrite deductions_app.
  destruct (50000 <? size html) eqn:E.
  - rule_bound.
  - apply Z.ltb_ge in E. rule_bound.
Qed.

(** ** Headings *)

Lemma h1_block_starts_with_h1_tag : forall x,
  rmatch true re_h1_block x <> [] ->
  rmatch true (RSeq (RChar 60%N) (RSeq (RChar 104%N) (RSeq (RChar 49%N)
      (RSeq (RRepeat 0 None true (RClass true [CChar 62%N])) (RChar 62%N))))) x <> [].
Proof.
  unfold re_h1_block.
  refine (@rmatch_under_char _ _ _ _ _). refine (@rmatch_under_char _ _ _ _ _).
  refine (@rmatch_under_char _ _ _ _ _).
  intros x. apply rmatch_seq_cut.
Qed.

Lemma h1_block_needs_h1_tag p s :
  exec_at true (RSeq (RChar 60%N) (RSeq (RChar 104%N) (RSeq (RChar 49%N)
      (RSeq (RRepeat 0 None true (RClass true [CChar 62%N])) (RChar 62%N))))) p s
  = None ->
  exec_at true re_h1_block p s = None.
Proof.
  rewrite !exec_at_none. intros H.
  destruct (rmatch true re_h1_block (MState p s [])) eqn:E; [reflexivity|].
  exfalso. revert H. apply h1_block_starts_with_h1_tag. rewrite E. discriminate.
Qed.

(** X9. When the accessibility analyzer counts no [<h1 ...>] tag, the SEO
    analyzer, which looks for [<h1 ...>] up to a closing [</h1>], counts
    none either: its [h1Count] is 0 and it reports the missing H1, as the
    accessibility analyzer does. *)
Theorem no_h1_tag_no_h1_block html :
  hd_error (headings html) = Some (1, 0) ->
  sm_h1Count (metrics (analyzeSEO html)) = 0
  /\ deductions (acc_h1 html) = 5
  /\ In (critical (js "Mangler H1-overskrift")) (details (analyzeSEO html)).
Proof.
  intros H. unfold headings, re_heading in H. cbn [map hd_error fst snd] in H.
  injection H as H. unfold size in H.
  assert (Hn : match_g true (RSeq (RChar 60%N) (RSeq (RChar 104%N) (RSeq (RChar 49%N)
      (RSeq (RRepeat 0 None true (RClass true [CChar 62%N])) (RChar 62%N))))) html = []).
  { apply length_zero_iff_nil. lia. }
  apply match_g_nil_match_all in Hn. unfold match_all in Hn.
  apply match_all_nil_search in Hn.
  apply (@search_from_none_mono _ _ _ h1_block_needs_h1_tag) in Hn.
  assert (Hb : match_g true re_h1_block html = []).
  { unfold match_g, match_all. rewrite search_none_match_all; [reflexivity|exact Hn]. }
  split; [|split].
  - cbn [analyzeSEO metrics finish sm_h1Count]. rewrite Hb. reflexivity.
  - unfold acc_h1, headings, re_heading. cbn [map fst snd].
    unfold size. rewrite H. reflexivity.
  - unfold analyzeSEO. rewrite details_finish. apply in_or_app. right.
    unfold seo_effects. rewrite !pushed_issues_app.
    apply in_or_app. right. apply in_or_app. right. apply in_or_app. left.
    unfold seo_headings. rewrite Hb. cbn. left. reflexivity.
Qed.

Lemma no_h1_tag_no_h1_block_witness :
  hd_error (headings (js "<h2>Tjenester</h2><p>Tekst</p>")) = Some (1, 0)
  /\ sm_h1Count (metrics (analyzeSEO (js "<h2>Tjenester</h2><p>Tekst</p>"))) = 0.
Proof.
  assert (H : hd_error (headings (js "<h2>Tjenester</h2><p>Tekst</p>")) = Some (1, 0))
    by (vm_compute; reflexivity).
  split; [exact H|]. exact (proj1 (@no_h1_tag_no_h1_block _ H)).
Defined.

(** ** Captures *)

Local Open Scope nat_scope.

Lemma get_cap_drop_caps n gs cs :
  existsb (Nat.eqb n) gs = false -> get_cap n (drop_caps gs cs) = get_cap n cs.
Proof.
  intros H. unfold get_cap, drop_caps.
  induction cs as [|[m v] cs IH]; [reflexivity|].
  cbn [filter find fst snd].
  destruct (Nat.eqb m n) eqn:E.
  - apply Nat.eqb_eq in E. subst m.
    assert (Hx : existsb (Nat.eqb n) gs = false) by exact H.
    rewrite Hx. cbn [negb find fst]. rewrite Nat.eqb_refl. reflexivity.
  - destruct (negb (existsb (Nat.eqb m) gs)); [|exact IH].
    cbn [find fst]. rewrite E. exact IH.
Qed.

Lemma get_cap_set_cap_other n m v cs :
  Nat.eqb n m = false -> get_cap n (set_cap m v cs) = get_cap n cs.
Proof.
  intros H. unfold set_cap.
  unfold get_cap at 1. cbn [find fst]. rewrite Nat.eqb_sym, H.
  fold (get_cap n (drop_caps [m] cs)). apply get_cap_drop_caps.
  cbn [existsb]. rewrite H. reflexivity.
Qed.

Lemma get_cap_set_cap n v cs : get_cap n (set_cap n v cs) = Some v.
Proof.
  unfold set_cap, get_cap. cbn [find fst snd]. rewrite Nat.eqb_refl. reflexivity.
Qed.

Lemma existsb_app_false {A} (f : A -> bool) l1 l2 :
  existsb f (l1 ++ l2) = false -> existsb f l1 = false /\ existsb f l2 = false.
Proof. rewrite existsb_app. apply orb_false_iff. Qed.

Lemma repeat_match_caps_frame body gs greedy n :
  existsb (Nat.eqb n) gs = false ->
  (forall x y, In y (body x) -> get_cap n (caps y) = get_cap n (caps x)) ->
  forall fuel min max x y,
    In y (repeat_match body gs greedy fuel min max x) ->
    get_cap n (caps y) = get_cap n (caps x).
Proof.
  intros Hn Hbody. induction fuel as [|f IH]; intros min max x y Hin; [contradiction|].
  cbn [repeat_match] in Hin.
  assert (Hiter : forall z,
    In z (flat_map
            (fun y0 =>
               if Nat.eqb min 0 && Nat.eqb (length (rest y0)) (length (rest x))
               then []
               else repeat_match body gs greedy f (Nat.pred min)
                                 (option_map Nat.pred max) y0)
            (body (MState (prev x) (rest x) (drop_caps gs (caps x))))) ->
    get_cap n (caps z) = get_cap n (caps x)).
  { intros z Hz. apply in_flat_map in Hz. destruct Hz as (w & Hw & Hz).
    apply Hbody in Hw. cbn [caps] in Hw. rewrite get_cap_drop_caps in Hw by exact Hn.
    destruct (Nat.eqb min 0 && Nat.eqb (length (rest w)) (length (rest x)));
      [contradiction|].
    apply IH in Hz. congruence. }
  assert (Hx : forall z, In z [x] -> get_cap n (caps z) = get_cap n (caps x)).
  { intros z [<-|[]]. reflexivity. }
  destruct max as [[|k]|]; try (apply Hx; assumption);
    destruct (Nat.eqb min 0); try destruct greedy;
    try (apply Hiter; assumption);
    try (apply in_app_or in Hin; destruct Hin; [apply Hiter|apply Hx]; assumption);
    try (destruct Hin as [<-|Hin]; [reflexivity|apply Hiter; assumption]).
Qed.

(** A pattern leaves alone the captures of the groups it does not
    contain. *)
Lemma rmatch_caps_frame i n r : forall x y,
  existsb (Nat.eqb n) (groups_in r) = false ->
  In y (rmatch i r x) -> get_cap n (caps y) = get_cap n (caps x).
Proof.
  induction r as [| c | | neg items | a IHa b IHb | a IHa b IHb
                  | min max greedy a IHa | m a IHa | neg a IHa | | | neg];
    intros x y Hn Hin; cbn [rmatch groups_in] in Hin, Hn.
  - destruct Hin as [<-|[]]. reflexivity.
  - unfold step in Hin. destruct (rest x) as [|ch t]; [contradiction|].
    destruct (char_eq i c ch); [|contradiction]. destruct Hin as [<-|[]]. reflexivity.
  - unfold step in Hin. destruct (rest x); [contradiction|].
    destruct (negb _); [|contradiction]. destruct Hin as [<-|[]]. reflexivity.
  - unfold step in Hin. destruct (rest x); [contradiction|].
    destruct (xorb _ _); [|contradiction]. destruct Hin as [<-|[]]. reflexivity.
  - apply existsb_app_false in Hn. destruct Hn as [Ha Hb].
    apply in_flat_map in Hin. destruct Hin as (z & Hz & Hy).
    rewrite (IHb _ _ Hb Hy). apply (IHa _ _ Ha Hz).
  - apply existsb_app_false in Hn. destruct Hn as [Ha Hb].
    apply in_app_or in Hin. destruct Hin; [apply IHa|apply IHb]; assumption.
  - eapply repeat_match_caps_frame; [exact Hn| |exact Hin].
    intros x0 y0 H0. apply IHa; assumption.
  - cbn [existsb] in Hn. apply orb_false_iff in Hn. destruct Hn as [Hm Ha].
    apply in_map_iff in Hin. destruct Hin as (z & <- & Hz). cbn [caps].
    rewrite get_cap_set_cap_other by exact Hm. apply IHa; assumption.
  - destruct (rmatch i a x) as [|z l] eqn:E; destruct neg;
      try contradiction; destruct Hin as [<-|[]]; try reflexivity.
    cbn [caps]. apply IHa; [assumption|]. rewrite E. left. reflexivity.
  - destruct (prev x); [contradiction|]. destruct Hin as [<-|[]]. reflexivity.
  - destruct (rest x); [|contradiction]. destruct Hin as [<-|[]]. reflexivity.
  - destruct (xorb neg _); [|contradiction]. destruct Hin as [<-|[]]. reflexivity.
Qed.

Lemma step_inv x ok y :
  In y (step x ok) -> exists c, rest x = c :: rest y /\ ok c = true.
Proof.
  unfold step. destruct (rest x) as [|c t]; [contradiction|].
  destruct (ok c) eqn:E; [|contradiction].
  intros [<-|[]]. exists c. split; [reflexivity|exact E].
Qed.

(** A repeated character class consumes a run of characters of the class,
    at least as many as the repetition requires. *)
Lemma repeat_match_run (ok : char -> bool) gs greedy :
  forall fuel min x y,
    In y (repeat_match (fun x => step x ok) gs greedy fuel min None x) ->
    exists u, rest x = u ++ rest y /\ forallb ok u = true /\ min <= length u.
Proof.
  induction fuel as [|f IH]; intros min x y Hin; [contradiction|].
  cbn [repeat_match] in Hin.
  assert (Hiter :
    In y (flat_map
            (fun y0 =>
               if Nat.eqb min 0 && Nat.eqb (length (rest y0)) (length (rest x))
               then []
               else repeat_match (fun x => step x ok) gs greedy f (Nat.pred min)
                                 (option_map Nat.pred None) y0)
            (step (MState (prev x) (rest x) (drop_caps gs (caps x))) ok)) ->
    exists u, rest x = u ++ rest y /\ forallb ok u = true /\ min <= length u).
  { intros Hz. apply in_flat_map in Hz. destruct Hz as (w & Hw & Hz).
    apply step_inv in Hw. cbn [rest] in Hw. destruct Hw as (c & Hc & Hok).
    destruct (Nat.eqb min 0 && Nat.eqb (length (rest w)) (length (rest x)));
      [contradiction|].
    cbn [option_map] in Hz. apply IH in Hz. destruct Hz as (u & Hu & Hall & Hlen).
    exists (c :: u). split; [rewrite Hc, Hu; reflexivity|].
    cbn [forallb length]. rewrite Hok, Hall. split; [reflexivity|lia]. }
  assert (Hx : min = 0 -> In y [x] ->
               exists u, rest x = u ++ rest y /\ forallb ok u = true /\ min <= length u).
  { intros -> [<-|[]]. exists []. split; [reflexivity|].
    split; [reflexivity|]. cbn [length]. lia. }
  destruct (Nat.eqb min 0) eqn:Emin.
  - apply Nat.eqb_eq in Emin. destruct greedy.
    + apply in_app_or in Hin. destruct Hin; [apply Hiter|apply Hx]; assumption.
    + destruct Hin as [<-|Hin];
        [apply Hx; [assumption|left; reflexivity]|apply Hiter; assumption].
  - apply Hiter. exact Hin.
Qed.

Lemma firstn_consumed {A} (u v : list A) :
  firstn (length (u ++ v) - length v) (u ++ v) = u.
Proof.
  rewrite length_app.
  replace (length u + length v - length v) with (length u) by lia.
  rewrite firstn_app, firstn_all, Nat.sub_diag. cbn [firstn]. apply app_nil_r.
Qed.

Lemma consumed_app x y u : rest x = u ++ rest y -> consumed x y = u.
Proof. intros H. unfold consumed. rewrite H. apply firstn_consumed. Qed.

Lemma rmatch_group_captures i n g x y :
  In y (rmatch i (RGroup n g) x) ->
  exists w, In w (rmatch i g x) /\ get_cap n (caps y) = Some (consumed x w).
Proof.
  cbn [rmatch]. intros Hin. apply in_map_iff in Hin. destruct Hin as (w & <- & Hw).
  exists w. split; [exact Hw|]. cbn [caps]. apply get_cap_set_cap.
Qed.

(** Whenever a pattern with its group on the spine matches, the group has
    taken part: its capture is the text one match of the group consumed. *)
Lemma spine_group_captures i r : forall g x y,
  spine_group r = Some g ->
  In y (rmatch i r x) ->
  exists x' w, In w (rmatch i g x') /\ get_cap 1 (caps y) = Some (consumed x' w).
Proof.
  induction r as [| c | | neg items | a IHa b IHb | a IHa b IHb
                  | min max greedy a IHa | n a IHa | neg a IHa | | | neg];
    intros g x y Hs Hin; try discriminate.
  - assert (Hcases :
      (exists g0, a = RGroup 1 g0 /\ groups_in b = [] /\ g = g0)
      \/ (groups_in a = [] /\ spine_group b = Some g)).
    { destruct a as [| | | | | | | n a0 | | | |]; cbn [spine_group] in Hs;
        try (match type of Hs with
             | context [match groups_in ?a with _ => _ end] =>
               destruct (groups_in a) eqn:Eg;
                 [right; split; [first [exact Eg|reflexivity]|exact Hs]|discriminate]
             end).
      destruct n as [|[|n]]; try (cbn [groups_in] in Hs; discriminate).
      destruct (groups_in b) eqn:Eb; [|discriminate].
      injection Hs as <-. left. eexists. repeat split. }
    cbn [rmatch] in Hin. apply in_flat_map in Hin. destruct Hin as (z & Hz & Hy).
    destruct Hcases as [(g0 & -> & Hb & ->)|[Ha Hb]].
    + apply rmatch_group_captures in Hz. destruct Hz as (w & Hw & Hc).
      exists x, w. split; [exact Hw|].
      rewrite (@rmatch_caps_frame i 1 b z y); [exact Hc| |exact Hy].
      rewrite Hb. reflexivity.
    + eapply IHb; eassumption.
  - cbn [spine_group] in Hs. destruct n as [|[|n]]; try discriminate.
    injection Hs as <-. apply rmatch_group_captures in Hin.
    destruct Hin as (w & Hw & Hc). eauto.
Qed.

Lemma not_quote_class c :
  xorb true (class_mem true [CChar 34%N; CChar 39%N] c) = true -> is_quote c = false.
Proof.
  unfold is_quote. intros H.
  destruct (N.eqb_spec c 34%N) as [->|_]; [vm_compute in H; discriminate|].
  destruct (N.eqb_spec c 39%N) as [->|_]; [vm_compute in H; discriminate|].
  reflexivity.
Qed.

Lemma quoted_run x w :
  In w (rmatch true (RRepeat 1 None true (RClass true [CChar 34%N; CChar 39%N])) x) ->
  quoted_value (consumed x w).
Proof.
  cbn [rmatch]. intros Hw.
  apply repeat_match_run in Hw. destruct Hw as (u & Hu & Hall & Hlen).
  rewrite (@consumed_app _ _ _ Hu). split.
  - destruct u; [cbn in Hlen; lia|discriminate].
  - rewrite forallb_forall in *. intros c Hc. specialize (Hall c Hc).
    apply not_quote_class in Hall. rewrite Hall. reflexivity.
Qed.

Lemma exec_at_quoted_group r p s m :
  spine_group r = Some (RRepeat 1 None true (RClass true [CChar 34%N; CChar 39%N])) ->
  exec_at true r p s = Some m ->
  quoted_value (the_group 1 m).
Proof.
  intros Hs He. apply exec_at_In in He. destruct He as (y & Hy & Hc).
  destruct (@spine_group_captures _ _ _ _ _ Hs Hy) as (x' & w & Hw & Hg).
  unfold the_group, group. rewrite Hc, Hg. apply quoted_run. exact Hw.
Qed.

Local Close Scope nat_scope.

(** ** What the extractor lists *)

(** X10. Every stylesheet the extractor lists has an [href] that is not
    empty and holds no quote character, and so has every [src] it records
    for an image or an iframe: the group of the pattern takes part in
    every match. *)
Theorem extracted_urls_are_quoted_values html :
  (forall s, In s (stylesheets (extractResources html)) -> quoted_value (href s))
  /\ (forall i, In i (images (extractResources html)) -> present_value (image_src i))
  /\ (forall f, In f (iframes (extractResources html)) -> present_value (iframe_src f)).
Proof.
  cbn [extractResources stylesheets images iframes]. split; [|split].
  - intros s Hin. apply in_map_iff in Hin. destruct Hin as (m & <- & Hm).
    apply match_all_from_exec in Hm. destruct Hm as (p & t & Hm).
    cbn [stylesheet_of href].
    eapply exec_at_quoted_group; [|exact Hm]. reflexivity.
  - intros i Hin. apply in_map_iff in Hin. destruct Hin as (m & <- & _).
    cbn [image_of image_src].
    destruct (search true re_src (matched m)) as [sm|] eqn:E; [|exact I].
    cbn [option_map present_value].
    apply search_from_exec in E. destruct E as (p & t & E).
    eapply exec_at_quoted_group; [|exact E]. reflexivity.
  - intros f Hin. apply in_map_iff in Hin. destruct Hin as (m & <- & _).
    cbn [iframe_of iframe_src].
    destruct (search true re_src (matched m)) as [sm|] eqn:E; [|exact I].
    cbn [option_map present_value].
    apply search_from_exec in E. destruct E as (p & t & E).
    eapply exec_at_quoted_group; [|exact E]. reflexivity.
Qed.

Lemma extracted_urls_are_quoted_values_witness :
  In {| href := js "a.css"; isPreload := false |}
     (stylesheets (extractResources (js "<link rel=`stylesheet` href=`a.css`>")))
  /\ quoted_value (js "a.css").
Proof.
  assert (H : In {| href := js "a.css"; isPreload := false |}
                 (stylesheets (extractResources
                                 (js "<link rel=`stylesheet` href=`a.css`>"))))
    by (vm_compute; left; reflexivity).
  split; [exact H|].
  exact (proj1 (@extracted_urls_are_quoted_values
                  (js "<link rel=`stylesheet` href=`a.css`>")) _ H).
Defined.

Lemma search_from_alt i r r1 r2 :
  (forall x, rmatch i r x = [] <-> rmatch i r1 x = [] /\ rmatch i r2 x = []) ->
  forall s p,
    is_some (search_from i r p s)
    = is_some (search_from i r1 p s) || is_some (search_from i r2 p s).
Proof.
  intros H.
  assert (Hex : forall p s,
    is_some (exec_at i r p s)
    = is_some (exec_at i r1 p s) || is_some (exec_at i r2 p s)).
  { intros p s. unfold exec_at. specialize (H (MState p s [])).
    destruct (rmatch i r (MState p s [])), (rmatch i r1 (MState p s [])),
      (rmatch i r2 (MState p s [])); cbn [is_some orb]; try reflexivity;
      exfalso; destruct H as [H1 H2];
      first [ discriminate (H2 (conj eq_refl eq_refl))
            | destruct (H1 eq_refl); discriminate ]. }
  induction s as [|c t IH]; intros p; cbn [search_from]; specialize (Hex p).
  - specialize (Hex []).
    destruct (exec_at i r p []), (exec_at i r1 p []), (exec_at i r2 p []);
      cbn [is_some orb] in *; congruence.
  - specialize (Hex (c :: t)). specialize (IH (Some c)).
    destruct (exec_at i r p (c :: t)), (exec_at i r1 p (c :: t)),
      (exec_at i r2 p (c :: t)); cbn [is_some orb] in *; try congruence;
      try exact IH; rewrite orb_true_r; reflexivity.
Qed.

Lemma modern_is_webp_or_avif s :
  test true re_modern s = test true re_webp s || test true re_avif s.
Proof.
  change (is_some (search_from true re_modern None s)
          = is_some (search_from true re_webp None s)
            || is_some (search_from true re_avif None s)).
  apply search_from_alt.
  intros x. unfold re_modern, re_webp, re_avif. rewrite !rmatch_seq_char.
  destruct (rest x) as [|ch t]; [tauto|].
  destruct (char_eq true 46%N ch); [|tauto].
  cbn [rmatch]. split.
  - intros H. apply map_eq_nil in H. apply app_eq_nil in H. exact H.
  - intros [H1 H2]. cbn [rmatch] in H1, H2. rewrite H1, H2. reflexivity.
Qed.

(** X11. Every image entry the extractor builds is consistent:
    [isModernFormat] is [isWebP] or [isAvif], [hasAlt] says whether there
    is an [altText], [hasEmptyAlt] says whether that text is empty,
    [hasDimensions] says whether both [width] and [height] are there, and
    a modern format is only reported for an image with a [src]. *)
Theorem extracted_image_invariants html i :
  In i (images (extractResources html)) ->
  isModernFormat i = isWebP i || isAvif i
  /\ hasAlt i = is_some (altText i)
  /\ hasEmptyAlt i = match altText i with Some [] => true | _ => false end
  /\ hasDimensions i = is_some (width i) && is_some (height i)
  /\ (isModernFormat i = true -> is_some (image_src i) = true).
Proof.
  cbn [extractResources images]. intros Hin.
  apply in_map_iff in Hin. destruct Hin as (m & <- & _).
  unfold image_of.
  cbn [isModernFormat isWebP isAvif hasAlt altText hasEmptyAlt hasDimensions
       width height image_src].
  split; [|split; [|split; [|split]]].
  - destruct (search true re_src (matched m));
      [apply modern_is_webp_or_avif|reflexivity].
  - destruct (search true re_alt_value (matched m)); reflexivity.
  - destruct (search true re_alt_value (matched m)) as [am|]; [|reflexivity].
    cbn [option_map]. unfold jsstring_eqb.
    destruct (list_eq_dec N.eq_dec (the_group 1 am) []) as [->|Hne]; [reflexivity|].
    destruct (the_group 1 am); [contradiction|reflexivity].
  - destruct (search true re_width (matched m)), (search true re_height (matched m));
      reflexivity.
  - destruct (search true re_src (matched m)); [reflexivity|discriminate].
Qed.

Lemma extracted_image_invariants_witness :
  exists i,
    In i (images (extractResources (js "<img src=`a.WEBP` alt=`` width=`10`>")))
    /\ isModernFormat i = isWebP i || isAvif i
    /\ hasAlt i = is_some (altText i)
    /\ hasEmptyAlt i = match altText i with Some [] => true | _ => false end
    /\ hasDimensions i = is_some (width i) && is_some (height i)
    /\ (isModernFormat i = true -> is_some (image_src i) = true).
Proof.
  eassert (H : In _ (images (extractResources
                               (js "<img src=`a.WEBP` alt=`` width=`10`>"))))
    by (vm_compute; left; reflexivity).
  eexists. split; [exact H|]. exact (@extracted_image_invariants _ _ H).
Defined.

Lemma filter_map_comm {A B} (f : A -> B) (p : B -> bool) l :
  filter p (map f l) = map f (filter (fun a => p (f a)) l).
Proof.
  induction l as [|a l IH]; [reflexivity|]. cbn [map filter].
  destruct (p (f a)); cbn [map]; rewrite IH; reflexivity.
Qed.

Lemma filter_length_implies {A} (p q : A -> bool) l :
  (forall a, p a = true -> q a = true) ->
  (length (filter p l) <= length (filter q l))%nat.
Proof.
  intros H. induction l as [|a l IH]; [reflexivity|]. cbn [filter].
  destruct (p a) eqn:Ep.
  - rewrite (H a Ep). cbn [length]. lia.
  - destruct (q a); cbn [length]; lia.
Qed.

Lemma quoted_alt_has_alt tag :
  test true re_alt tag = false -> search true re_alt_value tag = None.
Proof.
  intros H. rewrite (@test_literal re_alt tag eq_refl) in H.
  apply search_from_literal_prefix. exact H.
Qed.

(** X12. The image counts of the analyzers agree with the inventory: the
    performance and the mobile analyzer report the same [totalImages];
    [responsiveImages] is the number of entries with [hasSrcset] and at
    most [totalImages]; and an image the SEO analyzer counts as lacking
    [alt] is never one the extractor lists with [hasAlt]. *)
Theorem image_counts_agree P responseTime html :
  exists r,
    analyzePerformance P responseTime html (extractResources html) = Ok r
    /\ pm_totalImages (metrics r) = mm_totalImages (metrics (analyzeMobile html))
    /\ mm_responsiveImages (metrics (analyzeMobile html))
       = count hasSrcset (images (extractResources html))
    /\ 0 <= mm_responsiveImages (metrics (analyzeMobile html))
         <= mm_totalImages (metrics (analyzeMobile html))
    /\ sm_imagesWithoutAlt (metrics (analyzeSEO html))
       <= count (fun i => negb (hasAlt i)) (images (extractResources html)).
Proof.
  eexists. split; [apply analyzePerformance_returns_on_extracted|].
  cbn [metrics finish pm_totalImages analyzeMobile mm_totalImages mm_responsiveImages
       analyzeSEO sm_imagesWithoutAlt].
  cbn [extractResources images].
  unfold responsiveImages, imagesWithoutAlt, match_g, count, size.
  rewrite !filter_map_comm, !length_map.
  split; [reflexivity|]. split; [reflexivity|]. split.
  - pose proof (filter_length_le (fun a => test true re_srcset (matched a))
                  (match_all true re_img html)). lia.
  - apply inj_le. apply filter_length_implies. intros m Hm.
    apply negb_true_iff in Hm. apply quoted_alt_has_alt in Hm.
    cbn [image_of hasAlt]. rewrite Hm. reflexivity.
Qed.

(** ** The number in a CSS length *)

Local Open Scope nat_scope.

Lemma swap_case_digit c : is_digit (swap_case c) = true -> is_digit c = true.
Proof.
  intros Hd. unfold swap_case in Hd.
  destruct (is_lower c) eqn:El.
  - exfalso. unfold is_lower, is_digit, between in *.
    apply andb_true_iff in El, Hd. destruct El as [E1 E2], Hd as [D1 D2].
    apply N.leb_le in E1, E2, D1, D2. lia.
  - destruct (is_upper c) eqn:Eu; [|exact Hd].
    exfalso. unfold is_upper, is_digit, between in *.
    apply andb_true_iff in Eu, Hd. destruct Eu as [E1 E2], Hd as [D1 D2].
    apply N.leb_le in E1, E2, D1, D2. lia.
Qed.

Lemma digit_item_sound it c :
  digit_item it = true -> in_item it c = true -> is_digit c = true.
Proof.
  destruct it as [a|lo hi|neg|neg|neg]; cbn [digit_item in_item]; intros Hd Hi;
    try discriminate.
  - apply N.eqb_eq in Hi. subst a. exact Hd.
  - unfold between, is_digit in *.
    apply andb_true_iff in Hd. destruct Hd as [H1 H2].
    apply andb_true_iff in Hi. destruct Hi as [H3 H4].
    apply N.leb_le in H1, H2, H3, H4.
    apply andb_true_iff. split; apply N.leb_le; lia.
  - destruct neg; [discriminate|]. exact Hi.
Qed.

Lemma digit_class_sound i items c :
  forallb digit_item items = true -> class_mem i items c = true -> is_digit c = true.
Proof.
  intros Hall Hm. unfold class_mem in Hm. apply existsb_exists in Hm.
  destruct Hm as (it & Hit & Hm). rewrite forallb_forall in Hall.
  specialize (Hall it Hit). apply orb_true_iff in Hm. destruct Hm as [Hm|Hm].
  - eapply digit_item_sound; eassumption.
  - apply andb_true_iff in Hm. destruct Hm as [_ Hm].
    apply swap_case_digit. eapply digit_item_sound; eassumption.
Qed.

Lemma repeat_match_pos body gs greedy f k x :
  repeat_match body gs greedy (S f) (S k) None x
  = flat_map (fun y => repeat_match body gs greedy f k None y)
             (body (MState (prev x) (rest x) (drop_caps gs (caps x)))).
Proof. reflexivity. Qed.

(** Every match of a pattern that needs a digit takes one. *)
Lemma needs_digit_sound i r : forall x y,
  needs_digit r = true ->
  In y (rmatch i r x) ->
  exists u, rest x = u ++ rest y /\ existsb is_digit u = true.
Proof.
  induction r as [| c | | neg items | a IHa b IHb | a IHa b IHb
                  | min max greedy a IHa | n a IHa | neg a IHa | | | neg];
    intros x y Hn Hin; cbn [needs_digit] in Hn; try discriminate.
  - destruct neg; [discriminate|]. cbn [rmatch] in Hin.
    apply step_inv in Hin. destruct Hin as (c & Hc & Hok). cbn [xorb] in Hok.
    exists [c]. split; [exact Hc|]. cbn [existsb].
    rewrite (digit_class_sound i items c Hn Hok). reflexivity.
  - cbn [rmatch] in Hin. apply in_flat_map in Hin. destruct Hin as (z & Hz & Hy).
    apply orb_true_iff in Hn. destruct Hn as [Hn|Hn].
    + destruct (IHa _ _ Hn Hz) as (u & Hu & Hd).
      apply rmatch_suffix in Hy. destruct Hy as (v & Hv).
      exists (u ++ v). split; [rewrite Hu, Hv, app_assoc; reflexivity|].
      rewrite existsb_app, Hd. reflexivity.
    + destruct (IHb _ _ Hn Hy) as (u & Hu & Hd).
      apply rmatch_suffix in Hz. destruct Hz as (v & Hv).
      exists (v ++ u). split; [rewrite Hv, Hu, app_assoc; reflexivity|].
      rewrite existsb_app, Hd. apply orb_true_r.
  - cbn [rmatch] in Hin. apply andb_true_iff in Hn. destruct Hn as [Ha Hb].
    apply in_app_or in Hin. destruct Hin; [eapply IHa|eapply IHb]; eassumption.
  - destruct min as [|k]; [discriminate|]. destruct max; [discriminate|].
    cbn [rmatch] in Hin. rewrite repeat_match_pos in Hin.
    apply in_flat_map in Hin. destruct Hin as (w & Hw & Hy).
    apply IHa in Hw; [|exact Hn]. cbn [rest] in Hw. destruct Hw as (u & Hu & Hd).
    eapply repeat_match_suffix in Hy;
      [|intros ? ? ?; eapply rmatch_suffix; eassumption].
    destruct Hy as (v & Hv).
    exists (u ++ v). split; [rewrite Hu, Hv, app_assoc; reflexivity|].
    rewrite existsb_app, Hd. reflexivity.
  - cbn [rmatch] in Hin. apply in_map_iff in Hin. destruct Hin as (z & <- & Hz).
    cbn [rest]. eapply IHa; eassumption.
Qed.

Lemma exec_at_needs_digit i r p s m :
  needs_digit r = true -> exec_at i r p s = Some m ->
  existsb is_digit (matched m) = true.
Proof.
  intros Hn He. unfold exec_at in He.
  destruct (rmatch i r (MState p s [])) as [|y l] eqn:E; [discriminate|].
  injection He as <-. cbn [matched].
  destruct (@needs_digit_sound i r (MState p s []) y Hn) as (u & Hu & Hd).
  { rewrite E. left. reflexivity. }
  cbn [rest] in Hu. rewrite Hu, firstn_consumed. exact Hd.
Qed.

Lemma digit_class c : xorb false (class_mem false [CDigit false] c) = is_digit c.
Proof.
  unfold class_mem. cbn [existsb in_item xorb andb orb].
  destruct (is_digit c); reflexivity.
Qed.

Lemma drop_while_length (ok : char -> bool) t :
  length (drop_while ok t) <= length t.
Proof.
  induction t as [|d t IH]; cbn [drop_while length]; [lia|].
  destruct (ok d); cbn [length]; lia.
Qed.

Lemma firstn_run (ok : char -> bool) t :
  (forall c, ok c = is_digit c) ->
  firstn (length t - length (drop_while ok t)) t = take_digits t.
Proof.
  intros Hok. induction t as [|c t IH]; [reflexivity|].
  cbn [drop_while take_digits]. rewrite Hok. destruct (is_digit c).
  - pose proof (drop_while_length ok t) as Hle. cbn [length].
    replace (S (length t) - length (drop_while ok t))
      with (S (length t - length (drop_while ok t))) by lia.
    cbn [firstn]. rewrite IH. reflexivity.
  - cbn [length]. rewrite Nat.sub_diag. reflexivity.
Qed.

(** Where [/\d+/] matches: at a digit, and then it takes the whole run. *)
Lemma exec_at_digits p s :
  exec_at false re_digits p s =
  match s with
  | c :: t => if is_digit c then Some (JSMatch (c :: take_digits t) []) else None
  | [] => None
  end.
Proof.
  unfold exec_at.
  change (rmatch false re_digits (MState p s []))
    with (repeat_match (rmatch false (RClass false [CDigit false])) [] true
                       (S (1 + length s)) 1 None (MState p s [])).
  rewrite repeat_match_pos. cbn [prev rest caps]. rewrite drop_caps_nil.
  destruct s as [|c t]; [reflexivity|].
  change (rmatch false (RClass false [CDigit false]) (MState p (c :: t) []))
    with (if xorb false (class_mem false [CDigit false] c)
          then [MState (Some c) t []] else []).
  rewrite digit_class. destruct (is_digit c); [|reflexivity].
  cbn [flat_map].
  destruct (@greedy_run_head (rmatch false (RClass false [CDigit false]))
              (fun c => xorb false (class_mem false [CDigit false] c))
              (fun x => eq_refl) t (Some c) [] (1 + length (c :: t)))
    as (y & l & Hy & Hc & Hr); [cbn [length]; lia|].
  rewrite Hy. cbn [app]. rewrite Hc, Hr.
  f_equal. f_equal. cbn [length].
  pose proof (drop_while_length
                (fun c => xorb false (class_mem false [CDigit false] c)) t) as Hle.
  replace (S (length t) - length (drop_while
             (fun c => xorb false (class_mem false [CDigit false] c)) t))
    with (S (length t - length (drop_while
             (fun c => xorb false (class_mem false [CDigit false] c)) t))) by lia.
  cbn [firstn]. rewrite firstn_run; [reflexivity|]. intros d. apply digit_class.
Qed.

Lemma search_from_digits : forall f p,
  search_from false re_digits p f =
  match drop_non_digits f with
  | [] => None
  | c :: t => Some (JSMatch (take_digits (c :: t)) [])
  end.
Proof.
  induction f as [|c t IH]; intros p; cbn [search_from]; rewrite exec_at_digits;
    [reflexivity|].
  cbn [drop_non_digits]. destruct (is_digit c) eqn:E.
  - cbn [take_digits]. rewrite E. reflexivity.
  - apply IH.
Qed.

Lemma drop_non_digits_some f :
  existsb is_digit f = true -> drop_non_digits f <> [].
Proof.
  induction f as [|c t IH]; cbn [existsb drop_non_digits]; [discriminate|].
  destruct (is_digit c); [discriminate|]. exact IH.
Qed.

Lemma parseInt_first_digits_spec f :
  existsb is_digit f = true -> parseInt_first_digits f = Ok (first_number f).
Proof.
  intros H. apply drop_non_digits_some in H.
  unfold parseInt_first_digits, search, first_number. rewrite search_from_digits.
  destruct (drop_non_digits f); [contradiction|]. reflexivity.
Qed.

Local Close Scope nat_scope.

(** X13. In the callbacks of the mobile analyzer, [f.match(/\d+/)] is
    never [null]: every match of the font-size pattern and of the
    fixed-width pattern holds a digit, so [parseInt(f.match(/\d+/)[0])]
    does not throw and is the number of the first run of digits of the
    match. *)
Theorem css_length_always_has_digits html f :
  In f (match_g true re_font_size html) \/ In f (match_g true re_fixed_width html) ->
  parseInt_first_digits f = Ok (first_number f).
Proof.
  intros H. apply parseInt_first_digits_spec.
  destruct H as [H|H]; apply match_g_exec in H; destruct H as (p & s & m & Hm & <-);
    (eapply exec_at_needs_digit; [|exact Hm]); reflexivity.
Qed.

Lemma css_length_always_has_digits_witness :
  In (js "font-size: 9px") (match_g true re_font_size (js "<p style=`font-size: 9px`>"))
  /\ parseInt_first_digits (js "font-size: 9px") = Ok 9%N.
Proof.
  assert (H : In (js "font-size: 9px")
                 (match_g true re_font_size (js "<p style=`font-size: 9px`>")))
    by (vm_compute; left; reflexivity).
  split; [exact H|].
  exact (@css_length_always_has_digits (js "<p style=`font-size: 9px`>") _
           (or_introl H)).
Defined.

(** ** The pattern of a label *)

Local Open Scope nat_scope.

Lemma literal_unit_tests c :
  is_literal_unit c = true ->
  is_ch "^" c = false /\ is_ch "$" c = false /\ is_ch "\" c = false
  /\ is_ch "." c = false /\ is_ch "*" c = false /\ is_ch "+" c = false
  /\ is_ch "?" c = false /\ is_ch "(" c = false /\ is_ch ")" c = false
  /\ is_ch "[" c = false /\ is_ch "]" c = false /\ is_ch "{" c = false
  /\ is_ch "}" c = false /\ is_ch "|" c = false /\ (128 <=? c)%N = false.
Proof.
  unfold is_literal_unit, is_syntax_char. intros H.
  apply andb_true_iff in H. destruct H as [H1 H2].
  apply negb_true_iff in H2.
  repeat (apply orb_false_iff in H2; destruct H2 as [H2 ?]).
  repeat split; try assumption.
  apply N.leb_gt. apply N.ltb_lt. exact H1.
Qed.

Lemma quantifier_literal c t :
  is_literal_unit c = true -> quantifier (c :: t) = Ok (None, c :: t).
Proof.
  intros H. apply literal_unit_tests in H.
  destruct H as (_ & _ & _ & _ & H1 & H2 & H3 & _ & _ & _ & _ & H4 & _).
  unfold quantifier. rewrite H1, H2, H3, H4. reflexivity.
Qed.

Lemma parse_seq_literal_step c t f n :
  is_literal_unit c = true ->
  quantifier t = Ok (None, t) ->
  parse_seq (S f) n (c :: t) =
  bind (parse_seq f n t)
       (fun x => match x with
                 | (tl, n2, s3) => Ok (mk_seq (RChar c) tl, n2, s3)
                 end).
Proof.
  intros H Hq. apply literal_unit_tests in H.
  destruct H as (H1 & H2 & H3 & H4 & H5 & H6 & H7 & H8 & H9 & H10 & H11 & H12
                 & H13 & H14 & H15).
  cbn [parse_seq].
  rewrite H1, H2, H3, H4, H5, H6, H7, H8, H9, H10, H12, H14, H15.
  cbn [orb bind]. rewrite Hq. cbn [bind apply_quantifier]. reflexivity.
Qed.

(** A run of literal units is read unit by unit. *)
Lemma parse_seq_literal : forall id f n tail r n' s',
  forallb is_literal_unit id = true ->
  quantifier tail = Ok (None, tail) ->
  parse_seq f n tail = Ok (r, n', s') ->
  exists r', parse_seq (length id + f) n (id ++ tail) = Ok (r', n', s').
Proof.
  induction id as [|c id IH]; intros f n tail r n' s' Hall Hq Hp.
  - exists r. exact Hp.
  - cbn [forallb] in Hall. apply andb_true_iff in Hall. destruct Hall as [Hc Hall].
    cbn [length app Nat.add].
    rewrite parse_seq_literal_step; [|exact Hc|].
    + destruct (IH f n tail r n' s' Hall Hq Hp) as (r' & Hr').
      rewrite Hr'. cbn [bind]. eexists. reflexivity.
    + destruct id as [|d id]; [exact Hq|].
      cbn [forallb] in Hall. apply andb_true_iff in Hall. destruct Hall as [Hd _].
      cbn [app]. apply quantifier_literal. exact Hd.
Qed.

Lemma parse_seq_label_suffix f n :
  parse_seq (S (S f)) n [91; 34; 39; 93]%N
  = Ok (RClass false [CChar 34%N; CChar 39%N], n, []).
Proof. reflexivity. Qed.

(** The term [[^>]*], followed by something other than a question mark. *)
Lemma parse_seq_not_gt_star_step f n t :
  lazy_mark t = (true, t) ->
  parse_seq (S f) n ([91; 94; 62; 93; 42]%N ++ t) =
  bind (parse_seq f n t)
       (fun x => match x with
                 | (tl, n2, s3) =>
                   Ok (mk_seq (RRepeat 0 None true (RClass true [CChar 62%N])) tl,
                       n2, s3)
                 end).
Proof.
  intros Hl. cbn [app parse_seq].
  lazy -[parse_seq parse_disj lazy_mark].
  rewrite Hl. reflexivity.
Qed.

(** The term [[`']], followed by something that is not a quantifier. *)
Lemma parse_seq_quote_class_step f n t :
  quantifier t = Ok (None, t) ->
  parse_seq (S f) n ([91; 34; 39; 93]%N ++ t) =
  bind (parse_seq f n t)
       (fun x => match x with
                 | (tl, n2, s3) =>
                   Ok (mk_seq (RClass false [CChar 34%N; CChar 39%N]) tl, n2, s3)
                 end).
Proof.
  intros Hq. cbn [app parse_seq].
  lazy -[parse_seq parse_disj quantifier].
  rewrite Hq. reflexivity.
Qed.

Lemma quantifier_before_quote_class id :
  forallb is_literal_unit id = true ->
  quantifier (id ++ [91; 34; 39; 93]%N) = Ok (None, id ++ [91; 34; 39; 93]%N).
Proof.
  destruct id as [|c id]; [reflexivity|]. cbn [forallb app]. intros H.
  apply andb_true_iff in H. destruct H as [Hc _]. apply quantifier_literal. exact Hc.
Qed.

(** The pattern of a label is accepted when the [id] pasted into it is
    made of literal units. *)
Lemma label_pattern_compiles id :
  forallb is_literal_unit id = true ->
  exists r, read_pattern (js "<label[^>]*for=[`']" ++ id ++ js "[`']") = Ok r.
Proof.
  intros Hid.
  change (js "<label[^>]*for=[`']")
    with (([60; 108; 97; 98; 101; 108]%N : jsstring)
          ++ ([91; 94; 62; 93; 42]%N : jsstring)
          ++ ([102; 111; 114; 61]%N : jsstring) ++ ([91; 34; 39; 93]%N : jsstring)).
  change (js "[`']") with ([91; 34; 39; 93]%N : jsstring).
  rewrite <- !app_assoc.
  set (C2 := [91; 34; 39; 93]%N : jsstring).
  set (P2 := [102; 111; 114; 61]%N : jsstring).
  set (C1 := [91; 94; 62; 93; 42]%N : jsstring).
  set (P1 := [60; 108; 97; 98; 101; 108]%N : jsstring).
  set (g := 34 + length id).
  (* from the end of the text to its start *)
  destruct (@parse_seq_literal id (S (S g)) 1 C2 _ 1 [] Hid eq_refl
              (parse_seq_label_suffix g 1)) as (r1 & H1).
  assert (H2 : exists r2, parse_seq (S (length id + S (S g))) 1 (C2 ++ id ++ C2)
                          = Ok (r2, 1, [])).
  { unfold C2 at 1. rewrite parse_seq_quote_class_step.
    - rewrite H1. cbn [bind]. eexists. reflexivity.
    - apply quantifier_before_quote_class. exact Hid. }
  destruct H2 as (r2 & H2).
  destruct (@parse_seq_literal P2 (S (length id + S (S g))) 1 (C2 ++ id ++ C2) _ 1 []
              eq_refl eq_refl H2) as (r3 & H3).
  assert (H4 : exists r4,
             parse_seq (S (length P2 + S (length id + S (S g)))) 1
                       (C1 ++ P2 ++ C2 ++ id ++ C2) = Ok (r4, 1, [])).
  { unfold C1. rewrite parse_seq_not_gt_star_step; [|reflexivity].
    rewrite H3. cbn [bind]. eexists. reflexivity. }
  destruct H4 as (r4 & H4).
  destruct (@parse_seq_literal P1 (S (length P2 + S (length id + S (S g)))) 1
              (C1 ++ P2 ++ C2 ++ id ++ C2) _ 1 [] eq_refl eq_refl H4) as (r5 & H5).
  exists r5. unfold read_pattern.
  replace (2 * length (P1 ++ C1 ++ P2 ++ C2 ++ id ++ C2) + 3)
    with (S (length P1 + S (length P2 + S (length id + S (S g))))).
  - cbn [parse_disj]. rewrite H5. reflexivity.
  - rewrite !length_app. unfold P1, C1, P2, C2, g. cbn [length]. lia.
Qed.

Local Close Scope nat_scope.

Lemma lacks_label_returns P html input :
  match search true re_id input with
  | Some idMatch => forallb is_literal_unit (the_group 1 idMatch)
  | None => true
  end = true ->
  exists b, lacks_label P html input = Ok b.
Proof.
  unfold lacks_label. destruct (search true re_id input) as [idMatch|]; intros H.
  - destruct (label_pattern_compiles _ H) as (r & Hr). unfold RegExp.
    rewrite Hr. cbn [bind]. eexists. reflexivity.
  - eexists. reflexivity.
Qed.

Lemma filterM_returns {A} (p : A -> outcome bool) l :
  (forall a, In a l -> exists b, p a = Ok b) -> exists r, filterM p l = Ok r.
Proof.
  induction l as [|a l IH]; intros H; [eexists; reflexivity|].
  cbn [filterM]. destruct (H a (or_introl eq_refl)) as (b & ->). cbn [bind].
  destruct IH as (r & ->); [intros c Hc; apply H; right; exact Hc|].
  cbn [bind]. eexists. reflexivity.
Qed.

(** X14. The accessibility analyzer returns a result, with a score from 21
    to 100, whenever every [id] of a form input is made of ASCII units
    other than the syntax characters of a pattern (letters, digits,
    hyphen, underscore, colon and so on): the pattern built from the [id]
    is then accepted. *)
Theorem plain_ids_accessibility_returns P html :
  plain_ids html = true ->
  exists r, analyzeAccessibility P html = Ok r /\ 21 <= score r <= 100.
Proof.
  intros H. unfold plain_ids in H. rewrite forallb_forall in H.
  destruct (@filterM_returns _ (lacks_label P html) (textInputs html)) as (l & Hl).
  { intros input Hin. apply lacks_label_returns. apply H. exact Hin. }
  unfold analyzeAccessibility. rewrite Hl. cbn [bind].
  eexists. split; [reflexivity|]. rewrite score_finish.
  pose proof (acc_deductions_bounds html l). lia.
Qed.

Lemma plain_ids_accessibility_returns_witness :
  plain_ids (js "<label for=`e-mail_1`>E-post</label><input id=`e-mail_1`>") = true
  /\ exists r,
       analyzeAccessibility strict_platform
         (js "<label for=`e-mail_1`>E-post</label><input id=`e-mail_1`>") = Ok r
       /\ 21 <= score r <= 100.
Proof.
  assert (H : plain_ids (js "<label for=`e-mail_1`>E-post</label><input id=`e-mail_1`>")
              = true) by (vm_compute; reflexivity).
  split; [exact H|]. exact (@plain_ids_accessibility_returns strict_platform _ H).
Defined.

(** ** Form labels without overlap *)

Lemma filterM_disjoint_counts {A} (p : A -> outcome bool) (q : A -> bool) :
  forall l yes,
    filterM p l = Ok yes ->
    forallb (fun a => negb (q a) || match p a with Ok true => true | _ => false end) l
    = true ->
    exists both,
      filterM (fun a => b <- p a ;; Ok (b && negb (q a))) l = Ok both
      /\ size both = size yes - count q l /\ count q l <= size yes.
Proof.
  unfold count, size.
  induction l as [|a l IH]; intros yes H Hall; cbn [filterM] in *.
  - injection H as <-. exists []. split; [reflexivity|]. cbn. lia.
  - cbn [forallb] in Hall. apply andb_true_iff in Hall. destruct Hall as [Ha Hall].
    destruct (p a) as [b| |]; cbn [bind] in *; try discriminate.
    destruct (filterM p l) as [r| |]; cbn [bind] in *; try discriminate.
    injection H as <-. destruct (IH r eq_refl Hall) as (both & Hb & Hs & Hle).
    rewrite Hb. cbn [bind filter]. eexists. split; [reflexivity|].
    destruct b, (q a); cbn [andb negb orb length] in *; try discriminate; lia.
Qed.

(** X15. When no input has both a [label] element and an ARIA label, the
    form-label rule deducts 3 for each input that has neither, 12 at
    most: the subtraction of the two counts is then exact.  This holds
    whatever the platform does, whenever the rule is reached, that is
    unless a pattern made from an [id] is rejected. *)
Theorem label_rule_exact_without_overlap P html :
  no_labelled_aria_input P html = true ->
  returned (form_label_deduction P html)
    (fun d => exists u, unlabeled_inputs P html = Ok u /\ d = Z.min 12 (3 * u)).
Proof.
  unfold form_label_deduction, unlabeled_inputs, no_labelled_aria_input.
  intros Hno.
  destruct (@filterM_cases _ (lacks_label P html) (textInputs html)
              (lacks_label_modelled P html)) as [(yes & Hyes)|(e & He)];
    rewrite ?Hyes, ?He; cbn [bind returned]; [|exact I].
  destruct (filterM_disjoint_counts _ has_aria_label _ Hyes Hno)
    as (both & Hb & Hs & Hle).
  rewrite Hb. cbn [bind]. eexists. split; [reflexivity|].
  unfold acc_form_labels, inputsWithAriaLabel.
  assert (0 <= size both) by (unfold size; lia).
  rule_cases; to_Z_facts; lia.
Qed.

Lemma label_rule_exact_without_overlap_witness :
  no_labelled_aria_input lenient_platform search_form_page = true
  /\ form_label_deduction lenient_platform search_form_page = Ok 3
  /\ returned (form_label_deduction lenient_platform search_form_page)
       (fun d => exists u,
            unlabeled_inputs lenient_platform search_form_page = Ok u
            /\ d = Z.min 12 (3 * u)).
Proof.
  assert (H1 : no_labelled_aria_input lenient_platform search_form_page = true)
    by (vm_compute; reflexivity).
  assert (H2 : form_label_deduction lenient_platform search_form_page = Ok 3)
    by (vm_compute; reflexivity).
  split; [exact H1|]. split; [exact H2|].
  exact (@label_rule_exact_without_overlap lenient_platform search_form_page H1).
Defined.

(** ** Response headers *)

Lemma build_headerObj_rev hs : build_headerObj hs = rev (lower_names hs).
Proof.
  unfold build_headerObj, lower_names, set_property.
  rewrite <- fold_left_rev_right. rewrite <- map_rev.
  induction (rev hs) as [|kv l IH]; [reflexivity|].
  cbn [fold_right map]. rewrite IH. reflexivity.
Qed.

Lemma header_lower_names hs1 hs2 name :
  lower_names hs1 = lower_names hs2 -> header hs1 name = header hs2 name.
Proof. intros H. unfold header. rewrite !build_headerObj_rev, H. reflexivity. Qed.

(** The security analyzer reads the headers through [header] only. *)
Lemma analyzeSecurity_ext url hs1 hs2 html :
  (forall name, header hs1 name = header hs2 name) ->
  analyzeSecurity url hs1 html = analyzeSecurity url hs2 html.
Proof.
  intros H. unfold analyzeSecurity, sec_effects, sec_hsts_rule, sec_csp_rule,
    sec_frame_rule, sec_content_type_rule, sec_referrer_rule, sec_permissions_rule,
    sec_xss_rule, sec_disclosure.
  rewrite !H. reflexivity.
Qed.

(** X16. The security analyzer does not depend on the letter case of the
    header names: two header collections that agree once their names are
    put in lower case give the same result. *)
Theorem header_names_ignore_case url hs1 hs2 html :
  lower_names hs1 = lower_names hs2 ->
  analyzeSecurity url hs1 html = analyzeSecurity url hs2 html.
Proof.
  intros H. apply analyzeSecurity_ext. intros name.
  apply header_lower_names. exact H.
Qed.

Lemma header_names_ignore_case_witness :
  lower_names [(js "X-Frame-Options", js "DENY")]
  = lower_names [(js "x-frame-OPTIONS", js "DENY")]
  /\ analyzeSecurity {| protocol := js "https:" |} [(js "X-Frame-Options", js "DENY")]
                     (js "<html></html>")
     = analyzeSecurity {| protocol := js "https:" |} [(js "x-frame-OPTIONS", js "DENY")]
                       (js "<html></html>").
Proof.
  assert (H : lower_names [(js "X-Frame-Options", js "DENY")]
              = lower_names [(js "x-frame-OPTIONS", js "DENY")])
    by (vm_compute; reflexivity).
  split; [exact H|].
  exact (@header_names_ignore_case {| protocol := js "https:" |} _ _
           (js "<html></html>") H).
Defined.

Lemma header_app hs k v name :
  header (hs ++ [(k, v)]) name =
  if jsstring_eqb (toLowerCase k) (js name) then Some v else header hs name.
Proof.
  unfold header. rewrite !build_headerObj_rev. unfold lower_names.
  rewrite map_app, rev_app_distr. cbn [map rev app fst snd].
  unfold get_property. cbn [find fst snd].
  destruct (jsstring_eqb (toLowerCase k) (js name)); reflexivity.
Qed.

Lemma find_app {A} (p : A -> bool) l1 l2 :
  find p (l1 ++ l2) = match find p l1 with Some x => Some x | None => find p l2 end.
Proof.
  induction l1 as [|x l1 IH]; [reflexivity|]. cbn [app find].
  destruct (p x); [reflexivity|exact IH].
Qed.

Lemma find_rev_filter (p q : jsstring * jsstring -> bool) l :
  (forall x, p x = true -> q x = true) ->
  find p (rev (filter q l)) = find p (rev l).
Proof.
  intros H. induction l as [|x l IH]; [reflexivity|].
  cbn [filter rev]. destruct (q x) eqn:Eq.
  - cbn [rev]. rewrite !find_app, IH. reflexivity.
  - rewrite find_app, IH. destruct (find p (rev l)); [reflexivity|].
    cbn [find]. destruct (p x) eqn:Ep; [|reflexivity].
    rewrite (H x Ep) in Eq. discriminate.
Qed.

Lemma header_without_name hs k name :
  jsstring_eqb (toLowerCase k) (js name) = false ->
  header (without_name k hs) name = header hs name.
Proof.
  intros Hk. unfold header, get_property. rewrite !build_headerObj_rev.
  unfold lower_names, without_name. rewrite <- !map_rev.
  assert (Hf : forall l : Headers,
    find (fun p => jsstring_eqb (fst p) (js name))
         (map (fun kv => (toLowerCase (fst kv), snd kv)) l)
    = option_map (fun kv => (toLowerCase (fst kv), snd kv))
        (find (fun kv => jsstring_eqb (toLowerCase (fst kv)) (js name)) l)).
  { induction l as [|x l IH]; [reflexivity|]. cbn [map find fst].
    destruct (jsstring_eqb (toLowerCase (fst x)) (js name)); [reflexivity|exact IH]. }
  rewrite !Hf. rewrite find_rev_filter; [reflexivity|].
  intros x Hx. apply negb_true_iff.
  destruct (jsstring_eqb (toLowerCase (fst x)) (toLowerCase k)) eqn:E; [|reflexivity].
  apply jsstring_eqb_eq in E. apply jsstring_eqb_eq in Hx. rewrite <- E, Hx in Hk.
  assert (Ht : jsstring_eqb (js name) (js name) = true)
    by (apply jsstring_eqb_eq; reflexivity).
  congruence.
Qed.

(** X17. When a header name is visited more than once, letter case apart,
    the value visited last is the one that counts: the earlier entries of
    that name can be dropped without changing the result. *)
Theorem repeated_header_last_value_counts url hs k v html :
  analyzeSecurity url (hs ++ [(k, v)]) html
  = analyzeSecurity url (without_name k hs ++ [(k, v)]) html.
Proof.
  apply analyzeSecurity_ext. intros name. rewrite !header_app.
  destruct (jsstring_eqb (toLowerCase k) (js name)) eqn:E; [reflexivity|].
  symmetry. apply header_without_name. exact E.
Qed.

(** ** A security score of 100 *)

Lemma mild_details es :
  forallb effect_ok es = true -> forallb is_mild (pushed_details es) = true.
Proof.
  induction es as [|[n|f|f] es IH]; cbn [forallb effect_ok pushed_details]; intros H;
    try (apply IH; exact H); try reflexivity.
  - apply andb_true_iff in H. destruct H as [Hf H].
    apply andb_true_iff in Hf. destruct Hf as [Hok Hs].
    cbn [forallb]. rewrite (IH H), andb_true_r.
    unfold finding_ok, is_success, is_mild in *.
    destruct (finding_type f); [|discriminate].
    destruct (severity f); [discriminate|reflexivity].
  - apply andb_true_iff in H. destruct H as [_ H]. apply IH. exact H.
Qed.

Ltac mild_rule :=
  intros Hd; autounfold with rules in *; rewrite ?deductions_app in Hd;
  rewrite ?pushed_issues_app, ?forallb_app;
  rule_cases; cbn [deductions] in Hd; first [reflexivity | lia].

Lemma sec_protocol_mild url :
  deductions (sec_protocol url) = 0 ->
  is_https url = true /\ forallb is_mild (pushed_issues (sec_protocol url)) = true.
Proof.
  unfold sec_protocol. destruct (is_https url); cbn; intros H;
    [split; reflexivity|lia].
Qed.

Lemma sec_hsts_rule_mild hs :
  deductions (sec_hsts_rule hs) = 0 ->
  truthy (header hs "strict-transport-security") = true
  /\ forallb is_mild (pushed_issues (sec_hsts_rule hs)) = true.
Proof.
  unfold sec_hsts_rule.
  destruct (header hs "strict-transport-security") as [[|c t]|];
    try (cbn; intros H; lia).
  rewrite deductions_app, pushed_issues_app, forallb_app. intros Hd.
  split; [reflexivity|]. rule_cases; cbn [deductions] in Hd; first [reflexivity | lia].
Qed.

Lemma sec_csp_rule_mild hs :
  deductions (sec_csp_rule hs) = 0 ->
  truthy (header hs "content-security-policy") = true
  /\ forallb is_mild (pushed_issues (sec_csp_rule hs)) = true.
Proof.
  unfold sec_csp_rule.
  destruct (header hs "content-security-policy") as [[|c t]|];
    try (cbn; intros H; lia).
  rewrite !deductions_app, !pushed_issues_app, !forallb_app. intros Hd.
  split; [reflexivity|]. rule_cases; cbn [deductions] in Hd; first [reflexivity | lia].
Qed.

Lemma sec_content_type_rule_mild hs :
  deductions (sec_content_type_rule hs) = 0 ->
  truthy (header hs "x-content-type-options") = true
  /\ forallb is_mild (pushed_issues (sec_content_type_rule hs)) = true.
Proof.
  unfold sec_content_type_rule.
  destruct (truthy (header hs "x-content-type-options")); cbn; intros H;
    [split; reflexivity|lia].
Qed.

Lemma sec_frame_rule_mild hs :
  deductions (sec_frame_rule hs) = 0 ->
  forallb is_mild (pushed_issues (sec_frame_rule hs)) = true.
Proof. mild_rule. Qed.

Lemma sec_referrer_rule_mild hs :
  deductions (sec_referrer_rule hs) = 0 ->
  forallb is_mild (pushed_issues (sec_referrer_rule hs)) = true.
Proof. mild_rule. Qed.

Lemma sec_permissions_rule_mild hs :
  deductions (sec_permissions_rule hs) = 0 ->
  forallb is_mild (pushed_issues (sec_permissions_rule hs)) = true.
Proof. mild_rule. Qed.

Lemma sec_xss_rule_mild hs :
  deductions (sec_xss_rule hs) = 0 ->
  forallb is_mild (pushed_issues (sec_xss_rule hs)) = true.
Proof. mild_rule. Qed.

Lemma sec_mixed_content_mild url html :
  deductions (sec_mixed_content url html) = 0 ->
  forallb is_mild (pushed_issues (sec_mixed_content url html)) = true.
Proof. mild_rule. Qed.

Lemma sec_emails_mild html :
  deductions (sec_emails html) = 0 ->
  forallb is_mild (pushed_issues (sec_emails html)) = true.
Proof. mild_rule. Qed.

Lemma sec_forms_mild html :
  deductions (sec_forms html) = 0 ->
  forallb is_mild (pushed_issues (sec_forms html)) = true.
Proof. mild_rule. Qed.

Lemma sec_passwords_mild html :
  forallb is_mild (pushed_issues (sec_passwords html)) = true.
Proof. unfold sec_passwords. rule_cases; reflexivity. Qed.

Lemma sec_disclosure_mild hs :
  deductions (sec_disclosure hs) = 0 ->
  forallb is_mild (pushed_issues (sec_disclosure hs)) = true.
Proof. mild_rule. Qed.

(** X18. A security score of 100 is only given to an HTTPS page whose
    response has the HSTS, CSP and X-Content-Type-Options headers, and
    then every finding is a success or an issue of severity [info]: each
    warning and each critical issue of the analyzer costs points. *)
Theorem perfect_security_score url hs html :
  score (analyzeSecurity url hs html) = 100 ->
  sec_https (metrics (analyzeSecurity url hs html)) = true
  /\ sec_hsts (metrics (analyzeSecurity url hs html)) = true
  /\ sec_csp (metrics (analyzeSecurity url hs html)) = true
  /\ sec_xcto (metrics (analyzeSecurity url hs html)) = true
  /\ forallb is_mild (details (analyzeSecurity url hs html)) = true.
Proof.
  unfold analyzeSecurity. rewrite score_finish, details_finish.
  cbn [metrics finish sec_https sec_hsts sec_csp sec_xcto].
  intros Hs.
  pose proof (sec_effects_deductions url hs html) as Hsum.
  rewrite sec_passwords_deducts in Hsum.
  pose proof (sec_protocol_deducts url) as Hp.
  pose proof (sec_hsts_rule_bounds hs). pose proof (sec_csp_rule_bounds hs).
  pose proof (sec_frame_rule_bounds hs).
  pose proof (sec_content_type_rule_bounds hs).
  pose proof (sec_referrer_rule_bounds hs).
  pose proof (sec_permissions_rule_bounds hs). pose proof (sec_xss_rule_bounds hs).
  pose proof (sec_mixed_content_bounds url html).
  pose proof (sec_emails_bounds html). pose proof (sec_forms_bounds html).
  pose proof (sec_disclosure_bounds hs).
  assert (Hz : deductions (sec_protocol url) = 0 /\ deductions (sec_hsts_rule hs) = 0
               /\ deductions (sec_csp_rule hs) = 0 /\ deductions (sec_frame_rule hs) = 0
               /\ deductions (sec_content_type_rule hs) = 0
               /\ deductions (sec_referrer_rule hs) = 0
               /\ deductions (sec_permissions_rule hs) = 0
               /\ deductions (sec_xss_rule hs) = 0
               /\ deductions (sec_mixed_content url html) = 0
               /\ deductions (sec_emails html) = 0 /\ deductions (sec_forms html) = 0
               /\ deductions (sec_disclosure hs) = 0).
  { destruct (is_https url); lia. }
  destruct Hz as (D1 & D2 & D3 & D4 & D5 & D6 & D7 & D8 & D9 & D10 & D11 & D12).
  destruct (sec_protocol_mild url D1) as [M1 I1].
  destruct (sec_hsts_rule_mild hs D2) as [M2 I2].
  destruct (sec_csp_rule_mild hs D3) as [M3 I3].
  destruct (sec_content_type_rule_mild hs D5) as [M5 I5].
  repeat (split; [assumption|]).
  rewrite forallb_app. apply andb_true_intro. split.
  - apply mild_details. apply sec_effects_ok.
  - unfold sec_effects. rewrite !pushed_issues_app, !forallb_app.
    rewrite I1, I2, I3, I5, (sec_frame_rule_mild hs D4),
      (sec_referrer_rule_mild hs D6), (sec_permissions_rule_mild hs D7),
      (sec_xss_rule_mild hs D8), (sec_mixed_content_mild url html D9),
      (sec_emails_mild html D10), (sec_forms_mild html D11),
      (sec_passwords_mild html), (sec_disclosure_mild hs D12).
    reflexivity.
Qed.

Lemma perfect_security_score_witness :
  score (analyzeSecurity {| protocol := js "https:" |} well_configured_headers
                         (js "<html lang=`no`><body>Hei</body></html>")) = 100
  /\ sec_csp (metrics (analyzeSecurity {| protocol := js "https:" |}
                         well_configured_headers
                         (js "<html lang=`no`><body>Hei</body></html>"))) = true.
Proof.
  assert (H : score (analyzeSecurity {| protocol := js "https:" |}
                       well_configured_headers
                       (js "<html lang=`no`><body>Hei</body></html>")) = 100)
    by (vm_compute; reflexivity).
  split; [exact H|].
  exact (proj1 (proj2 (proj2 (@perfect_security_score _ _ _ H)))).
Defined.

(** ** The total score and the category scores *)

Lemma totalScore_rounds_well p s sec m a :
  0 <= p <= 100 -> 0 <= s <= 100 -> 0 <= sec <= 100 ->
  0 <= m <= 100 -> 0 <= a <= 100 ->
  exists t,
    totalScore p s sec m a = Some t
    /\ (t = exact_total p s sec m a
        \/ (weighted_hundredths p s sec m a mod 100 = 50
            /\ t = exact_total p s sec m a - 1)).
Proof.
  intros Hp Hs Hsec Hm Ha.
  pose proof (weighted_sum_reachable Hp Hs Hsec Hm Ha) as Hin.
  pose proof reach4_rounds_well as Hall. rewrite forallb_forall in Hall.
  specialize (Hall _ Hin). unfold rounds_well in Hall. cbn [fst snd] in Hall.
  unfold totalScore, exact_total.
  destruct (Math_round (weighted_sum p s sec m a)) as [t|]; [|discriminate].
  exists t. split; [reflexivity|].
  apply orb_true_iff in Hall. destruct Hall as [H|H].
  - left. apply Z.eqb_eq in H. exact H.
  - right. apply andb_true_iff in H. destruct H as [H1 H2].
    apply Z.eqb_eq in H1. apply Z.eqb_eq in H2. split; assumption.
Qed.

Lemma totalScore_bracket p s sec m a :
  0 <= p <= 100 -> 0 <= s <= 100 -> 0 <= sec <= 100 ->
  0 <= m <= 100 -> 0 <= a <= 100 ->
  exists t,
    totalScore p s sec m a = Some t
    /\ min5 p s sec m a <= t <= max5 p s sec m a.
Proof.
  intros Hp Hs Hsec Hm Ha.
  destruct (totalScore_rounds_well Hp Hs Hsec Hm Ha) as (t & Ht & Hr).
  exists t. split; [exact Ht|].
  unfold exact_total, weighted_hundredths, min5, max5 in *.
  set (w := 25 * p + 25 * s + 20 * sec + 15 * m + 15 * a) in *.
  pose proof (Z.div_mod (w + 50) 100 ltac:(lia)) as Hd.
  pose proof (Z.mod_pos_bound (w + 50) 100 ltac:(lia)) as Hb.
  pose proof (Z.div_mod w 100 ltac:(lia)) as Hd'.
  pose proof (Z.mod_pos_bound w 100 ltac:(lia)) as Hb'.
  assert (Hlo : 100 * Z.min p (Z.min s (Z.min sec (Z.min m a))) <= w)
    by (unfold w; lia).
  assert (Hhi : w <= 100 * Z.max p (Z.max s (Z.max sec (Z.max m a))))
    by (unfold w; lia).
  destruct Hr as [->|[Hm50 ->]]; lia.
Qed.

(** X19. For category scores from 0 to 100, [totalScore] is a number, and
    it lies between the lowest and the highest of the five scores, the
    rounding of the doubles included. *)
Theorem total_score_between_lowest_and_highest p s sec m a :
  0 <= p <= 100 -> 0 <= s <= 100 -> 0 <= sec <= 100 ->
  0 <= m <= 100 -> 0 <= a <= 100 ->
  exists t,
    totalScore p s sec m a = Some t
    /\ min5 p s sec m a <= t <= max5 p s sec m a.
Proof. apply totalScore_bracket. Qed.

Lemma total_score_between_lowest_and_highest_witness :
  0 <= 60 <= 100 /\ 0 <= 24 <= 100 /\ 0 <= 61 <= 100 /\ 0 <= 77 <= 100
  /\ exists t,
       totalScore 60 60 24 61 77 = Some t
       /\ min5 60 60 24 61 77 <= t <= max5 60 60 24 61 77.
Proof.
  assert (H60 : 0 <= 60 <= 100) by lia. assert (H24 : 0 <= 24 <= 100) by lia.
  assert (H61 : 0 <= 61 <= 100) by lia. assert (H77 : 0 <= 77 <= 100) by lia.
  repeat split; try lia.
  exact (@total_score_between_lowest_and_highest 60 60 24 61 77 H60 H60 H24 H61 H77).
Defined.

(** ** The request handler *)

(** X20. An [OPTIONS] request, a request without [url] or with an empty
    one, and a request whose [url] does not begin with a scheme are
    answered with 200 and no body, with 400 and the error [URL mangler],
    with 400 and the error [Ugyldig URL-format], in this order of
    precedence, whatever the platform does: nothing is parsed further or
    fetched. *)
Theorem handler_answers_at_once P parse_url fetch now P' parse_url' fetch' now' req :
  answered_at_once req = true ->
  handler P parse_url fetch now req = handler P' parse_url' fetch' now' req
  /\ exists resp,
       handler P parse_url fetch now req = Ok resp
       /\ statusCode resp
          = (if jsstring_eqb (method req) (js "OPTIONS") then 200 else 400)
       /\ response_body resp
          = (if jsstring_eqb (method req) (js "OPTIONS") then NoBody
             else if truthy (query_url req) then ErrorBody (js "Ugyldig URL-format")
                  else ErrorBody (js "URL mangler")).
Proof.
  unfold answered_at_once, handler, new_URL. intros H.
  destruct (jsstring_eqb (method req) (js "OPTIONS")).
  - split; [reflexivity|]. eexists. repeat split.
  - cbn [orb] in H. destruct (query_url req) as [[|c t]|].
    + split; [reflexivity|]. eexists. repeat split.
    + apply negb_true_iff in H. rewrite H. split; [reflexivity|].
      eexists. repeat split.
    + split; [reflexivity|]. eexists. repeat split.
Qed.

Lemma handler_answers_at_once_witness :
  answered_at_once {| method := js "GET"; query_url := Some (js "efffekt.no") |} = true
  /\ handler strict_platform (fun _ => None) (fun _ => None) []
             {| method := js "GET"; query_url := Some (js "efffekt.no") |}
     = handler lenient_platform sample_parse_url sample_fetch (js "2026")
               {| method := js "GET"; query_url := Some (js "efffekt.no") |}.
Proof.
  assert (H : answered_at_once
                {| method := js "GET"; query_url := Some (js "efffekt.no") |} = true)
    by (vm_compute; reflexivity).
  split; [exact H|].
  exact (proj1 (@handler_answers_at_once strict_platform (fun _ => None)
                  (fun _ => None) [] lenient_platform sample_parse_url sample_fetch
                  (js "2026") _ H)).
Defined.

Lemma category_is_ok {M} (r : DimensionResult M) b :
  0 <= score r <= 100 -> category_ok (category r b) b.
Proof. intros H. unfold category_ok, category. cbn. repeat split; apply H. Qed.

(** Every audit ends in a report or a throw. *)
Lemma audit_cases P parsedUrl responseTime headers html :
  (exists pr ar,
      analyzePerformance P responseTime html (extractResources html) = Ok pr
      /\ analyzeAccessibility P html = Ok ar
      /\ audit P parsedUrl responseTime headers html
         = Ok {| report_totalScore :=
                   totalScore (score pr) (score (analyzeSEO html))
                              (score (analyzeSecurity parsedUrl headers html))
                              (score (analyzeMobile html)) (score ar);
                 report_performance := pr;
                 report_seo := analyzeSEO html;
                 report_security := analyzeSecurity parsedUrl headers html;
                 report_mobile := analyzeMobile html;
                 report_accessibility := ar |})
  \/ (exists e, audit P parsedUrl responseTime headers html = Throw e).
Proof.
  unfold audit. rewrite analyzePerformance_returns_on_extracted. cbn [bind].
  pose proof (@analyzeAccessibility_returned P html (fun _ => True) (fun _ => I)) as H.
  destruct (analyzeAccessibility P html) as [ar|e|]; cbn [bind];
    [left|right; eexists; reflexivity|contradiction].
  eexists. exists ar. split; [reflexivity|]. split; reflexivity.
Qed.

(** X21. Every request gets a response, whatever the platform does, and
    every response carries the three CORS headers.  A response without
    body is the 200 of an [OPTIONS] request; an error body comes with 400
    or 500; and a result comes with 200, names the requested [url], gives
    for each category a score from 0 to 100, the status [getStatus]
    assigns to that score and the benchmark of the category, and a
    [totalScore] between the lowest and the highest category score. *)
Theorem handler_response P parse_url fetch now req :
  exists resp,
    handler P parse_url fetch now req = Ok resp
    /\ response_headers resp = cors_headers
    /\ match response_body resp with
       | NoBody => statusCode resp = 200 /\ method req = js "OPTIONS"
       | ErrorBody _ => statusCode resp = 400 \/ statusCode resp = 500
       | ResultBody r =>
         statusCode resp = 200
         /\ query_url req = Some (result_url r)
         /\ category_ok (cat_performance r) 68
         /\ category_ok (cat_seo r) 72
         /\ category_ok (cat_security r) 65
         /\ category_ok (cat_mobile r) 78
         /\ category_ok (cat_accessibility r) 62
         /\ exists t, result_totalScore r = Some t
                      /\ lowest_score r <= t <= highest_score r
       end.
Proof.
  unfold handler.
  destruct (jsstring_eqb (method req) (js "OPTIONS")) eqn:Em.
  { eexists. split; [reflexivity|]. split; [reflexivity|].
    cbn [response_body respond statusCode].
    split; [reflexivity|]. apply jsstring_eqb_eq. exact Em. }
  destruct (query_url req) as [[|c t]|] eqn:Eq;
    try (eexists; split; [reflexivity|]; split; [reflexivity|left; reflexivity]).
  unfold new_URL. destruct (has_scheme (c :: t));
    [|eexists; split; [reflexivity|]; split; [reflexivity|left; reflexivity]].
  destruct (parse_url (c :: t)) as [parsedUrl|];
    [|eexists; split; [reflexivity|]; split; [reflexivity|left; reflexivity]].
  unfold analyse, fetch_page.
  destruct (fetch (c :: t)) as [fetched|]; cbn [bind];
    [|eexists; split; [reflexivity|]; split; [reflexivity|right; reflexivity]].
  destruct (audit_cases P parsedUrl (fetched_responseTime fetched)
              (fetched_headers fetched) (fetched_html fetched))
    as [(pr & ar & Hpr & Har & ->)|(e & ->)]; cbn [bind];
    [|eexists; split; [reflexivity|]; split; [reflexivity|right; reflexivity]].
  assert (Hp : 0 <= score pr <= 100).
  { apply bind_Ok in Hpr. destruct Hpr as (? & _ & [= <-]). apply score_finish_range. }
  assert (Ha : 0 <= score ar <= 100).
  { apply bind_Ok in Har. destruct Har as (? & _ & [= <-]). apply score_finish_range. }
  eexists. split; [reflexivity|]. split; [reflexivity|].
  cbn [response_body respond statusCode].
  unfold lowest_score, highest_score.
  cbn [result_url cat_performance cat_seo cat_security cat_mobile cat_accessibility
       result_totalScore report_totalScore report_performance report_seo
       report_security report_mobile report_accessibility industryBenchmarks
       bm_performance bm_seo bm_security bm_mobile bm_accessibility].
  split; [reflexivity|]. split; [reflexivity|].
  split; [apply category_is_ok; exact Hp|].
  split; [apply category_is_ok; apply score_finish_range|].
  split; [apply category_is_ok; apply score_finish_range|].
  split; [apply category_is_ok; apply score_finish_range|].
  split; [apply category_is_ok; exact Ha|].
  cbn [category cat_score].
  apply totalScore_bracket; try assumption; apply score_finish_range.
Qed.

Lemma handler_response_witness :
  exists resp,
    handler lenient_platform sample_parse_url
            (fun _ => Some {| fetched_responseTime := 180;
                              fetched_headers := well_configured_headers;
                              fetched_html := search_form_page |})
            (js "2026-01-10T12:00:00.000Z") sample_request = Ok resp
    /\ response_headers resp = cors_headers
    /\ statusCode resp = 200.
Proof.
  destruct (handler_response lenient_platform sample_parse_url
              (fun _ => Some {| fetched_responseTime := 180;
                                fetched_headers := well_configured_headers;
                                fetched_html := search_form_page |})
              (js "2026-01-10T12:00:00.000Z") sample_request)
    as (resp & H & Hh & Hb).
  exists resp. split; [exact H|]. split; [exact Hh|].
  assert (E : handler lenient_platform sample_parse_url
                (fun _ => Some {| fetched_responseTime := 180;
                                  fetched_headers := well_configured_headers;
                                  fetched_html := search_form_page |})
                (js "2026-01-10T12:00:00.000Z") sample_request
              = Ok resp -> statusCode resp = 200).
  { vm_compute. intros [= <-]. reflexivity. }
  exact (E H).
Defined.
